(** * TurbuStat: the Delta-Variance estimator

    A shallow embedding of [turbustat/statistics/delta_variance/delta_variance.py]
    (kernel generation, zero padding, the convolution stage, the [_delvar]
    reduction, the bootstrap error estimate, the curve comparator) and the
    properties of it that the specification states.

    Modelling conventions.
    - A float is an extended number [ext K]: a finite value of the carrier
      [K], the two infinities, or NaN.  Arithmetic on it follows IEEE 754 for
      the special values and is exact on finite values: rounding, overflow
      and the sign of zero are not represented.  Image data uses the carrier
      [Qc] (canonical rationals, executable); the kernels, which need [exp]
      and [pi], use the carrier [R].
    - A 2-D array is its list of rows; a 1-D array is a list.
    - A Python exception is a value of [exn]; code that may raise returns a
      [result].  The global NumPy random generator is a tape of uniform
      draws that is threaded through the code that consumes it.
    - Library routines the module imports (NumPy, SciPy, Astropy) are
      modelled from their documented behaviour, or taken as section
      variables when the rational model cannot compute them
      ([convolve_fft], [np.logspace], [np.log10], [np.sqrt]). *)

From Stdlib Require Import String.
From Stdlib Require Import ZArith QArith Qcanon Qround Reals ROrderedType.
From Stdlib Require Import Lra Lia List Bool Arith.
From Stdlib Require Import Sorting.Permutation Sorting.Sorted.
Import ListNotations.

(* ================================================================== *)
(** * Part I.  The embedding                                           *)
(* ================================================================== *)

(** ** Python exceptions and results *)

Inductive exn : Type :=
| KeyError
| ValueError
| IndexError
| ZeroDivisionError
| OverflowError
| AttributeError.

Inductive result (A : Type) : Type :=
| Ok (a : A)
| Raise (e : exn).

Arguments Ok {A} a.
Arguments Raise {A} e.

Definition rbind {A B : Type} (m : result A) (k : A -> result B) : result B :=
  match m with
  | Ok a => k a
  | Raise e => Raise e
  end.

Declare Scope py_scope.
Delimit Scope py_scope with py.
Notation "x <- m ;; k" := (rbind m (fun x => k))
  (at level 61, m at next level, right associativity) : py_scope.
Notation "' p <- m ;; k" := (rbind m (fun p => k))
  (at level 61, p pattern, m at next level, right associativity) : py_scope.

Definition result_map {A B : Type} (f : A -> B) (m : result A) : result B :=
  match m with
  | Ok a => Ok (f a)
  | Raise e => Raise e
  end.

(** [try: body / except E: handler] for a single exception class [E]. *)
Definition try_except {A : Type} (body : result A) (E : exn -> bool)
    (handler : result A) : result A :=
  match body with
  | Ok a => Ok a
  | Raise e => if E e then handler else Raise e
  end.

Definition is_ValueError (e : exn) : bool :=
  match e with ValueError => true | _ => false end.

(** ** Extended numbers *)

Inductive ext (K : Type) : Type :=
| Fin (x : K)
| PInf
| NInf
| NaN.

Arguments Fin {K} x.
Arguments PInf {K}.
Arguments NInf {K}.
Arguments NaN {K}.

(** The operations a carrier supplies; [ksgn x] compares [x] with zero. *)
Class Carrier (K : Type) : Type := {
  kzero : K;
  kadd : K -> K -> K;
  kmul : K -> K -> K;
  kopp : K -> K;
  kdiv : K -> K -> K;
  ksgn : K -> comparison
}.

#[export] Instance Qc_carrier : Carrier Qc := {
  kzero := 0%Qc;
  kadd := Qcplus;
  kmul := Qcmult;
  kopp := Qcopp;
  kdiv := Qcdiv;
  ksgn := fun x => (x ?= 0)%Qc
}.

#[export] Instance R_carrier : Carrier R := {
  kzero := 0%R;
  kadd := Rplus;
  kmul := Rmult;
  kopp := Ropp;
  kdiv := Rdiv;
  ksgn := fun x => Rcompare x 0%R
}.

Definition sgn_mul (a b : comparison) : comparison :=
  match a, b with
  | Eq, _ | _, Eq => Eq
  | Lt, Lt | Gt, Gt => Gt
  | Lt, Gt | Gt, Lt => Lt
  end.

(** The infinity of a given sign; a zero sign stands for an invalid
    operation ([0 * inf], [0 / 0]). *)
Definition signed_inf {K : Type} (s : comparison) : ext K :=
  match s with
  | Gt => PInf
  | Lt => NInf
  | Eq => NaN
  end.

Section ExtOps.
Context {K : Type} `{Carrier K}.

Definition is_nan (x : ext K) : bool :=
  match x with NaN => true | _ => false end.

Definition is_inf (x : ext K) : bool :=
  match x with PInf | NInf => true | _ => false end.

(** [x == 0] *)
Definition is_zero (x : ext K) : bool :=
  match x with
  | Fin a => match ksgn a with Eq => true | _ => false end
  | _ => false
  end.

Definition fneg (x : ext K) : ext K :=
  match x with
  | Fin a => Fin (kopp a)
  | PInf => NInf
  | NInf => PInf
  | NaN => NaN
  end.

Definition fadd (x y : ext K) : ext K :=
  match x, y with
  | NaN, _ | _, NaN => NaN
  | Fin a, Fin b => Fin (kadd a b)
  | PInf, NInf | NInf, PInf => NaN
  | PInf, _ | _, PInf => PInf
  | NInf, _ | _, NInf => NInf
  end.

Definition fsub (x y : ext K) : ext K := fadd x (fneg y).

Definition fmul (x y : ext K) : ext K :=
  match x, y with
  | NaN, _ | _, NaN => NaN
  | Fin a, Fin b => Fin (kmul a b)
  | Fin a, PInf | PInf, Fin a => signed_inf (ksgn a)
  | Fin a, NInf | NInf, Fin a => signed_inf (sgn_mul (ksgn a) Lt)
  | PInf, PInf | NInf, NInf => PInf
  | PInf, NInf | NInf, PInf => NInf
  end.

(** Array division: a zero divisor gives an infinity of the sign of the
    dividend, or NaN for [0 / 0]; nothing is raised. *)
Definition fdiv (x y : ext K) : ext K :=
  match x, y with
  | NaN, _ | _, NaN => NaN
  | Fin a, Fin b =>
      match ksgn b with
      | Eq => signed_inf (ksgn a)
      | _ => Fin (kdiv a b)
      end
  | Fin _, _ => Fin kzero
  | PInf, Fin b => match ksgn b with Lt => NInf | _ => PInf end
  | NInf, Fin b => match ksgn b with Lt => PInf | _ => NInf end
  | _, _ => NaN
  end.

(** [x ** 2.] *)
Definition fsq (x : ext K) : ext K := fmul x x.

Definition fabs (x : ext K) : ext K :=
  match x with
  | Fin a => match ksgn a with Lt => Fin (kopp a) | _ => Fin a end
  | PInf | NInf => PInf
  | NaN => NaN
  end.

(** [np.sum] over a flat array. *)
Definition np_sum (xs : list (ext K)) : ext K :=
  fold_left fadd xs (Fin kzero).

End ExtOps.

(** Floats of the data pipeline. *)
Abbreviation float := (ext Qc).

(** A 2-D array, as its rows. *)
Abbreviation array := (list (list (ext Qc))).

Definition shape {A : Type} (a : list (list A)) : nat * nat :=
  (length a, length (hd [] a)).

(** [a.ravel()]: the cells in row-major order. *)
Definition ravel {A : Type} (a : list (list A)) : list A := concat a.

(** Integers as floats. *)
Definition qn (n : nat) : Qc := Q2Qc (inject_Z (Z.of_nat n)).
Definition of_nat (n : nat) : float := Fin (qn n).

(** Element-wise binary operation on two arrays.  NumPy wants operands of
    one shape (or shapes that broadcast); every binary operation of the
    module is between arrays produced with one shape. *)
Definition map2 {A B C : Type} (f : A -> B -> C) (xs : list A) (ys : list B)
    : list C :=
  map (fun p => f (fst p) (snd p)) (combine xs ys).

Definition amap2 {A B C : Type} (f : A -> B -> C)
    (a : list (list A)) (b : list (list B)) : list (list C) :=
  map2 (map2 f) a b.

Definition amap {A B : Type} (f : A -> B) (a : list (list A))
    : list (list B) :=
  map (map f) a.

(** ** The delta-variance reduction *)

(** [np.nansum]: the sum with every NaN taken as zero (so that the sum of
    an array of NaNs is zero, as NumPy documents since 1.9). *)
Definition nan_to_zero (x : float) : float :=
  if is_nan x then Fin 0%Qc else x.

Definition nansum (a : array) : float :=
  np_sum (map nan_to_zero (ravel a)).

(** [scipy.stats.nanmean(x, axis=None)]: the array is flattened, its NaN
    entries are zeroed, and the plain mean is rescaled by the share of
    entries that were valid. *)
Definition nanmean (a : array) : float :=
  let x := ravel a in
  let Norig := of_nat (length x) in
  let nnan := of_nat (length (filter is_nan x)) in
  let factor := fsub (Fin 1%Qc) (fdiv nnan Norig) in
  let x0 := map nan_to_zero x in
  fdiv (fdiv (np_sum x0) Norig) factor.

Definition _delvar (array_ weight : array) : float :=
  let avg_value := nanmean array_ in
  let val :=
    fdiv (nansum (amap2 fmul (amap (fun x => fsq (fsub x avg_value)) array_)
                        weight))
         (nansum weight) in
  val.

(** The reduction as the specification words it: both sums and the mean
    range over the cells that are not NaN. *)
Definition not_nan (x : float) : bool := negb (is_nan x).

Definition sum_non_nan (xs : list float) : float :=
  np_sum (filter not_nan xs).

Definition unweighted_mean (field : array) : float :=
  fdiv (sum_non_nan (ravel field))
       (of_nat (length (filter not_nan (ravel field)))).

Definition delta_variance_spec (field weight : array) : float :=
  let m := unweighted_mean field in
  fdiv (sum_non_nan
          (ravel (amap2 (fun x w => fmul (fsq (fsub x m)) w) field weight)))
       (sum_non_nan (ravel weight)).

(** ** Python and NumPy scalars, indexing, sorting *)

(** Literals. *)
Definition fq (n : Z) (d : positive) : float := Fin (Q2Qc (n # d)).

(** A scalar is a Python number or a NumPy scalar; the two differ in what
    a division by zero does. *)
Inductive numkind : Type :=
| PyNumber
| NumPyScalar.

Definition kind_join (a b : numkind) : numkind :=
  match a, b with
  | PyNumber, PyNumber => PyNumber
  | _, _ => NumPyScalar
  end.

Record scalar (K : Type) : Type := mkScalar {
  kind : numkind;
  num : ext K
}.

Arguments mkScalar {K} kind num.
Arguments kind {K} s.
Arguments num {K} s.

(** [a / b] on scalars: Python raises on a zero divisor, NumPy returns an
    infinity or NaN. *)
Definition scalar_div {K : Type} `{Carrier K} (a b : scalar K)
    : result (scalar K) :=
  match kind_join (kind a) (kind b) with
  | PyNumber =>
      if is_zero (num b) then Raise ZeroDivisionError
      else Ok (mkScalar PyNumber (fdiv (num a) (num b)))
  | NumPyScalar => Ok (mkScalar NumPyScalar (fdiv (num a) (num b)))
  end.

(** [int(x)] of a float: truncation towards zero. *)
Definition py_int (x : float) : result Z :=
  match x with
  | Fin q => Ok (Z.quot (Qnum q) (Zpos (Qden q)))
  | NaN => Raise ValueError
  | _ => Raise OverflowError
  end.

(** [x < y] on floats; false as soon as one side is NaN. *)
Definition float_ltb (x y : float) : bool :=
  match x, y with
  | NaN, _ | _, NaN => false
  | Fin a, Fin b => match (a ?= b)%Qc with Lt => true | _ => false end
  | NInf, NInf => false
  | NInf, _ => true
  | _, NInf => false
  | PInf, _ => false
  | _, PInf => true
  end.

(** [xs[k]] for a Python integer [k]: a negative index counts from the
    end, an index outside the array raises IndexError. *)
Definition np_getitem {A : Type} (xs : list A) (k : Z) : result A :=
  let n := Z.of_nat (length xs) in
  let k' := if (k <? 0)%Z then (k + n)%Z else k in
  if ((0 <=? k') && (k' <? n))%Z then
    match nth_error xs (Z.to_nat k') with
    | Some x => Ok x
    | None => Raise IndexError
    end
  else Raise IndexError.

(** [X[idx]] for an integer array [idx]: selection along the first axis. *)
Fixpoint np_take {A : Type} (X : list A) (idx : list Z) : result (list A) :=
  match idx with
  | [] => Ok []
  | i :: idx' =>
      (x <- np_getitem X i ;;
       r <- np_take X idx' ;;
       Ok (x :: r))%py
  end.

(** [xs[i] = v] for an index [i] produced by [enumerate]. *)
Definition np_setitem {A : Type} (xs : list A) (i : nat) (v : A)
    : result (list A) :=
  if (i <? length xs)%nat then Ok (firstn i xs ++ v :: skipn (S i) xs)
  else Raise IndexError.

(** The order of [np.sort]: ascending, every NaN after every number. *)
Definition float_leb (x y : float) : bool :=
  match x, y with
  | _, NaN => true
  | NaN, _ => false
  | NInf, _ => true
  | _, NInf => false
  | _, PInf => true
  | PInf, _ => false
  | Fin a, Fin b => match (a ?= b)%Qc with Gt => false | _ => true end
  end.

Fixpoint insert_sorted (x : float) (xs : list float) : list float :=
  match xs with
  | [] => [x]
  | y :: ys => if float_leb x y then x :: xs else y :: insert_sorted x ys
  end.

Fixpoint np_sort (xs : list float) : list float :=
  match xs with
  | [] => []
  | x :: xs' => insert_sorted x (np_sort xs')
  end.

(** ** The random generator *)

(** The generator state: a tape of uniform draws and the position of the
    next one.  [np.random.rand(n)] reads the next [n] draws. *)
Record rng : Type := mkRng {
  tape : nat -> Qc;
  cursor : nat
}.

Definition random_rand (n : nat) (g : rng) : list Qc * rng :=
  (map (tape g) (seq (cursor g) n), mkRng (tape g) (cursor g + n)).

(** Code that may raise and that draws random numbers. *)
Definition M (A : Type) : Type := rng -> result (A * rng).

(** ** Bootstrap resampling *)

Definition bootstrap_resample {A : Type} (X : list A) (n : option nat)
    : M (list A) :=
  fun g =>
    let n := match n with None => length X | Some n => n end in
    let (u, g') := random_rand n g in
    let resample_i := map (fun u => Qfloor (u * qn (length X))%Qc) u in
    (X_resample <- np_take X resample_i ;;
     Ok (X_resample, g'))%py.

(** The resampling step as the specification words it: one index into the
    flattened population is drawn for every cell. *)
Definition flat_resample_spec (X : array) : M (list float) :=
  fun g =>
    let population := ravel X in
    let (u, g') := random_rand (length population) g in
    (cells <- np_take population
                (map (fun u => Qfloor (u * qn (length population))%Qc) u) ;;
     Ok (cells, g'))%py.

(** ** Kernels *)

(** Kernels hold real numbers. *)
Abbreviation xreal := (ext R).
Abbreviation kernel := (list (list (ext R))).

Definition xexp (x : xreal) : xreal :=
  match x with
  | Fin r => Fin (exp r)
  | PInf => PInf
  | NInf => Fin 0%R
  | NaN => NaN
  end.

Definition xz (z : Z) : xreal := Fin (IZR z).

(** [np.arange(-size / 2, size / 2 + 1, 1)], with the integer (floor)
    division of Python 2. *)
Definition axis_grid (size : Z) : list Z :=
  let lo := (- size / 2)%Z in
  let hi := (size / 2 + 1)%Z in
  map (fun k => (lo + Z.of_nat k)%Z) (seq 0 (Z.to_nat (hi - lo))).

(** [x ** 2. + y ** 2.] over [x, y = np.meshgrid(...)]: one row per [y]. *)
Definition radius2 (x_size y_size : Z) : kernel :=
  map (fun y => map (fun x => fadd (fsq (xz x)) (fsq (xz y)))
                    (axis_grid x_size))
      (axis_grid y_size).

(** [np.exp(-(x ** 2. + y ** 2.) / width ** 2.)] *)
Definition gaussian (r2 : kernel) (width : xreal) : kernel :=
  amap (fun v => xexp (fdiv (fneg v) (fsq width))) r2.

(** [kernel / np.sum(kernel)] *)
Definition normalise (k : kernel) : kernel :=
  let total := np_sum (ravel k) in
  amap (fun v => fdiv v total) k.

Definition core_kernel (lag : scalar R) (x_size y_size : Z) : kernel :=
  let r2 := radius2 x_size y_size in
  let kernel_ :=
    amap (fmul (fmul (fdiv (xz 4) (Fin PI)) (num lag)))
         (gaussian r2 (fdiv (num lag) (xz 2))) in
  normalise kernel_.

Definition annulus_kernel (lag diam_ratio : scalar R) (x_size y_size : Z)
    : result kernel :=
  let r2 := radius2 x_size y_size in
  let inner := gaussian r2 (fdiv (num lag) (xz 2)) in
  let outer := gaussian r2 (fdiv (fmul (num diam_ratio) (num lag)) (xz 2)) in
  (factor <- scalar_div
               (mkScalar PyNumber (xz 4))
               (mkScalar (kind_join (kind lag) (kind diam_ratio))
                  (fmul (fmul (Fin PI) (num lag))
                        (fsub (fsq (num diam_ratio)) (xz 1)))) ;;
   let kernel_ := amap (fmul (num factor)) (amap2 fsub outer inner) in
   Ok (normalise kernel_))%py.

(** ** Zero padding *)

(** [vector[:k] = x] *)
Definition assign_head {A : Type} (vector : list A) (k : nat) (x : A)
    : list A :=
  repeat x (Nat.min k (length vector)) ++ skipn k vector.

(** [vector[-k:] = x]: the slice starts [k] cells before the end, at the
    first cell when [k] exceeds the length, and, [-0] being [0], also at
    the first cell when [k] is zero. *)
Definition assign_tail {A : Type} (vector : list A) (k : nat) (x : A)
    : list A :=
  let start := match k with
               | O => O
               | S _ => (length vector - k)%nat
               end in
  firstn start vector ++ repeat x (length vector - start).

Definition padwithzeros (vector : list float) (pad_width : nat * nat)
    (iaxis : nat) : list float :=
  let vector := assign_head vector (fst pad_width) (Fin 0%Qc) in
  let vector := assign_tail vector (snd pad_width) (Fin 0%Qc) in
  vector.

Definition column {A : Type} (d : A) (j : nat) (a : list (list A)) : list A :=
  map (fun r => nth j r d) a.

(** [np.apply_along_axis(f, 0, a)] for an in-place [f]: every column is
    handed to [f] and written back. *)
Definition apply_along_axis0 (f : list float -> list float) (a : array)
    : array :=
  let (h, w) := shape a in
  let cols := map (fun j => f (column NaN j a)) (seq 0 w) in
  map (fun i => map (fun c => nth i c NaN) cols) (seq 0 h).

Definition apply_along_axis1 (f : list float -> list float) (a : array)
    : array :=
  map f a.

(** [np.pad(a, pad, function)]: a zero array larger by [pad] on every
    edge receives [a] in its middle, then the function is run over every
    1-D vector of axis 0 and of axis 1 with the pad widths of that axis. *)
Definition np_pad (a : array) (pad : Z)
    (function : list float -> nat * nat -> nat -> list float)
    : result array :=
  if (pad <? 0)%Z then Raise ValueError
  else
    let p := Z.to_nat pad in
    let (h, w) := shape a in
    let zrow := repeat (Fin 0%Qc) (p + w + p) in
    let newmat :=
      repeat zrow p
      ++ map (fun r => repeat (Fin 0%Qc) p ++ r ++ repeat (Fin 0%Qc) p) a
      ++ repeat zrow p in
    let newmat := apply_along_axis0 (fun v => function v (p, p) 0%nat) newmat in
    let newmat := apply_along_axis1 (fun v => function v (p, p) 1%nat) newmat in
    Ok newmat.

(** Removing [pad] cells from every edge, [a[pad:-pad, pad:-pad]] in the
    specification's sense (nothing is removed for [pad = 0]). *)
Definition crop_spec {A : Type} (pad : nat) (a : list (list A))
    : list (list A) :=
  let trim {B : Type} (l : list B) :=
    firstn (length l - 2 * pad) (skipn pad l) in
  map trim (trim a).

(** ** The estimator object *)

(** A FITS header: its numeric cards, in order. *)
Abbreviation header_t := (list (string * ext Qc)).

(** [header[key]]: the first card of that name; KeyError when there is
    none. *)
Fixpoint header_getitem (h : header_t) (key : string) : result float :=
  match h with
  | [] => Raise KeyError
  | (k, v) :: h' => if String.eqb k key then Ok v else header_getitem h' key
  end.

Inductive unit_t : Type :=
| deg
| arcmin
| pixel.

(** An Astropy quantity. *)
Record quantity : Type := mkQuantity {
  value : float;
  unit : unit_t
}.

(** [q.to(u.arcmin)]; a unit that is not an angle raises a units error,
    which is a ValueError. *)
Definition to_arcmin (q : quantity) : result float :=
  match unit q with
  | deg => Ok (fmul (value q) (fq 60 1))
  | arcmin => Ok (value q)
  | pixel => Raise ValueError
  end.

Record DeltaVariance : Type := mkDeltaVariance {
  img : array;
  header : header_t;
  weights : array;
  diam_ratio : scalar Qc;
  nanflag : bool;
  ang_size : option quantity;
  lags_kind : numkind;
  lags : list float;
  convolved_arrays : list array;
  convolved_weights : list array;
  delta_var : list float;
  (** the 2 x len(lags) error array, column by column *)
  delta_var_error : list (float * float)
}.

Definition set_convolved (self : DeltaVariance) (ca cw : list array)
    : DeltaVariance :=
  mkDeltaVariance (img self) (header self) (weights self) (diam_ratio self)
    (nanflag self) (ang_size self) (lags_kind self) (lags self)
    ca cw (delta_var self) (delta_var_error self).

Definition set_delta_var (self : DeltaVariance) (dv : list float)
    (dve : list (float * float)) : DeltaVariance :=
  mkDeltaVariance (img self) (header self) (weights self) (diam_ratio self)
    (nanflag self) (ang_size self) (lags_kind self) (lags self)
    (convolved_arrays self) (convolved_weights self) dv dve.

Definition set_lags (self : DeltaVariance) (l : list float) : DeltaVariance :=
  mkDeltaVariance (img self) (header self) (weights self) (diam_ratio self)
    (nanflag self) (ang_size self) (lags_kind self) l
    (convolved_arrays self) (convolved_weights self)
    (delta_var self) (delta_var_error self).

Definition to_real (x : float) : xreal :=
  match x with
  | Fin q => Fin (Q2R q)
  | PInf => PInf
  | NInf => NInf
  | NaN => NaN
  end.

Definition scalar_to_real (s : scalar Qc) : scalar R :=
  mkScalar (kind s) (to_real (num s)).

(** [weights[np.where(weights == 0)] = np.NaN] *)
Definition zero_to_nan (a : array) : array :=
  amap (fun w => if is_zero w then NaN else w) a.

(** The second half of the body of the loop of [do_convolutions]: zero
    weights become NaN, then the difference field and the combined weight
    are formed. *)
Definition normalised_difference
    (img_core img_annulus weights_core weights_annulus : array)
    : array * array :=
  let weights_core := zero_to_nan weights_core in
  let weights_annulus := zero_to_nan weights_annulus in
  (amap2 fsub (amap2 fdiv img_core weights_core)
              (amap2 fdiv img_annulus weights_annulus),
   amap2 fmul weights_core weights_annulus).

(** The cell [(i, j)] of an array, when the array has one. *)
Definition cell {A : Type} (a : list (list A)) (i j : nat) : option A :=
  match nth_error a i with
  | Some r => nth_error r j
  | None => None
  end.

Section Estimator.

(** [astropy.convolution.convolve_fft(array, kernel, normalize_kernel=True,
    interpolate_nan=b, ignore_edge_zeros=True)] *)
Variable convolve_fft : array -> kernel -> bool -> array.

(** [np.log10] and [np.logspace(start, stop, num)] *)
Variable np_log10 : float -> float.
Variable np_logspace : float -> float -> nat -> list float.

(** What an [np.empty] cell holds before it is written. *)
Variable uninit : float.

Definition __init__ (img : array) (header : header_t) (weights : array)
    (diam_ratio : scalar Qc) (lags : option (numkind * list float))
    : result DeltaVariance :=
  let nanflag := existsb is_nan (ravel img) in
  let half := fdiv (of_nat (Nat.min (fst (shape img)) (snd (shape img))))
                   (fq 2 1) in
  ('(ang_size, lags_kind, lags) <-
     match lags with
     | None =>
         '(ang_size, min_size) <-
           try_except
             (cdelt2 <- header_getitem header "CDELT2" ;;
              let ang_size := mkQuantity cdelt2 deg in
              in_arcmin <- to_arcmin ang_size ;;
              let min_size := fdiv (fq 1 10) in_arcmin in
              let min_size :=
                if float_ltb min_size (fq 3 1) || float_ltb half min_size
                then fq 3 1 else min_size in
              Ok (ang_size, min_size))
             is_ValueError
             (Ok (mkQuantity (fq 1 1) pixel, fq 3 1)) ;;
         Ok (Some ang_size, NumPyScalar,
             np_logspace (np_log10 min_size) (np_log10 half) 25)
     | Some (k, l) => Ok (None, k, l)
     end ;;
   Ok (mkDeltaVariance img header weights diam_ratio nanflag ang_size
         lags_kind lags [] []
         (repeat uninit (length lags))
         (repeat (uninit, uninit) (length lags))))%py.

(** The first half of the body of the loop of [do_convolutions]: the two
    kernels, the padding and the four convolutions of one lag. *)
Definition convolved_fields (self : DeltaVariance) (lag : float)
    : result (array * array * array * array) :=
  let (h, w) := shape (img self) in
  let lag_ := mkScalar (lags_kind self) (to_real lag) in
  let core := core_kernel lag_ (Z.of_nat h) (Z.of_nat w) in
  (annulus <- annulus_kernel lag_ (scalar_to_real (diam_ratio self))
                (Z.of_nat h) (Z.of_nat w) ;;
   p <- py_int lag ;;
   pad_weights <- np_pad (weights self) p padwithzeros ;;
   padded <- np_pad (img self) p padwithzeros ;;
   let pad_img := amap2 fmul padded pad_weights in
   let interpolate_nan := if nanflag self then true else false in
   let img_core := convolve_fft pad_img core interpolate_nan in
   let img_annulus := convolve_fft pad_img annulus interpolate_nan in
   let weights_core := convolve_fft pad_weights core interpolate_nan in
   let weights_annulus := convolve_fft pad_weights annulus interpolate_nan in
   Ok (img_core, img_annulus, weights_core, weights_annulus))%py.

(** The body of the loop of [do_convolutions] for one lag: the pair that
    is appended to [convolved_arrays] and [convolved_weights]. *)
Definition convolve_lag (self : DeltaVariance) (lag : float)
    : result (array * array) :=
  ('(img_core, img_annulus, weights_core, weights_annulus) <-
     convolved_fields self lag ;;
   Ok (normalised_difference img_core img_annulus
         weights_core weights_annulus))%py.

Fixpoint do_convolutions_loop (self : DeltaVariance) (todo : list float)
    : result DeltaVariance :=
  match todo with
  | [] => Ok self
  | lag :: todo' =>
      ('(ca, cw) <- convolve_lag self lag ;;
       do_convolutions_loop
         (set_convolved self (convolved_arrays self ++ [ca])
                             (convolved_weights self ++ [cw]))
         todo')%py
  end.

Definition do_convolutions (self : DeltaVariance) : result DeltaVariance :=
  do_convolutions_loop self (lags self).

(** The [for n in range(nsamples)] loop that fills [bootstrap_delvar]. *)
Fixpoint bootstrap_loop (convolved_array convolved_weight : array)
    (nsamples : nat) : M (list float) :=
  fun g =>
    match nsamples with
    | O => Ok ([], g)
    | S n' =>
        ('(resample, g1) <- bootstrap_resample convolved_array None g ;;
         let v := _delvar resample convolved_weight in
         '(rest, g2) <- bootstrap_loop convolved_array convolved_weight n' g1 ;;
         Ok (v :: rest, g2))%py
    end.

(** The bootstrap branch: the error pair of one lag. *)
Definition bootstrap_error (convolved_array convolved_weight : array)
    (nsamples : nat) (alpha : float) : M (float * float) :=
  fun g =>
    ('(bootstrap_delvar, g1) <-
       bootstrap_loop convolved_array convolved_weight nsamples g ;;
     let stat := np_sort bootstrap_delvar in
     lo <- py_int (fmul (fdiv alpha (fq 2 1)) (of_nat nsamples)) ;;
     e0 <- np_getitem stat lo ;;
     hi <- py_int (fmul (fsub (fq 1 1) (fdiv alpha (fq 2 1)))
                        (of_nat nsamples)) ;;
     e1 <- np_getitem stat hi ;;
     Ok ((e0, e1), g1))%py.

(** The body of the loop of [compute_deltavar] for the [i]-th pair. *)
Definition compute_deltavar_step (self : DeltaVariance) (i : nat)
    (convolved_array convolved_weight : array)
    (bootstrap : bool) (nsamples : nat) (alpha : float) : M DeltaVariance :=
  fun g =>
    let delta_var_val := _delvar convolved_array convolved_weight in
    ('(error, g') <-
       (if bootstrap
        then bootstrap_error convolved_array convolved_weight nsamples alpha g
        else Ok ((fq 0 1, fq 0 1), g)) ;;
     dv <- np_setitem (delta_var self) i delta_var_val ;;
     dve <- np_setitem (delta_var_error self) i error ;;
     Ok (set_delta_var self dv dve, g'))%py.

Fixpoint compute_deltavar_loop (self : DeltaVariance) (i : nat)
    (pairs : list (array * array))
    (bootstrap : bool) (nsamples : nat) (alpha : float) : M DeltaVariance :=
  fun g =>
    match pairs with
    | [] => Ok (self, g)
    | (ca, cw) :: pairs' =>
        ('(self', g') <-
           compute_deltavar_step self i ca cw bootstrap nsamples alpha g ;;
         compute_deltavar_loop self' (S i) pairs' bootstrap nsamples alpha g')%py
    end.

Definition compute_deltavar (self : DeltaVariance)
    (bootstrap : bool) (nsamples : nat) (alpha : float) : M DeltaVariance :=
  compute_deltavar_loop self 0
    (combine (convolved_arrays self) (convolved_weights self))
    bootstrap nsamples alpha.

(** [run], without the plotting of [verbose=True]. *)
Definition run (self : DeltaVariance) (bootstrap ang_units : bool)
    : M DeltaVariance :=
  fun g =>
    (self <- do_convolutions self ;;
     '(self, g') <- compute_deltavar self bootstrap 100 (fq 5 100) g ;;
     self <- (if ang_units
              then match ang_size self with
                   | Some a =>
                       Ok (set_lags self
                             (map (fun lag => fmul lag (value a)) (lags self)))
                   | None => Raise AttributeError
                   end
              else Ok self) ;;
     Ok (self, g'))%py.

(** ** The comparator *)

Record DeltaVariance_Distance : Type := mkDistance {
  delvar1 : DeltaVariance;
  delvar2 : DeltaVariance;
  distance : option float
}.

(** [DeltaVariance_Distance.__init__]; a dataset is a pair of the data and
    its header. *)
Definition Distance__init__ (dataset1 : array * header_t) (weights1 : array)
    (dataset2 : array * header_t) (weights2 : array)
    (diam_ratio : scalar Qc) (lags : option (numkind * list float))
    (fiducial_model : option DeltaVariance) : M DeltaVariance_Distance :=
  fun g =>
    ('(delvar1, g1) <-
       match fiducial_model with
       | Some model => Ok (model, g)
       | None =>
           d <- __init__ (fst dataset1) (snd dataset1) weights1 diam_ratio
                  lags ;;
           run d false true g
       end ;;
     d2 <- __init__ (fst dataset2) (snd dataset2) weights2 diam_ratio lags ;;
     '(delvar2, g2) <- run d2 false true g1 ;;
     Ok (mkDistance delvar1 delvar2 None, g2))%py.

(** [np.sqrt] *)
Variable np_sqrt : float -> float.

(** An element-wise operation on two 1-D arrays; an operand of length one
    is stretched, other unequal lengths raise. *)
Definition broadcast1 (f : float -> float -> float) (a b : list float)
    : result (list float) :=
  if (length a =? length b)%nat then Ok (map2 f a b)
  else if (length a =? 1)%nat then Ok (map (f (hd NaN a)) b)
  else if (length b =? 1)%nat then Ok (map (fun x => f x (hd NaN b)) a)
  else Raise ValueError.

(** [np.linalg.norm] of a 1-D array. *)
Definition linalg_norm (v : list float) : float :=
  np_sqrt (np_sum (map fsq v)).

(** [distance_metric], without the plotting of [verbose=True]. *)
Definition distance_metric (self : DeltaVariance_Distance)
    : result DeltaVariance_Distance :=
  let errors1 :=
    map (fun c => fabs (fsub (snd c) (fst c)))
        (delta_var_error (delvar1 self)) in
  let errors2 :=
    map (fun c => fabs (fsub (snd c) (fst c)))
        (delta_var_error (delvar2 self)) in
  (d <- broadcast1 fsub (map np_log10 (delta_var (delvar1 self)))
                        (map np_log10 (delta_var (delvar2 self))) ;;
   Ok (mkDistance (delvar1 self) (delvar2 self) (Some (linalg_norm d))))%py.

(** The distance as the claim words it: the L2 norm of the difference of
    the base-10 logarithms of the two curves. *)
Definition log_distance_spec (curve1 curve2 : list float) : result float :=
  (d <- broadcast1 fsub (map np_log10 curve1) (map np_log10 curve2) ;;
   Ok (linalg_norm d))%py.

End Estimator.

(** The same comparison with other error arrays stored in the two
    curves. *)
Definition with_errors (self : DeltaVariance_Distance)
    (errors1 errors2 : list (float * float)) : DeltaVariance_Distance :=
  mkDistance
    (set_delta_var (delvar1 self) (delta_var (delvar1 self)) errors1)
    (set_delta_var (delvar2 self) (delta_var (delvar2 self)) errors2)
    (distance self).

(** ** Sample inputs *)

(** A stand-in for [convolve_fft] that returns the array unchanged, as a
    convolution with a one-cell kernel does. *)
Definition convolve_identity (a : array) (k : kernel) (interpolate_nan : bool)
    : array := a.

(** A 1 x 1 image of value 5 whose only cell has weight zero, one lag of
    one pixel. *)
Definition uncovered_pixel : DeltaVariance :=
  mkDeltaVariance [[fq 5 1]] [] [[fq 0 1]] (mkScalar PyNumber (fq 3 2))
    false (Some (mkQuantity (fq 1 100) deg)) NumPyScalar [fq 1 1]
    [] [] [NaN] [(NaN, NaN)].

(** A 2 x 2 array without a zero cell. *)
Definition two_by_two : array := [[fq 1 1; fq 2 1]; [fq 3 1; fq 4 1]].

(** A generator whose every draw is 3/5. *)
Definition constant_draws : rng := mkRng (fun _ => Q2Qc (3 # 5)) 0.

(** Draws in the range of [np.random.rand]. *)
Definition uniform_draws (g : rng) : Prop :=
  forall k, (0 <= tape g k)%Qc /\ (tape g k < 1)%Qc.

(** ** Notions used in the statements *)

Definition float_le (x y : float) : Prop := float_leb x y = true.

(** The ranks [floor(n_samples * alpha / 2)] and
    [floor(n_samples * (1 - alpha / 2))]. *)
Definition lower_rank (nsamples : nat) (alpha : Qc) : Z :=
  Qfloor (qn nsamples * (alpha / Q2Qc 2))%Qc.

Definition upper_rank (nsamples : nat) (alpha : Qc) : Z :=
  Qfloor (qn nsamples * (1 - alpha / Q2Qc 2))%Qc.

(** The pair of order statistics of the sorted values at the two ranks. *)
Definition order_statistics (vals : list float) (nsamples : nat) (alpha : Qc)
    : float * float :=
  (nth (Z.to_nat (lower_rank nsamples alpha)) (np_sort vals) NaN,
   nth (Z.to_nat (upper_rank nsamples alpha)) (np_sort vals) NaN).

(** What [compute_deltavar] stores as the error pair [e] of a lag with
    convolved array [ca] and weight [cw]. *)
Definition stored_interval (bootstrap : bool) (nsamples : nat) (alpha : Qc)
    (ca cw : array) (e : float * float) : Prop :=
  if bootstrap
  then exists vals g g',
         uniform_draws g
         /\ bootstrap_loop ca cw nsamples g = Ok (vals, g')
         /\ length vals = nsamples
         /\ e = order_statistics vals nsamples alpha
  else e = (fq 0 1, fq 0 1).

(** The conditions under which the bootstrap branch is entered with
    meaningful arguments. *)
Definition bootstrap_ready (bootstrap : bool) (nsamples : nat) (alpha : Qc)
    (g : rng) : Prop :=
  bootstrap = true ->
  uniform_draws g /\ (0 < nsamples)%nat
  /\ (0 < alpha)%Qc /\ (alpha < Q2Qc 2)%Qc.

(** An estimator whose single convolved field is [two_by_two], with unit
    weights. *)
Definition one_field : DeltaVariance :=
  mkDeltaVariance two_by_two [] [[fq 1 1; fq 1 1]; [fq 1 1; fq 1 1]]
    (mkScalar PyNumber (fq 3 2)) false (Some (mkQuantity (fq 1 100) deg))
    NumPyScalar [fq 1 1]
    [two_by_two] [[[fq 1 1; fq 1 1]; [fq 1 1; fq 1 1]]]
    [NaN] [(NaN, NaN)].

(** The sum of a list of reals, in the order of [np_sum]. *)
Definition rsum (l : list R) : R := fold_left Rplus l 0%R.

(** The kernels before normalisation, cell by cell, as real functions of
    the grid point. *)
Definition core_cell (lag : R) (x y : Z) : R :=
  (4 / PI * lag
   * exp (- (IZR x * IZR x + IZR y * IZR y) / (lag / 2 * (lag / 2))))%R.

Definition annulus_cell (lag diam_ratio : R) (x y : Z) : R :=
  (4 / (PI * lag * (diam_ratio * diam_ratio - 1))
   * (exp (- (IZR x * IZR x + IZR y * IZR y)
           / (diam_ratio * lag / 2 * (diam_ratio * lag / 2)))
      - exp (- (IZR x * IZR x + IZR y * IZR y) / (lag / 2 * (lag / 2)))))%R.

(** A real function tabulated over the grid of [np.meshgrid]. *)
Definition on_grid (f : Z -> Z -> R) (x_size y_size : Z) : list (list R) :=
  map (fun y => map (fun x => f x y) (axis_grid x_size)) (axis_grid y_size).

(** A sum that is one within the tolerance of the specification. *)
Definition sums_to_one (total : xreal) : Prop :=
  exists s, total = Fin s /\ (Rabs (s - 1) <= / 10 ^ 9)%R.

(** An estimator as [__init__] leaves it: nothing convolved yet, result
    arrays of the length of the lag set. *)
Definition fresh (self : DeltaVariance) : Prop :=
  convolved_arrays self = []
  /\ convolved_weights self = []
  /\ length (delta_var self) = length (lags self)
  /\ length (delta_var_error self) = length (lags self).

(** An array whose rows all have [w] cells. *)
Definition rectangular (w : nat) (a : array) : Prop :=
  Forall (fun r => length r = w) a.

(** The array enlarged by [p] cells on every edge, every added cell zero. *)
Definition zero_border (p : nat) (a : array) : array :=
  let w := snd (shape a) in
  let zrow := repeat (Fin 0%Qc) (p + w + p) in
  repeat zrow p
  ++ map (fun r => repeat (Fin 0%Qc) p ++ r ++ repeat (Fin 0%Qc) p) a
  ++ repeat zrow p.

(** A header with one card, which is not CDELT2. *)
Definition header_without_scale : header_t := [("NAXIS"%string, fq 2 1)].

(** ** Further notions used in the statements *)

(** A table with [h] rows of [w] cells. *)
Definition has_shape {A : Type} (h w : nat) (a : list (list A)) : Prop :=
  length a = h /\ Forall (fun r => length r = w) a.

(** Every cell of a table satisfies [P]. *)
Definition all_cells {A : Type} (P : A -> Prop) (a : list (list A)) : Prop :=
  Forall (Forall P) a.

(** The array of [h] rows of [w] zeros. *)
Definition zeros (h w : nat) : array := repeat (repeat (Fin 0%Qc) w) h.

(** Whether [vector[:p0] = 0; vector[-p1:] = 0] writes cell [j] of a vector
    of length [len]. *)
Definition written_by_pad (len p0 p1 j : nat) : bool :=
  (j <? p0)%nat
  || match p1 with
     | O => true
     | S _ => (len - p1 <=? j)%nat
     end.

(** A 2 x 2 image with unit weights and a single lag of half a pixel. *)
Definition half_pixel_lag : DeltaVariance :=
  mkDeltaVariance two_by_two [] [[fq 1 1; fq 1 1]; [fq 1 1; fq 1 1]]
    (mkScalar PyNumber (fq 3 2)) false (Some (mkQuantity (fq 1 100) deg))
    NumPyScalar [fq 1 2] [] [] [NaN] [(NaN, NaN)].

(** A lag that [do_convolutions] cannot turn into a pad width. *)
Definition bad_lag (lag : float) : Prop :=
  lag = NaN \/ lag = PInf \/ lag = NInf
  \/ exists q, lag = Fin q /\ (q <= - (1))%Qc.

(** An estimator with one good lag followed by a lag of -2. *)
Definition negative_lag : DeltaVariance :=
  mkDeltaVariance two_by_two [] [[fq 1 1; fq 1 1]; [fq 1 1; fq 1 1]]
    (mkScalar PyNumber (fq 3 2)) false (Some (mkQuantity (fq 1 100) deg))
    NumPyScalar [fq 1 1; fq (-2) 1] [] [] [NaN; NaN] [(NaN, NaN); (NaN, NaN)].

(** The number of rows of all the convolved arrays of a list of pairs. *)
Definition rows_total (pairs : list (array * array)) : nat :=
  list_sum (map (fun p => length (fst p)) pairs).

(** The generator [g] after [n] more draws. *)
Definition advanced (n : nat) (g : rng) : rng :=
  mkRng (tape g) (cursor g + n).

(** The one-pixel estimator as [__init__] builds it from a lag set given by
    the caller: no angular scale is stored. *)
Definition user_lags : DeltaVariance :=
  mkDeltaVariance [[fq 5 1]] [] [[fq 0 1]] (mkScalar PyNumber (fq 3 2))
    false None NumPyScalar [fq 1 1] [] [] [NaN] [(NaN, NaN)].
(* ================================================================== *)
(** * Part II.  Properties                                             *)
(* ================================================================== *)

(** ** Arithmetic of the rational carrier *)

Lemma qn_0 : qn 0 = 0%Qc.
Proof. reflexivity. Qed.

Lemma qn_add (a b : nat) : qn (a + b) = (qn a + qn b)%Qc.
Proof.
  unfold qn, Qcplus. apply Q2Qc_eq_iff. cbn [this Q2Qc].
  rewrite !Qred_correct, Nat2Z.inj_add, inject_Z_plus. reflexivity.
Qed.

Lemma qn_pos (n : nat) : (0 < n)%nat -> (0 < qn n)%Qc.
Proof.
  intros Hn. unfold qn, Qclt. cbn [this Q2Qc]. rewrite !Qred_correct.
  change 0%Q with (inject_Z 0). rewrite <- Zlt_Qlt. lia.
Qed.

Lemma qn_sgn_pos (n : nat) : (0 < n)%nat -> (qn n ?= 0)%Qc = Gt.
Proof. intros Hn. apply Qcgt_alt. now apply qn_pos. Qed.

Lemma Qc_sgn_div_pos (s d : Qc) :
  (0 < d)%Qc -> (s / d ?= 0)%Qc = (s ?= 0)%Qc.
Proof.
  intros Hd.
  assert (Hd0 : d <> 0%Qc) by (intro E; rewrite E in Hd; now apply (Qclt_not_eq 0 0)).
  assert (Hinv : (0 < / d)%Qc).
  { destruct (Qclt_le_dec 0 (/ d)) as [h|h]; [exact h|exfalso].
    assert (h' : (/ d * d <= 0 * d)%Qc)
      by (apply Qcmult_le_compat_r; [exact h | now apply Qclt_le_weak]).
    rewrite Qcmult_inv_l, Qcmult_0_l in h' by exact Hd0.
    now apply (Qcle_not_lt _ _ h'). }
  destruct (Qc_dec s 0) as [[hs|hs]|hs].
  - rewrite (proj1 (Qclt_alt s 0) hs). apply Qclt_alt.
    unfold Qcdiv. rewrite <- (Qcmult_0_l (/ d)).
    now apply Qcmult_lt_compat_r.
  - rewrite (proj1 (Qcgt_alt s 0) hs). apply Qcgt_alt.
    unfold Qcdiv. rewrite <- (Qcmult_0_l (/ d)).
    now apply Qcmult_lt_compat_r.
  - subst s. unfold Qcdiv. rewrite Qcmult_0_l. reflexivity.
Qed.

(** ** The [_delvar] reduction *)

Lemma fadd_zero_r (x : float) : fadd x (Fin 0%Qc) = x.
Proof.
  destruct x as [a| | |]; cbn; try reflexivity.
  now rewrite Qcplus_0_r.
Qed.

Lemma fold_fadd_nan_to_zero (xs : list float) (acc : float) :
  fold_left fadd (map nan_to_zero xs) acc
  = fold_left fadd (filter not_nan xs) acc.
Proof.
  revert acc. induction xs as [|x xs IH]; intros acc; [reflexivity|].
  cbn [map filter fold_left]. unfold not_nan at 1, nan_to_zero at 2.
  destruct (is_nan x); cbn [negb fold_left].
  - rewrite fadd_zero_r. apply IH.
  - apply IH.
Qed.

Lemma nansum_sum_non_nan (a : array) : nansum a = sum_non_nan (ravel a).
Proof. unfold nansum, sum_non_nan, np_sum. apply fold_fadd_nan_to_zero. Qed.

Lemma filter_nan_split (xs : list float) :
  length xs = (length (filter is_nan xs) + length (filter not_nan xs))%nat.
Proof.
  induction xs as [|x xs IH]; [reflexivity|].
  cbn [filter length]. unfold not_nan at 1.
  destruct (is_nan x); cbn [negb length]; lia.
Qed.

(** Dividing the mean of the zero-filled data by the share of valid
    entries gives the sum over the valid entries divided by their count. *)
Lemma rescaled_mean (S : float) (k c : nat) :
  ((k + c = 0)%nat -> S = Fin 0%Qc) ->
  fdiv (fdiv S (of_nat (k + c)))
       (fsub (Fin 1%Qc) (fdiv (of_nat k) (of_nat (k + c))))
  = fdiv S (of_nat c).
Proof.
  intros Hempty. unfold of_nat.
  destruct (Nat.eq_dec (k + c) 0) as [Hz|Hnz].
  - rewrite (Hempty Hz). assert (k = 0%nat) by lia. assert (c = 0%nat) by lia.
    subst k c. reflexivity.
  - assert (HN : (0 < qn (k + c))%Qc) by (apply qn_pos; lia).
    assert (HN0 : qn (k + c) <> 0%Qc)
      by (intro E; rewrite E in HN; now apply (Qclt_not_eq 0 0)).
    assert (Hfac : fsub (Fin 1%Qc) (fdiv (Fin (qn k)) (Fin (qn (k + c))))
                   = Fin (qn c / qn (k + c))%Qc).
    { cbn. rewrite (qn_sgn_pos (k + c)) by lia. cbn. f_equal.
      rewrite qn_add. rewrite qn_add in HN0. field. exact HN0. }
    rewrite Hfac.
    destruct (Nat.eq_dec c 0) as [Hc|Hc].
    + (* every entry is NaN *)
      subst c. rewrite qn_0.
      replace (0 / qn (k + 0))%Qc with 0%Qc
        by (unfold Qcdiv; now rewrite Qcmult_0_l).
      destruct S as [s| | |]; cbn; rewrite ?(qn_sgn_pos (k + 0)) by lia;
        cbn; try reflexivity.
      rewrite Qc_sgn_div_pos by exact HN. reflexivity.
    + assert (Hcpos : (0 < qn c)%Qc) by (apply qn_pos; lia).
      assert (Hc0 : qn c <> 0%Qc)
        by (intro E; rewrite E in Hcpos; now apply (Qclt_not_eq 0 0)).
      assert (Hq : (qn c / qn (k + c) ?= 0)%Qc = Gt).
      { rewrite Qc_sgn_div_pos by exact HN. apply qn_sgn_pos. lia. }
      destruct S as [s| | |]; cbn; rewrite ?(qn_sgn_pos (k + c)) by lia;
        cbn; rewrite ?Hq, ?(qn_sgn_pos c) by lia; try reflexivity.
      f_equal. field. split; assumption.
Qed.

(** SciPy's [nanmean] is the unweighted mean of the valid entries. *)
Lemma nanmean_unweighted (a : array) : nanmean a = unweighted_mean a.
Proof.
  unfold nanmean, unweighted_mean, sum_non_nan, np_sum.
  rewrite fold_fadd_nan_to_zero, (filter_nan_split (ravel a)).
  apply rescaled_mean.
  intros Hz.
  assert (Hc : length (filter not_nan (ravel a)) = 0%nat) by lia.
  apply length_zero_iff_nil in Hc. rewrite Hc. reflexivity.
Qed.

Lemma map2_map_l {A A' B C : Type} (f : A' -> B -> C) (g : A -> A')
    (xs : list A) (ys : list B) :
  map2 f (map g xs) ys = map2 (fun x y => f (g x) y) xs ys.
Proof.
  unfold map2. revert ys.
  induction xs as [|x xs IH]; intros [|y ys]; try reflexivity.
  cbn [map combine fst snd]. f_equal. apply IH.
Qed.

Lemma amap2_amap_l {A A' B C : Type} (f : A' -> B -> C) (g : A -> A')
    (a : list (list A)) (b : list (list B)) :
  amap2 f (amap g a) b = amap2 (fun x y => f (g x) y) a b.
Proof.
  unfold amap2, amap. rewrite map2_map_l. unfold map2 at 1 3.
  apply map_ext. intros [r w]. apply map2_map_l.
Qed.

(** C1.  For every difference field and weight field, [_delvar] returns
    the sum over the non-NaN cells of [(field - m)^2 * weight] divided by
    the sum over the non-NaN cells of [weight], where [m] is the unweighted
    arithmetic mean over the non-NaN cells of the field: the weights enter
    the two sums but not the mean. *)
Theorem delvar_weighted_variance_about_unweighted_mean (field weight : array) :
  _delvar field weight = delta_variance_spec field weight.
Proof.
  unfold _delvar, delta_variance_spec.
  rewrite !nansum_sum_non_nan, nanmean_unweighted, amap2_amap_l.
  reflexivity.
Qed.

(** The two exclusions are those of [nansum], each sum dropping its own
    NaN terms: on the field [[1, NaN], [3, 5]] with unit weights the mean
    is 3, the numerator 4 + 0 + 4 and the denominator 4, the weight of the
    NaN cell included. *)
Lemma delvar_denominator_counts_every_weight :
  _delvar [[fq 1 1; NaN]; [fq 3 1; fq 5 1]]
          [[fq 1 1; fq 1 1]; [fq 1 1; fq 1 1]]
  = fq 2 1.
Proof. vm_compute. f_equal. apply Qc_is_canon. reflexivity. Qed.

(** ** The convolution stage: zero coverage *)

Lemma nth_error_map2 {A B C : Type} (f : A -> B -> C) (xs : list A)
    (ys : list B) (n : nat) (x : A) (y : B) :
  nth_error xs n = Some x -> nth_error ys n = Some y ->
  nth_error (map2 f xs ys) n = Some (f x y).
Proof.
  unfold map2. revert xs ys.
  induction n as [|n IH]; intros [|x' xs] [|y' ys] Hx Hy;
    cbn in Hx, Hy; try discriminate.
  - now inversion Hx; inversion Hy; subst.
  - cbn. now apply IH.
Qed.

Lemma cell_amap2 {A B C : Type} (f : A -> B -> C)
    (a : list (list A)) (b : list (list B)) (i j : nat) (x : A) (y : B) :
  cell a i j = Some x -> cell b i j = Some y ->
  cell (amap2 f a b) i j = Some (f x y).
Proof.
  unfold cell, amap2. intros Ha Hb.
  destruct (nth_error a i) as [r|] eqn:Er; [|discriminate].
  destruct (nth_error b i) as [r'|] eqn:Er'; [|discriminate].
  rewrite (nth_error_map2 (map2 f) a b i _ _ Er Er').
  now apply nth_error_map2.
Qed.

Lemma cell_amap {A B : Type} (f : A -> B) (a : list (list A)) (i j : nat)
    (x : A) :
  cell a i j = Some x -> cell (amap f a) i j = Some (f x).
Proof.
  unfold cell, amap. intros Ha.
  destruct (nth_error a i) as [r|] eqn:Er; [|discriminate].
  rewrite (map_nth_error (map f) i a Er).
  now apply map_nth_error.
Qed.

Lemma fdiv_nan_r {K : Type} `{Carrier K} (x : ext K) : fdiv x NaN = NaN.
Proof. now destruct x. Qed.

Lemma fsub_nan_l {K : Type} `{Carrier K} (y : ext K) : fsub NaN y = NaN.
Proof. now destruct y. Qed.

Lemma fsub_nan_r {K : Type} `{Carrier K} (x : ext K) : fsub x NaN = NaN.
Proof. now destruct x. Qed.

Lemma fmul_nan_l {K : Type} `{Carrier K} (y : ext K) : fmul NaN y = NaN.
Proof. now destruct y. Qed.

Lemma fmul_nan_r {K : Type} `{Carrier K} (x : ext K) : fmul x NaN = NaN.
Proof. now destruct x. Qed.

(** At a cell where either convolved weight is exactly zero, the weight
    used as divisor is NaN, and so are the difference field and the
    combined weight. *)
Lemma normalised_difference_zero_weight
    (img_core img_annulus weights_core weights_annulus : array)
    (i j : nat) (a b c d : float) :
  cell img_core i j = Some a -> cell img_annulus i j = Some b ->
  cell weights_core i j = Some c -> cell weights_annulus i j = Some d ->
  is_zero c || is_zero d = true ->
  let out := normalised_difference img_core img_annulus
               weights_core weights_annulus in
  (cell (zero_to_nan weights_core) i j = Some NaN
   \/ cell (zero_to_nan weights_annulus) i j = Some NaN)
  /\ cell (fst out) i j = Some NaN
  /\ cell (snd out) i j = Some NaN.
Proof.
  intros Ha Hb Hc Hd Hz out. subst out.
  unfold normalised_difference. cbn [fst snd].
  assert (Hc' : cell (zero_to_nan weights_core) i j
                = Some (if is_zero c then NaN else c))
    by (exact (cell_amap (fun w => if is_zero w then NaN else w)
                 weights_core i j c Hc)).
  assert (Hd' : cell (zero_to_nan weights_annulus) i j
                = Some (if is_zero d then NaN else d))
    by (exact (cell_amap (fun w => if is_zero w then NaN else w)
                 weights_annulus i j d Hd)).
  rewrite (cell_amap2 fsub _ _ _ _ _ _ (cell_amap2 fdiv _ _ _ _ _ _ Ha Hc')
             (cell_amap2 fdiv _ _ _ _ _ _ Hb Hd')).
  rewrite (cell_amap2 fmul _ _ _ _ _ _ Hc' Hd').
  rewrite Hc', Hd'.
  apply orb_true_iff in Hz. destruct Hz as [Hz|Hz]; rewrite Hz.
  - rewrite fdiv_nan_r, fsub_nan_l, fmul_nan_l. now repeat split; [left|..].
  - rewrite fdiv_nan_r, fsub_nan_r, fmul_nan_r. now repeat split; [right|..].
Qed.

Section ConvolutionStage.
Variable convolve_fft : array -> kernel -> bool -> array.

(** [do_convolutions] appends, lag by lag, what [convolve_lag] returns. *)
Lemma do_convolutions_loop_appends (todo : list float) :
  forall self self',
  do_convolutions_loop convolve_fft self todo = Ok self' ->
  exists outs,
    Forall2 (fun lag out => convolve_lag convolve_fft self lag = Ok out)
            todo outs
    /\ self' = set_convolved self
                 (convolved_arrays self ++ map fst outs)
                 (convolved_weights self ++ map snd outs).
Proof.
  induction todo as [|lag todo IH]; intros self self' Hrun; cbn in Hrun.
  - inversion Hrun; subst. exists []. split; [constructor|].
    cbn. rewrite !app_nil_r. now destruct self'.
  - destruct (convolve_lag convolve_fft self lag) as [[ca cw]|e] eqn:Hlag;
      cbn in Hrun; [|discriminate].
    destruct (IH _ _ Hrun) as [outs [Hall Heq]].
    exists ((ca, cw) :: outs). split.
    + constructor; [exact Hlag|].
      eapply Forall2_impl; [|exact Hall].
      intros l o Ho. exact Ho.
    + rewrite Heq. cbn. now rewrite <- !app_assoc.
Qed.

Lemma do_convolutions_loop_total (todo : list float) :
  forall self,
  Forall (fun lag => exists out, convolve_lag convolve_fft self lag = Ok out)
         todo ->
  exists self', do_convolutions_loop convolve_fft self todo = Ok self'.
Proof.
  induction todo as [|lag todo IH]; intros self Hall; cbn.
  - now exists self.
  - inversion Hall as [|? ? [[ca cw] Hlag] Hrest]; subst.
    rewrite Hlag. cbn. apply IH.
    eapply Forall_impl; [|exact Hrest].
    intros l [o Ho]. exists o. exact Ho.
Qed.

Lemma Forall2_nth_error_l {A B : Type} (P : A -> B -> Prop)
    (xs : list A) (ys : list B) (k : nat) (x : A) :
  Forall2 P xs ys -> nth_error xs k = Some x ->
  exists y, nth_error ys k = Some y /\ P x y.
Proof.
  intros HF. revert k. induction HF as [|x' y' xs ys Hxy HF IH]; intros k Hk.
  - now destruct k.
  - destruct k as [|k]; cbn in Hk.
    + inversion Hk; subst. now exists y'.
    + now apply IH.
Qed.

(** C5.  In [do_convolutions], for every lag and every cell at which a
    convolved weight field (core or annulus) is exactly zero, that weight
    is replaced by NaN before it is used as a divisor, and the difference
    field stored for the lag holds NaN, not an infinity, at the cell. *)
Theorem do_convolutions_zero_coverage_is_nan
    (self self' : DeltaVariance) (k : nat) (lag : float) :
  do_convolutions convolve_fft self = Ok self' ->
  nth_error (lags self) k = Some lag ->
  exists img_core img_annulus weights_core weights_annulus difference,
    convolved_fields convolve_fft self lag
    = Ok (img_core, img_annulus, weights_core, weights_annulus)
    /\ nth_error (convolved_arrays self')
                 (length (convolved_arrays self) + k) = Some difference
    /\ forall i j a b c d,
         cell img_core i j = Some a -> cell img_annulus i j = Some b ->
         cell weights_core i j = Some c ->
         cell weights_annulus i j = Some d ->
         is_zero c || is_zero d = true ->
         (cell (zero_to_nan weights_core) i j = Some NaN
          \/ cell (zero_to_nan weights_annulus) i j = Some NaN)
         /\ cell difference i j = Some NaN
         /\ (forall x, cell difference i j = Some x -> is_inf x = false).
Proof.
  intros Hrun Hk. unfold do_convolutions in Hrun.
  destruct (do_convolutions_loop_appends _ _ _ Hrun) as [outs [Hall Heq]].
  destruct (Forall2_nth_error_l _ _ _ k _ Hall Hk) as [[ca cw] [Hout Hlag]].
  unfold convolve_lag in Hlag.
  destruct (convolved_fields convolve_fft self lag)
    as [[[[ic ia] wc] wa]|e] eqn:Hfields; cbn in Hlag; [|discriminate].
  assert (Hpair : normalised_difference ic ia wc wa = (ca, cw))
    by congruence.
  clear Hlag.
  exists ic, ia, wc, wa, ca. split; [reflexivity|]. split.
  - rewrite Heq. cbn. rewrite nth_error_app2 by lia.
    replace (_ + k - _)%nat with k by lia.
    now rewrite (map_nth_error fst k outs Hout).
  - intros i j a b c d Ha Hb Hc Hd Hz.
    pose proof (normalised_difference_zero_weight
                  _ _ _ _ _ _ _ _ _ _ Ha Hb Hc Hd Hz) as Hcell.
    cbn zeta in Hcell. rewrite Hpair in Hcell.
    destruct Hcell as [Hdiv [Hdiff _]]. cbn [fst] in Hdiff.
    split; [exact Hdiv|]. split; [exact Hdiff|].
    intros x Hx. rewrite Hdiff in Hx. now inversion Hx.
Qed.

End ConvolutionStage.

Lemma do_convolutions_zero_coverage_witness :
  exists self' difference,
    do_convolutions convolve_identity uncovered_pixel = Ok self'
    /\ nth_error (convolved_arrays self') 0 = Some difference
    /\ cell difference 1 1 = Some NaN.
Proof.
  pose proof (do_convolutions_zero_coverage_is_nan convolve_identity
              uncovered_pixel _ 0 (fq 1 1) eq_refl eq_refl) as H.
  destruct H as (ic & ia & wc & wa & difference & Hfields & Hnth & Hcells).
  eexists. exists difference. split; [reflexivity|]. split; [exact Hnth|].
  lazy in Hfields. injection Hfields as Hic Hia Hwc Hwa.
  refine (proj1 (proj2 (Hcells 1%nat 1%nat _ _ _ _ _ _ _ _ _))).
  - rewrite <- Hic. reflexivity.
  - rewrite <- Hia. reflexivity.
  - rewrite <- Hwc. reflexivity.
  - rewrite <- Hwa. reflexivity.
  - reflexivity.
Defined.

(** ** Zero padding *)

(** With a pad width of zero the slice [vector[-0:]] is the whole vector:
    the callback overwrites every cell. *)
Lemma padwithzeros_width_zero (vector : list float) (iaxis : nat) :
  padwithzeros vector (0%nat, 0%nat) iaxis
  = repeat (Fin 0%Qc) (length vector).
Proof.
  unfold padwithzeros, assign_head, assign_tail. cbn [fst snd Nat.min repeat app skipn firstn].
  now rewrite Nat.sub_0_r.
Qed.

Lemma tabulate_nth {A : Type} (l : list A) (d : A) :
  map (fun i => nth i l d) (seq 0 (length l)) = l.
Proof.
  induction l as [|x l IH]; [reflexivity|].
  cbn [length seq map nth]. f_equal.
  rewrite <- seq_shift, map_map. exact IH.
Qed.

(** On a vector that already starts and ends with [p >= 1] zeros the
    callback changes nothing. *)
Lemma padwithzeros_fixes_padded (p : nat) (mid : list float) (iaxis : nat) :
  (1 <= p)%nat ->
  padwithzeros (repeat (Fin 0%Qc) p ++ mid ++ repeat (Fin 0%Qc) p) (p, p)
    iaxis
  = repeat (Fin 0%Qc) p ++ mid ++ repeat (Fin 0%Qc) p.
Proof.
  intros Hp. unfold padwithzeros. cbn [fst snd].
  set (z := Fin 0%Qc).
  assert (Hhead : assign_head (repeat z p ++ mid ++ repeat z p) p z
                  = repeat z p ++ mid ++ repeat z p).
  { unfold assign_head. rewrite !length_app, !repeat_length.
    rewrite Nat.min_l by lia. f_equal.
    rewrite skipn_app, repeat_length, Nat.sub_diag.
    rewrite skipn_all2 by (rewrite repeat_length; lia). reflexivity. }
  rewrite Hhead. unfold assign_tail.
  destruct p as [|p']; [lia|]. set (p := S p') in *.
  rewrite !length_app, !repeat_length.
  replace (p + (length mid + p) - p)%nat with (p + length mid)%nat by lia.
  replace (p + (length mid + p) - (p + length mid))%nat with p by lia.
  rewrite app_assoc. f_equal.
  rewrite firstn_app, length_app, repeat_length.
  replace (p + length mid - (p + length mid))%nat with 0%nat by lia.
  rewrite firstn_all2 by (rewrite length_app, repeat_length; lia).
  cbn [firstn]. now rewrite app_nil_r.
Qed.

Lemma zero_border_rows (p : nat) (a : array) (row : list float) :
  rectangular (snd (shape a)) a ->
  In row (zero_border p a) ->
  length row = (p + snd (shape a) + p)%nat
  /\ exists mid, row = repeat (Fin 0%Qc) p ++ mid ++ repeat (Fin 0%Qc) p.
Proof.
  intros Hrect Hin. unfold zero_border in Hin.
  set (w := snd (shape a)) in *.
  assert (Hz : repeat (Fin 0%Qc) (p + w + p)
               = repeat (Fin 0%Qc) p ++ repeat (Fin 0%Qc) w
                 ++ repeat (Fin 0%Qc) p)
    by (now rewrite <- !repeat_app, Nat.add_assoc).
  apply in_app_or in Hin. destruct Hin as [Hin|Hin];
    [|apply in_app_or in Hin; destruct Hin as [Hin|Hin]].
  - apply repeat_spec in Hin. subst row. split; [apply repeat_length|].
    now exists (repeat (Fin 0%Qc) w).
  - apply in_map_iff in Hin. destruct Hin as [r [<- Hr]].
    unfold rectangular in Hrect. rewrite Forall_forall in Hrect.
    split; [|now exists r].
    rewrite !length_app, !repeat_length, (Hrect r Hr). lia.
  - apply repeat_spec in Hin. subst row. split; [apply repeat_length|].
    now exists (repeat (Fin 0%Qc) w).
Qed.

Lemma zero_border_columns (p : nat) (a : array) (j : nat) :
  (j < p + snd (shape a) + p)%nat ->
  exists mid,
    column NaN j (zero_border p a)
    = repeat (Fin 0%Qc) p ++ mid ++ repeat (Fin 0%Qc) p.
Proof.
  intros Hj. unfold column, zero_border.
  rewrite !map_app, !map_repeat.
  rewrite nth_repeat_lt by exact Hj.
  eexists. reflexivity.
Qed.

Lemma zero_border_shape (p : nat) (a : array) :
  (1 <= p)%nat ->
  shape (zero_border p a)
  = ((p + length a + p)%nat, (p + snd (shape a) + p)%nat).
Proof.
  intros Hp. unfold shape at 1, zero_border.
  rewrite !length_app, !repeat_length, length_map. f_equal; [lia|].
  destruct p as [|p']; [lia|]. cbn [repeat app hd]. apply repeat_length.
Qed.

(** For a pad width of at least one, [np.pad] with [padwithzeros] returns
    the array with a border of zeros, and cropping the border gives the
    array back. *)
Lemma pad_round_trip_positive_width (p : nat) (a : array) :
  (1 <= p)%nat -> rectangular (snd (shape a)) a ->
  np_pad a (Z.of_nat p) padwithzeros = Ok (zero_border p a)
  /\ crop_spec p (zero_border p a) = a.
Proof.
  intros Hp Hrect. split.
  - unfold np_pad.
    destruct (Z.of_nat p <? 0)%Z eqn:Hneg; [apply Z.ltb_lt in Hneg; lia|].
    rewrite Nat2Z.id.
    destruct (shape a) as [h w] eqn:Hshape.
    assert (Hrect' : rectangular (snd (shape a)) a) by (now rewrite Hshape).
    change w with (snd (h, w)). rewrite <- Hshape.
    fold (zero_border p a). f_equal.
    assert (Hax0 : apply_along_axis0
                     (fun v => padwithzeros v (p, p) 0%nat) (zero_border p a)
                   = zero_border p a).
    { pose proof (zero_border_shape p a Hp) as Hs.
      assert (Hlen : length (zero_border p a) = (p + length a + p)%nat)
        by (unfold shape in Hs; now inversion Hs).
      unfold apply_along_axis0. rewrite Hs. cbv beta iota.
      transitivity (map (fun i => nth i (zero_border p a) [])
                        (seq 0 (p + length a + p))).
      - apply map_ext_in. intros i Hi. apply in_seq in Hi.
        assert (Hrow : In (nth i (zero_border p a) []) (zero_border p a))
          by (apply nth_In; lia).
        destruct (zero_border_rows p a _ Hrect' Hrow) as [Hrl _].
        rewrite map_map.
        transitivity (map (fun j => nth j (nth i (zero_border p a) []) NaN)
                          (seq 0 (p + snd (shape a) + p))).
        + apply map_ext_in. intros j Hj. apply in_seq in Hj.
          destruct (zero_border_columns p a j ltac:(lia)) as [mid Hcol].
          rewrite Hcol, padwithzeros_fixes_padded, <- Hcol by exact Hp.
          unfold column.
          rewrite (nth_indep _ NaN (nth j [] NaN))
            by (rewrite length_map; lia).
          apply (map_nth (fun r : list float => nth j r NaN)).
        + rewrite <- Hrl. apply tabulate_nth.
      - rewrite <- Hlen. apply tabulate_nth. }
    rewrite Hax0. unfold apply_along_axis1.
    rewrite <- (map_id (zero_border p a)) at 2.
    apply map_ext_in. intros row Hrow.
    destruct (zero_border_rows p a row Hrect' Hrow) as [_ [mid ->]].
    now apply padwithzeros_fixes_padded.
  - unfold crop_spec, zero_border.
    rewrite !length_app, !repeat_length, length_map.
    rewrite skipn_app, repeat_length, Nat.sub_diag.
    rewrite skipn_all2 by (rewrite repeat_length; lia).
    cbn [skipn app].
    replace (p + (length a + p) - 2 * p)%nat with (length a + 0)%nat by lia.
    rewrite <- (length_map
                  (fun r => repeat (Fin 0%Qc) p ++ r ++ repeat (Fin 0%Qc) p)
                  a) at 1.
    rewrite firstn_app_2. cbn [firstn]. rewrite app_nil_r, map_map.
    rewrite <- (map_id a) at 2. apply map_ext. intros r.
    rewrite !length_app, !repeat_length.
    rewrite skipn_app, repeat_length, Nat.sub_diag.
    rewrite skipn_all2 by (rewrite repeat_length; lia).
    cbn [skipn app].
    replace (p + (length r + p) - 2 * p)%nat with (length r + 0)%nat by lia.
    rewrite firstn_app_2. cbn [firstn]. now rewrite app_nil_r.
Qed.

(** C7, at pad width 0.  Padding the 2 x 2 array [[1, 2], [3, 4]] by zero
    cells returns an array of the same shape whose four cells are zero, so
    cropping zero cells from it does not give the array back. *)
Theorem pad_width_zero_erases_the_array :
  np_pad two_by_two 0 padwithzeros
  = Ok [[fq 0 1; fq 0 1]; [fq 0 1; fq 0 1]]
  /\ crop_spec 0 [[fq 0 1; fq 0 1]; [fq 0 1; fq 0 1]] <> two_by_two.
Proof.
  split.
  - reflexivity.
  - intros E.
    apply (f_equal (fun a : array => match cell a 0 0 with
                                     | Some (Fin q) => Qnum (this q)
                                     | _ => 0%Z
                                     end)) in E.
    vm_compute in E. discriminate E.
Qed.

(** ** Construction *)

Section Construction.
Variable np_log10 : float -> float.
Variable np_logspace : float -> float -> nat -> list float.
Variable uninit : float.

(** A missing card is a KeyError, which the handler for ValueError does
    not catch: the fallback to pixel units is never reached this way. *)
Lemma init_missing_card_propagates (img : array) (header : header_t)
    (weights : array) (diam_ratio : scalar Qc) :
  header_getitem header "CDELT2" = Raise KeyError ->
  __init__ np_log10 np_logspace uninit img header weights diam_ratio None
  = Raise KeyError.
Proof. intros Hmiss. unfold __init__. now rewrite Hmiss. Qed.

Lemma header_getitem_missing (h : header_t) (key : string) :
  (forall v, ~ In (key, v) h) -> header_getitem h key = Raise KeyError.
Proof.
  induction h as [|[k v] h IH]; intros Hmiss; [reflexivity|].
  cbn [header_getitem]. destruct (String.eqb k key) eqn:Hk.
  - apply String.eqb_eq in Hk. subst k. exfalso. apply (Hmiss v). now left.
  - apply IH. intros v' Hin. apply (Hmiss v'). now right.
Qed.

(** C8, on a header without CDELT2.  With no lags supplied, constructing
    the estimator from a header that has no CDELT2 card raises KeyError:
    no fallback scale is set and no lags are generated. *)
Theorem init_without_cdelt2_raises_KeyError (img : array) (header : header_t)
    (weights : array) (diam_ratio : scalar Qc) :
  (forall v, ~ In ("CDELT2"%string, v) header) ->
  __init__ np_log10 np_logspace uninit img header weights diam_ratio None
  = Raise KeyError.
Proof.
  intros Hmiss. apply init_missing_card_propagates.
  now apply header_getitem_missing.
Qed.

(** With the card present the constructor does generate 25-point
    log-spaced lags in degrees. *)
Lemma init_with_cdelt2 (img weights : array) (diam_ratio : scalar Qc)
    (cdelt2 : float) :
  exists self,
    __init__ np_log10 np_logspace uninit img [("CDELT2"%string, cdelt2)]
      weights diam_ratio None = Ok self
    /\ ang_size self = Some (mkQuantity cdelt2 deg)
    /\ exists min_size stop, lags self = np_logspace min_size stop 25.
Proof.
  unfold __init__. cbn [header_getitem String.eqb Ascii.eqb Bool.eqb].
  cbn. eexists. split; [reflexivity|]. cbn. split; [reflexivity|].
  eexists. eexists. reflexivity.
Qed.

End Construction.

Lemma init_without_cdelt2_witness :
  __init__ (fun x => x) (fun start stop num => repeat start num) NaN
    two_by_two header_without_scale two_by_two
    (mkScalar PyNumber (fq 3 2)) None
  = Raise KeyError.
Proof.
  apply init_without_cdelt2_raises_KeyError.
  intros v [Hin|[]]. discriminate Hin.
Defined.

(** ** The comparator *)

Section Comparator.
Variable np_log10 : float -> float.
Variable np_sqrt : float -> float.

(** The stored distance depends on the two value columns only. *)
Lemma distance_metric_depends_on_values (s t : DeltaVariance_Distance) :
  delta_var (delvar1 s) = delta_var (delvar1 t) ->
  delta_var (delvar2 s) = delta_var (delvar2 t) ->
  result_map distance (distance_metric np_log10 np_sqrt s)
  = result_map distance (distance_metric np_log10 np_sqrt t).
Proof.
  intros H1 H2. unfold distance_metric. rewrite H1, H2.
  now destruct (broadcast1 _ _ _).
Qed.

(** C9.  The distance stored by [distance_metric] is the L2 norm of
    [log10(delta_var of curve 1) - log10(delta_var of curve 2)], without
    weights; replacing the bootstrap error arrays of the two curves by any
    others leaves the outcome unchanged. *)
Theorem distance_metric_ignores_error_arrays (self : DeltaVariance_Distance)
    (errors1 errors2 : list (float * float)) :
  result_map distance (distance_metric np_log10 np_sqrt self)
  = result_map Some
      (log_distance_spec np_log10 np_sqrt
         (delta_var (delvar1 self)) (delta_var (delvar2 self)))
  /\ result_map distance
       (distance_metric np_log10 np_sqrt (with_errors self errors1 errors2))
     = result_map distance (distance_metric np_log10 np_sqrt self).
Proof.
  split.
  - unfold distance_metric, log_distance_spec.
    now destruct (broadcast1 _ _ _).
  - now apply distance_metric_depends_on_values.
Qed.

End Comparator.

(** ** Bootstrap resampling *)

Lemma np_getitem_in_range {A : Type} (xs : list A) (k : Z) (d : A) :
  (0 <= k < Z.of_nat (length xs))%Z ->
  np_getitem xs k = Ok (nth (Z.to_nat k) xs d).
Proof.
  intros [Hlo Hhi]. unfold np_getitem.
  destruct (k <? 0)%Z eqn:Hneg; [apply Z.ltb_lt in Hneg; lia|].
  replace ((0 <=? k)%Z && (k <? Z.of_nat (length xs))%Z) with true
    by (symmetry; apply andb_true_iff; split;
        [apply Z.leb_le | apply Z.ltb_lt]; lia).
  rewrite (nth_error_nth' xs d) by lia. reflexivity.
Qed.

Lemma np_take_in_range {A : Type} (X : list A) (idx : list Z) (d : A) :
  Forall (fun k => (0 <= k < Z.of_nat (length X))%Z) idx ->
  np_take X idx = Ok (map (fun k => nth (Z.to_nat k) X d) idx).
Proof.
  induction 1 as [|k idx Hk _ IH]; [reflexivity|].
  cbn [np_take map]. rewrite (np_getitem_in_range X k d Hk). cbn.
  now rewrite IH.
Qed.

(** [floor(u * n)] is an index of an array of length [n] for a draw [u]
    of the unit interval. *)
Lemma floor_index_in_range (u : Qc) (n : nat) :
  (0 <= u)%Qc -> (u < 1)%Qc -> (0 < n)%nat ->
  (0 <= Qfloor (u * qn n)%Qc < Z.of_nat n)%Z.
Proof.
  intros Hlo Hhi Hn.
  assert (Hx : (this (u * qn n)%Qc == u * inject_Z (Z.of_nat n))%Q).
  { unfold Qcmult, qn. cbn [this Q2Qc]. now rewrite !Qred_correct. }
  assert (Hnpos : (0 < inject_Z (Z.of_nat n))%Q)
    by (change 0%Q with (inject_Z 0); rewrite <- Zlt_Qlt; lia).
  unfold Qcle, Qclt in Hlo, Hhi. cbn [this Q2Qc] in Hlo, Hhi.
  split.
  - change 0%Z with (Qfloor 0). apply Qfloor_resp_le. rewrite Hx.
    apply Qmult_le_0_compat; [exact Hlo | now apply Qlt_le_weak].
  - rewrite Zlt_Qlt.
    apply Qle_lt_trans with (y := this (u * qn n)%Qc); [apply Qfloor_le|].
    rewrite Hx.
    setoid_replace (inject_Z (Z.of_nat n))
      with (1 * inject_Z (Z.of_nat n))%Q at 2 by ring.
    apply Qmult_lt_compat_r; assumption.
Qed.

Lemma random_rand_uniform (n : nat) (g : rng) :
  uniform_draws g ->
  Forall (fun u => (0 <= u)%Qc /\ (u < 1)%Qc) (fst (random_rand n g))
  /\ length (fst (random_rand n g)) = n
  /\ uniform_draws (snd (random_rand n g)).
Proof.
  intros Hg. unfold random_rand. cbn [fst snd]. split; [|split].
  - apply Forall_forall. intros u Hu. apply in_map_iff in Hu.
    destruct Hu as [k [<- _]]. apply Hg.
  - now rewrite length_map, length_seq.
  - exact Hg.
Qed.

(** With draws of the unit interval the resampling never raises: it
    returns, for each of [len(X)] draws [u], the entry of [X] along its
    first axis at index [floor(u * len(X))]. *)
Lemma bootstrap_resample_rows {A : Type} (X : list A) (d : A) (g : rng) :
  uniform_draws g ->
  bootstrap_resample X None g
  = Ok (map (fun u => nth (Z.to_nat (Qfloor (u * qn (length X))%Qc)) X d)
            (fst (random_rand (length X) g)),
        snd (random_rand (length X) g)).
Proof.
  intros Hg. unfold bootstrap_resample.
  destruct (random_rand_uniform (length X) g Hg) as [Hu _].
  destruct (random_rand (length X) g) as [u g'] eqn:Hr. cbn [fst snd] in *.
  rewrite (np_take_in_range X _ d).
  - cbn. now rewrite map_map.
  - apply Forall_forall. intros k Hk. apply in_map_iff in Hk.
    destruct Hk as [v [<- Hv]].
    rewrite Forall_forall in Hu. destruct (Hu v Hv) as [Hlo Hhi].
    apply floor_index_in_range; try assumption.
    destruct X; [|cbn; lia].
    cbn in Hr. inversion Hr; subst. destruct Hv.
Qed.

(** C2, as the code has it.  In each bootstrap iteration the resample is
    drawn along the first axis of the 2-D difference field: as many
    indices as the field has rows are sampled with replacement, index
    [floor(u * rows)] for each uniform draw [u]; every row of the resample
    is a whole row of the field and the resample has as many rows as the
    field; the delta-variance of the resample is computed against the
    original weight field. *)
Theorem bootstrap_resamples_whole_rows
    (convolved_array convolved_weight : array) (nsamples : nat) (g : rng) :
  uniform_draws g ->
  exists resample g1,
    bootstrap_resample convolved_array None g = Ok (resample, g1)
    /\ resample
       = map (fun u => nth (Z.to_nat
                              (Qfloor (u * qn (length convolved_array))%Qc))
                           convolved_array [])
             (map (tape g) (seq (cursor g) (length convolved_array)))
    /\ length resample = length convolved_array
    /\ Forall (fun row => In row convolved_array) resample
    /\ cursor g1 = (cursor g + length convolved_array)%nat
    /\ uniform_draws g1
    /\ bootstrap_loop convolved_array convolved_weight (S nsamples) g
       = ('(rest, g2) <-
            bootstrap_loop convolved_array convolved_weight nsamples g1 ;;
          Ok (_delvar resample convolved_weight :: rest, g2))%py.
Proof.
  intros Hg.
  pose proof (bootstrap_resample_rows convolved_array [] g Hg) as Hres.
  destruct (random_rand_uniform (length convolved_array) g Hg)
    as [Hu [Hlen Hg1]].
  eexists. eexists. split; [exact Hres|]. split; [reflexivity|].
  split; [now rewrite length_map|]. split; [|split; [reflexivity|split]].
  - apply Forall_forall. intros row Hrow. apply in_map_iff in Hrow.
    destruct Hrow as [u [<- Hin]]. apply nth_In.
    rewrite Forall_forall in Hu. destruct (Hu u Hin) as [Hlo Hhi].
    assert (Hpos : (0 < length convolved_array)%nat).
    { destruct convolved_array; [destruct Hin | cbn; lia]. }
    pose proof (floor_index_in_range u (length convolved_array) Hlo Hhi Hpos).
    lia.
  - exact Hg1.
  - cbn [bootstrap_loop]. rewrite Hres. reflexivity.
Qed.

Lemma bootstrap_resamples_whole_rows_witness :
  exists resample g1,
    bootstrap_resample two_by_two None constant_draws = Ok (resample, g1)
    /\ Forall (fun row => In row two_by_two) resample
    /\ cursor g1 = 2%nat.
Proof.
  assert (Hg : uniform_draws constant_draws).
  { intros k. split; now vm_compute. }
  destruct (bootstrap_resamples_whole_rows two_by_two two_by_two 0
              constant_draws Hg)
    as (resample & g1 & Hres & _ & _ & Hrows & Hcur & _).
  exists resample, g1. split; [exact Hres|]. split; [exact Hrows|exact Hcur].
Defined.

(** C2, as stated, fails.  With every draw equal to 3/5 the code resamples
    [[1, 2], [3, 4]] to [[3, 4], [3, 4]] from two draws, whereas sampling
    the flattened population of four cells gives [3, 3, 3, 3] from four
    draws. *)
Lemma bootstrap_resample_is_not_flat :
  result_map (fun r => (ravel (fst r), cursor (snd r)))
    (bootstrap_resample two_by_two None constant_draws)
  = Ok ([fq 3 1; fq 4 1; fq 3 1; fq 4 1], 2%nat)
  /\ result_map (fun r => (fst r, cursor (snd r)))
       (flat_resample_spec two_by_two constant_draws)
     = Ok ([fq 3 1; fq 3 1; fq 3 1; fq 3 1], 4%nat)
  /\ result_map (fun r => ravel (fst r))
       (bootstrap_resample two_by_two None constant_draws)
     <> result_map fst (flat_resample_spec two_by_two constant_draws).
Proof.
  split; [reflexivity|]. split; [reflexivity|].
  intros E.
  apply (f_equal (fun r : result (list float) =>
                    match r with
                    | Ok (_ :: Fin q :: _) => Qnum (this q)
                    | _ => 0%Z
                    end)) in E.
  vm_compute in E. discriminate E.
Qed.

(** ** Sorting *)

Lemma float_leb_total (x y : float) :
  float_leb x y = false -> float_leb y x = true.
Proof.
  destruct x as [a| | |], y as [b| | |]; cbn; try congruence.
  unfold Qccompare. rewrite <- (Qcompare_antisym a b).
  now destruct (a ?= b)%Q.
Qed.

Lemma insert_sorted_perm (x : float) (xs : list float) :
  Permutation (x :: xs) (insert_sorted x xs).
Proof.
  induction xs as [|y ys IH]; cbn; [reflexivity|].
  destruct (float_leb x y); [reflexivity|].
  rewrite perm_swap. now constructor.
Qed.

Lemma np_sort_perm (xs : list float) : Permutation xs (np_sort xs).
Proof.
  induction xs as [|x xs IH]; cbn; [constructor|].
  rewrite <- insert_sorted_perm. now constructor.
Qed.

Lemma np_sort_length (xs : list float) : length (np_sort xs) = length xs.
Proof. symmetry. apply Permutation_length, np_sort_perm. Qed.

Lemma insert_sorted_sorted (x : float) (xs : list float) :
  Sorted float_le xs -> Sorted float_le (insert_sorted x xs).
Proof.
  induction 1 as [|y ys Hys IH Hhd]; cbn; [repeat constructor|].
  destruct (float_leb x y) eqn:Hxy.
  - repeat constructor; assumption.
  - constructor; [exact IH|].
    apply float_leb_total in Hxy.
    destruct ys as [|z zs]; cbn; [now constructor|].
    destruct (float_leb x z); constructor; [exact Hxy|].
    now inversion Hhd.
Qed.

(** [np.sort] returns its argument in ascending order, NaN last. *)
Lemma np_sort_sorted (xs : list float) : Sorted float_le (np_sort xs).
Proof.
  induction xs as [|x xs IH]; cbn; [constructor|].
  now apply insert_sorted_sorted.
Qed.

(** ** The confidence interval *)

Lemma np_setitem_ok {A : Type} (xs : list A) (i : nat) (v : A) :
  (i < length xs)%nat ->
  exists xs',
    np_setitem xs i v = Ok xs'
    /\ length xs' = length xs
    /\ nth_error xs' i = Some v
    /\ forall j, j <> i -> nth_error xs' j = nth_error xs j.
Proof.
  intros Hi. unfold np_setitem.
  destruct (i <? length xs)%nat eqn:Hlt; [|apply Nat.ltb_ge in Hlt; lia].
  eexists. split; [reflexivity|].
  assert (Hfl : length (firstn i xs) = i) by (rewrite length_firstn; lia).
  split; [|split].
  - rewrite length_app, Hfl. cbn [length]. rewrite length_skipn. lia.
  - rewrite nth_error_app2 by lia. now rewrite Hfl, Nat.sub_diag.
  - intros j Hj. destruct (Nat.lt_ge_cases j i) as [Hlo|Hhi].
    + rewrite nth_error_app1 by lia. rewrite nth_error_firstn.
      now replace (j <? i)%nat with true by (symmetry; apply Nat.ltb_lt; lia).
    + rewrite nth_error_app2 by lia. rewrite Hfl.
      destruct (j - i)%nat as [|m] eqn:Hm; [lia|]. cbn [nth_error].
      rewrite nth_error_skipn. f_equal. lia.
Qed.

Lemma np_setitem_out_of_range {A : Type} (xs : list A) (i : nat) (v : A) :
  (length xs <= i)%nat -> np_setitem xs i v = Raise IndexError.
Proof.
  intros Hi. unfold np_setitem.
  destruct (i <? length xs)%nat eqn:Hlt; [apply Nat.ltb_lt in Hlt; lia|].
  reflexivity.
Qed.

Lemma py_int_floor (q : Qc) :
  (0 <= q)%Qc -> py_int (Fin q) = Ok (Qfloor q).
Proof.
  intros Hq. unfold py_int, Qfloor. destruct q as [[n d] Hc]. cbn in *.
  f_equal. apply Z.quot_div_nonneg; [|lia].
  unfold Qcle, Qle in Hq. cbn in Hq. lia.
Qed.

Lemma half_alpha_bounds (alpha : Qc) :
  (0 < alpha)%Qc -> (alpha < Q2Qc 2)%Qc ->
  ((0 <= alpha / Q2Qc 2)%Qc /\ (alpha / Q2Qc 2 < 1)%Qc)
  /\ ((0 <= 1 - alpha / Q2Qc 2)%Qc /\ (1 - alpha / Q2Qc 2 < 1)%Qc).
Proof.
  intros Hlo Hhi. unfold Qcle, Qclt in *.
  unfold Qcminus, Qcplus, Qcopp, Qcdiv, Qcmult, Qcinv in *.
  cbn [this Q2Qc] in *. rewrite ?Qred_correct in *.
  assert (Hhalf : (this alpha * / 2 == this alpha / 2)%Q) by reflexivity.
  assert (H2 : (Qred 2 == 2)%Q) by apply Qred_correct.
  assert (H1 : (Qred 1 == 1)%Q) by apply Qred_correct.
  assert (H0 : (Qred 0 == 0)%Q) by apply Qred_correct.
  rewrite ?H0, ?H1, ?H2 in *.
  assert (Ha : (0 < this alpha / 2)%Q).
  { apply Qlt_shift_div_l; [reflexivity|]. now rewrite Qmult_0_l. }
  assert (Hb : (this alpha / 2 < 1)%Q).
  { apply Qlt_shift_div_r; [reflexivity|]. now rewrite Qmult_1_l. }
  rewrite !Hhalf.
  repeat split.
  - now apply Qlt_le_weak.
  - exact Hb.
  - apply Qlt_le_weak. rewrite <- (Qplus_opp_r (this alpha / 2)).
    apply Qplus_lt_l. exact Hb.
  - rewrite <- (Qplus_0_r 1) at 2. apply Qplus_lt_r.
    rewrite <- (Qplus_lt_l _ _ (this alpha / 2)).
    rewrite Qplus_0_l, Qplus_comm, Qplus_opp_r. exact Ha.
Qed.

Lemma ranks_in_range (nsamples : nat) (alpha : Qc) :
  (0 < nsamples)%nat -> (0 < alpha)%Qc -> (alpha < Q2Qc 2)%Qc ->
  (0 <= lower_rank nsamples alpha < Z.of_nat nsamples)%Z
  /\ (0 <= upper_rank nsamples alpha < Z.of_nat nsamples)%Z.
Proof.
  intros Hn Hlo Hhi. unfold lower_rank, upper_rank.
  destruct (half_alpha_bounds alpha Hlo Hhi) as [[Ha Hb] [Hc Hd]].
  rewrite (Qcmult_comm (qn nsamples) (alpha / Q2Qc 2)).
  rewrite (Qcmult_comm (qn nsamples) (1 - alpha / Q2Qc 2)).
  split; now apply floor_index_in_range.
Qed.

(** The two index expressions of the source,
    [int((alpha/2.0)*nsamples)] and [int((1-alpha/2.0)*nsamples)]. *)
Lemma rank_expressions (nsamples : nat) (alpha : Qc) :
  (0 < alpha)%Qc -> (alpha < Q2Qc 2)%Qc ->
  py_int (fmul (fdiv (Fin alpha) (fq 2 1)) (of_nat nsamples))
  = Ok (lower_rank nsamples alpha)
  /\ py_int (fmul (fsub (fq 1 1) (fdiv (Fin alpha) (fq 2 1)))
                  (of_nat nsamples))
     = Ok (upper_rank nsamples alpha).
Proof.
  intros Hlo Hhi.
  destruct (half_alpha_bounds alpha Hlo Hhi) as [[Ha Hb] [Hc Hd]].
  assert (Hdiv : fdiv (Fin alpha) (fq 2 1) = Fin (alpha / Q2Qc 2)%Qc)
    by reflexivity.
  assert (Hn : (0 <= qn nsamples)%Qc).
  { destruct nsamples; [now vm_compute|].
    apply Qclt_le_weak, qn_pos. lia. }
  rewrite Hdiv. unfold lower_rank, upper_rank, of_nat, fq. cbn [fmul fsub fadd fneg].
  change (kmul ?a ?b) with (a * b)%Qc.
  change (kadd ?a (kopp ?b)) with (a - b)%Qc.
  rewrite (Qcmult_comm (qn nsamples) (alpha / Q2Qc 2)).
  rewrite (Qcmult_comm (qn nsamples) (1 - alpha / Q2Qc 2)).
  split; apply py_int_floor.
  - rewrite <- (Qcmult_0_l (qn nsamples)). now apply Qcmult_le_compat_r.
  - rewrite <- (Qcmult_0_l (qn nsamples)). now apply Qcmult_le_compat_r.
Qed.

(** The bootstrap loop returns: [nsamples] values, each the delta-variance
    of one resample against the given weight field. *)
Lemma bootstrap_loop_total (convolved_array convolved_weight : array)
    (nsamples : nat) :
  forall g, uniform_draws g ->
  exists vals g',
    bootstrap_loop convolved_array convolved_weight nsamples g
    = Ok (vals, g')
    /\ length vals = nsamples
    /\ uniform_draws g'.
Proof.
  induction nsamples as [|n IH]; intros g Hg.
  - exists [], g. split; [reflexivity|]. split; [reflexivity|exact Hg].
  - pose proof (bootstrap_resample_rows convolved_array [] g Hg) as Hres.
    destruct (random_rand_uniform (length convolved_array) g Hg)
      as (_ & _ & Hg1).
    destruct (IH _ Hg1) as (rest & g2 & Hrest & Hlen & Hg2).
    eexists. exists g2. cbn [bootstrap_loop].
    rewrite Hres. cbn [rbind]. rewrite Hrest. cbn [rbind].
    split; [reflexivity|]. split; [cbn [length]; now rewrite Hlen|exact Hg2].
Qed.

(** The bootstrap branch of [compute_deltavar]: the error pair is the pair
    of entries of the sorted bootstrap values at the two ranks. *)
Lemma bootstrap_error_order_statistics
    (convolved_array convolved_weight : array) (nsamples : nat) (alpha : Qc)
    (g : rng) :
  uniform_draws g -> (0 < nsamples)%nat ->
  (0 < alpha)%Qc -> (alpha < Q2Qc 2)%Qc ->
  exists vals g',
    bootstrap_loop convolved_array convolved_weight nsamples g
    = Ok (vals, g')
    /\ length vals = nsamples
    /\ uniform_draws g'
    /\ bootstrap_error convolved_array convolved_weight nsamples
         (Fin alpha) g
       = Ok ((nth (Z.to_nat (lower_rank nsamples alpha)) (np_sort vals) NaN,
              nth (Z.to_nat (upper_rank nsamples alpha)) (np_sort vals) NaN),
             g').
Proof.
  intros Hg Hn Hlo Hhi.
  destruct (bootstrap_loop_total convolved_array convolved_weight nsamples
              g Hg) as (vals & g' & Hloop & Hlen & Hg').
  exists vals, g'. split; [exact Hloop|]. split; [exact Hlen|].
  split; [exact Hg'|].
  unfold bootstrap_error. rewrite Hloop. cbn [rbind].
  destruct (rank_expressions nsamples alpha Hlo Hhi) as [Hl Hu].
  destruct (ranks_in_range nsamples alpha Hn Hlo Hhi) as [Hlr Hur].
  rewrite Hl. cbn [rbind].
  rewrite (np_getitem_in_range (np_sort vals) _ NaN)
    by (rewrite np_sort_length, Hlen; exact Hlr).
  cbn [rbind]. rewrite Hu. cbn [rbind].
  rewrite (np_getitem_in_range (np_sort vals) _ NaN)
    by (rewrite np_sort_length, Hlen; exact Hur).
  reflexivity.
Qed.

Lemma np_getitem_past_end {A : Type} (xs : list A) (k : Z) :
  (Z.of_nat (length xs) <= k)%Z -> np_getitem xs k = Raise IndexError.
Proof.
  intros Hk. unfold np_getitem.
  destruct (k <? 0)%Z eqn:Hneg; [apply Z.ltb_lt in Hneg; lia|].
  replace (k <? Z.of_nat (length xs))%Z with false
    by (symmetry; apply Z.ltb_ge; lia).
  now rewrite andb_false_r.
Qed.

Lemma np_getitem_outcome {A : Type} (xs : list A) (k : Z) :
  (exists x, np_getitem xs k = Ok x) \/ np_getitem xs k = Raise IndexError.
Proof.
  unfold np_getitem. destruct (_ && _); [|now right].
  destruct (nth_error xs _) as [x|]; [left; now exists x | now right].
Qed.

Lemma scaled_rank_past_end (u : Qc) (n : nat) :
  (1 <= u)%Qc ->
  exists k, py_int (Fin (u * qn n)%Qc) = Ok k /\ (Z.of_nat n <= k)%Z.
Proof.
  intros Hu.
  assert (Hn : (0 <= qn n)%Qc).
  { destruct n; [now vm_compute|]. apply Qclt_le_weak, qn_pos. lia. }
  assert (Hle : (qn n <= u * qn n)%Qc).
  { rewrite <- (Qcmult_1_l (qn n)) at 1. now apply Qcmult_le_compat_r. }
  exists (Qfloor (u * qn n)%Qc). split.
  - apply py_int_floor. now apply Qcle_trans with (y := qn n).
  - rewrite <- (Qfloor_Z (Z.of_nat n)). apply Qfloor_resp_le.
    unfold Qcle in Hle. unfold qn in Hle at 1. cbn [this Q2Qc] in Hle.
    now rewrite Qred_correct in Hle.
Qed.

Lemma half_alpha_outside (alpha : Qc) :
  ((alpha <= 0)%Qc -> (1 <= 1 - alpha / Q2Qc 2)%Qc)
  /\ ((Q2Qc 2 <= alpha)%Qc -> (1 <= alpha / Q2Qc 2)%Qc).
Proof.
  unfold Qcle, Qcminus, Qcplus, Qcopp, Qcdiv, Qcmult, Qcinv.
  cbn [this Q2Qc]. rewrite ?Qred_correct.
  assert (H2 : (Qred 2 == 2)%Q) by apply Qred_correct.
  assert (H1 : (Qred 1 == 1)%Q) by apply Qred_correct.
  assert (H0 : (Qred 0 == 0)%Q) by apply Qred_correct.
  rewrite ?H0, ?H1, ?H2.
  assert (Hhalf : (this alpha * / 2 == this alpha / 2)%Q) by reflexivity.
  rewrite !Hhalf. split; intros Ha.
  - assert (Hb : (this alpha / 2 <= 0)%Q).
    { apply Qle_shift_div_r; [reflexivity|]. now rewrite Qmult_0_l. }
    rewrite <- (Qplus_0_r 1) at 1. apply Qplus_le_r.
    rewrite <- (Qplus_le_l _ _ (this alpha / 2)).
    now rewrite Qplus_0_l, Qplus_comm, Qplus_opp_r.
  - apply Qle_shift_div_l; [reflexivity|]. now rewrite Qmult_1_l.
Qed.

(** Outside [0 < alpha < 2] one of the two indices is past the end of the
    sorted values and the bootstrap branch raises IndexError: no interval
    is stored. *)
Lemma bootstrap_error_outside_range
    (convolved_array convolved_weight : array) (nsamples : nat) (alpha : Qc)
    (g : rng) :
  uniform_draws g ->
  (alpha <= 0)%Qc \/ (Q2Qc 2 <= alpha)%Qc ->
  bootstrap_error convolved_array convolved_weight nsamples (Fin alpha) g
  = Raise IndexError.
Proof.
  intros Hg Hout.
  destruct (bootstrap_loop_total convolved_array convolved_weight nsamples
              g Hg) as (vals & g' & Hloop & Hlen & _).
  unfold bootstrap_error. rewrite Hloop. cbn [rbind].
  assert (Hdiv : fdiv (Fin alpha) (fq 2 1) = Fin (alpha / Q2Qc 2)%Qc)
    by reflexivity.
  rewrite Hdiv. unfold of_nat, fq. cbn [fmul fsub fadd fneg].
  change (kmul ?a ?b) with (a * b)%Qc.
  change (kadd ?a (kopp ?b)) with (a - b)%Qc.
  destruct (half_alpha_outside alpha) as [Hlow Hhigh].
  destruct Hout as [Hneg|Hbig].
  - destruct (scaled_rank_past_end _ nsamples (Hlow Hneg)) as (k & Hk & Hkn).
    destruct (py_int (Fin (alpha / Q2Qc 2 * qn nsamples)%Qc)) as [lo|e] eqn:Hlo.
    + cbn [rbind].
      destruct (np_getitem_outcome (np_sort vals) lo) as [[x Hx]|Hx];
        rewrite Hx; cbn [rbind]; [|reflexivity].
      rewrite Hk. cbn [rbind].
      now rewrite np_getitem_past_end by (rewrite np_sort_length; lia).
    + cbn in Hlo. discriminate Hlo.
  - destruct (scaled_rank_past_end _ nsamples (Hhigh Hbig)) as (k & Hk & Hkn).
    rewrite Hk. cbn [rbind].
    now rewrite np_getitem_past_end by (rewrite np_sort_length; lia).
Qed.

Lemma compute_deltavar_step_spec (self : DeltaVariance) (i : nat)
    (ca cw : array) (bootstrap : bool) (nsamples : nat) (alpha : Qc)
    (g : rng) :
  bootstrap_ready bootstrap nsamples alpha g ->
  (i < length (delta_var self))%nat ->
  length (delta_var_error self) = length (delta_var self) ->
  exists dv dve e g',
    compute_deltavar_step self i ca cw bootstrap nsamples (Fin alpha) g
    = Ok (set_delta_var self dv dve, g')
    /\ bootstrap_ready bootstrap nsamples alpha g'
    /\ stored_interval bootstrap nsamples alpha ca cw e
    /\ length dv = length (delta_var self)
    /\ length dve = length (delta_var_error self)
    /\ nth_error dv i = Some (_delvar ca cw)
    /\ nth_error dve i = Some e
    /\ (forall j, j <> i ->
          nth_error dv j = nth_error (delta_var self) j
          /\ nth_error dve j = nth_error (delta_var_error self) j).
Proof.
  intros Hready Hi Hlen. unfold compute_deltavar_step.
  assert (Herr : exists e g',
             (if bootstrap
              then bootstrap_error ca cw nsamples (Fin alpha) g
              else Ok ((fq 0 1, fq 0 1), g)) = Ok (e, g')
             /\ bootstrap_ready bootstrap nsamples alpha g'
             /\ stored_interval bootstrap nsamples alpha ca cw e).
  { destruct bootstrap.
    - destruct (Hready eq_refl) as (Hg & Hn & Hlo & Hhi).
      destruct (bootstrap_error_order_statistics ca cw nsamples alpha g
                  Hg Hn Hlo Hhi) as (vals & g' & Hloop & Hvl & Hg' & Hbe).
      eexists. exists g'. split; [exact Hbe|]. split.
      + intros _. split; [exact Hg'|]. split; [exact Hn|]. now split.
      + exists vals, g, g'. split; [exact Hg|]. split; [exact Hloop|].
        split; [exact Hvl|reflexivity].
    - exists (fq 0 1, fq 0 1), g. split; [reflexivity|]. split.
      + intros H; discriminate H.
      + reflexivity. }
  destruct Herr as (e & g' & Herr & Hready' & Hstored). rewrite Herr.
  cbn [rbind].
  destruct (np_setitem_ok (delta_var self) i (_delvar ca cw) Hi)
    as (dv & Hdv & Hdvl & Hdvi & Hdvj).
  assert (Hi' : (i < length (delta_var_error self))%nat) by lia.
  destruct (np_setitem_ok (delta_var_error self) i e Hi')
    as (dve & Hdve & Hdvel & Hdvei & Hdvej).
  rewrite Hdv. cbn [rbind]. rewrite Hdve. cbn [rbind].
  exists dv, dve, e, g'.
  split; [reflexivity|]. split; [exact Hready'|]. split; [exact Hstored|].
  split; [exact Hdvl|]. split; [exact Hdvel|]. split; [exact Hdvi|].
  split; [exact Hdvei|].
  intros j Hj. split; [now apply Hdvj | now apply Hdvej].
Qed.

(** The loop of [compute_deltavar] over the pairs from position [i] on:
    it returns, changes nothing but the two result arrays, leaves their
    entries before [i] alone and stores the value and the error pair of
    the [k]-th pair at position [i + k]. *)
Lemma compute_deltavar_loop_spec (bootstrap : bool) (nsamples : nat)
    (alpha : Qc) (pairs : list (array * array)) :
  forall (self : DeltaVariance) (i : nat) (g : rng),
  bootstrap_ready bootstrap nsamples alpha g ->
  (i + length pairs <= length (delta_var self))%nat ->
  length (delta_var_error self) = length (delta_var self) ->
  exists dv dve g',
    compute_deltavar_loop self i pairs bootstrap nsamples (Fin alpha) g
    = Ok (set_delta_var self dv dve, g')
    /\ bootstrap_ready bootstrap nsamples alpha g'
    /\ length dv = length (delta_var self)
    /\ length dve = length (delta_var_error self)
    /\ (forall j, (j < i)%nat ->
          nth_error dv j = nth_error (delta_var self) j
          /\ nth_error dve j = nth_error (delta_var_error self) j)
    /\ (forall k ca cw, nth_error pairs k = Some (ca, cw) ->
          nth_error dv (i + k) = Some (_delvar ca cw)
          /\ exists e, nth_error dve (i + k) = Some e
                       /\ stored_interval bootstrap nsamples alpha ca cw e).
Proof.
  induction pairs as [|[ca cw] pairs IH]; intros self i g Hready Hi Hlen.
  - exists (delta_var self), (delta_var_error self), g.
    split; [now destruct self|]. split; [exact Hready|].
    split; [reflexivity|]. split; [reflexivity|]. split; [now split|].
    intros [|k] ? ? Hk; discriminate Hk.
  - cbn [length] in Hi. cbn [compute_deltavar_loop].
    destruct (compute_deltavar_step_spec self i ca cw bootstrap nsamples
                alpha g Hready ltac:(lia) Hlen)
      as (dv1 & dve1 & e & g1 & Hstep & Hready1 & Hstored & Hl1 & Hl1'
          & Hdvi & Hdvei & Hother).
    rewrite Hstep. cbn [rbind].
    destruct (IH (set_delta_var self dv1 dve1) (S i) g1 Hready1)
      as (dv & dve & g' & Hloop & Hready' & Hl & Hl' & Hbefore & Hat).
    { cbn. lia. }
    { cbn. lia. }
    cbn [delta_var delta_var_error set_delta_var] in *.
    exists dv, dve, g'. split; [exact Hloop|]. split; [exact Hready'|].
    split; [lia|]. split; [lia|]. split.
    + intros j Hj. destruct (Hbefore j ltac:(lia)) as [Ha Hb].
      destruct (Hother j ltac:(lia)) as [Hc Hd]. split; congruence.
    + intros [|k] ca' cw' Hk.
      * cbn in Hk. inversion Hk; subst ca' cw'. rewrite Nat.add_0_r.
        destruct (Hbefore i ltac:(lia)) as [Ha Hb].
        split; [congruence|]. exists e. split; [congruence|exact Hstored].
      * cbn in Hk. replace (i + S k)%nat with (S i + k)%nat by lia.
        now apply Hat.
Qed.

Lemma nth_error_combine {A B : Type} (xs : list A) (ys : list B) (i : nat)
    (x : A) (y : B) :
  nth_error xs i = Some x -> nth_error ys i = Some y ->
  nth_error (combine xs ys) i = Some (x, y).
Proof.
  revert xs ys. induction i as [|i IH]; intros [|x' xs] [|y' ys] Hx Hy;
    cbn in *; try discriminate.
  - congruence.
  - now apply IH.
Qed.

(** C6.  With the bootstrap enabled, the confidence interval stored for
    each lag is the pair of entries of the ascending sort of the
    [nsamples] bootstrap values at the indices [floor(nsamples * alpha/2)]
    and [floor(nsamples * (1 - alpha/2))], both members of the sample (no
    interpolation); the indices are 2 and 97 for [nsamples = 100] and
    [alpha = 0.05].  With the bootstrap disabled both bounds are 0. *)
Theorem compute_deltavar_interval_is_order_statistics
    (self : DeltaVariance) (bootstrap : bool) (nsamples : nat) (alpha : Qc)
    (g : rng) :
  bootstrap_ready bootstrap nsamples alpha g ->
  (length (convolved_arrays self) <= length (delta_var self))%nat ->
  length (delta_var_error self) = length (delta_var self) ->
  (exists self' g',
     compute_deltavar self bootstrap nsamples (Fin alpha) g = Ok (self', g')
     /\ forall i ca cw,
          nth_error (convolved_arrays self) i = Some ca ->
          nth_error (convolved_weights self) i = Some cw ->
          exists e,
            nth_error (delta_var_error self') i = Some e
            /\ (bootstrap = false -> e = (fq 0 1, fq 0 1))
            /\ (bootstrap = true ->
                exists vals gi gi',
                  uniform_draws gi
                  /\ bootstrap_loop ca cw nsamples gi = Ok (vals, gi')
                  /\ length vals = nsamples
                  /\ Sorted float_le (np_sort vals)
                  /\ Permutation vals (np_sort vals)
                  /\ e = (nth (Z.to_nat (lower_rank nsamples alpha))
                              (np_sort vals) NaN,
                          nth (Z.to_nat (upper_rank nsamples alpha))
                              (np_sort vals) NaN)
                  /\ In (fst e) vals /\ In (snd e) vals))
  /\ lower_rank 100 (Q2Qc (5 # 100)) = 2%Z
  /\ upper_rank 100 (Q2Qc (5 # 100)) = 97%Z.
Proof.
  intros Hready Hlen Hlen'. split; [|split; reflexivity].
  unfold compute_deltavar.
  destruct (compute_deltavar_loop_spec bootstrap nsamples alpha
              (combine (convolved_arrays self) (convolved_weights self))
              self 0 g Hready)
    as (dv & dve & g' & Hloop & _ & _ & _ & _ & Hat).
  { rewrite length_combine. lia. }
  { exact Hlen'. }
  exists (set_delta_var self dv dve), g'. split; [exact Hloop|].
  intros i ca cw Hca Hcw.
  destruct (Hat i ca cw (nth_error_combine _ _ _ _ _ Hca Hcw))
    as (_ & e & He & Hstored).
  exists e. split; [exact He|]. unfold stored_interval in Hstored. split.
  - intros ->. exact Hstored.
  - intros ->. destruct Hstored as (vals & gi & gi' & Hgi & Hvals & Hvl & ->).
    destruct (Hready eq_refl) as (_ & Hn & Hlo & Hhi).
    destruct (ranks_in_range nsamples alpha Hn Hlo Hhi) as [Hlr Hur].
    exists vals, gi, gi'. split; [exact Hgi|]. split; [exact Hvals|].
    split; [exact Hvl|]. split; [apply np_sort_sorted|].
    split; [apply np_sort_perm|]. split; [reflexivity|].
    unfold order_statistics. cbn [fst snd].
    split; apply (Permutation_in _ (Permutation_sym (np_sort_perm vals)));
      apply nth_In; rewrite np_sort_length; lia.
Qed.

Lemma compute_deltavar_interval_witness :
  exists self' g' e vals,
    compute_deltavar one_field true 100 (Fin (Q2Qc (5 # 100))) constant_draws
    = Ok (self', g')
    /\ nth_error (delta_var_error self') 0 = Some e
    /\ length vals = 100%nat
    /\ e = (nth 2 (np_sort vals) NaN, nth 97 (np_sort vals) NaN).
Proof.
  assert (Hready : bootstrap_ready true 100 (Q2Qc (5 # 100)) constant_draws).
  { intros _. split; [intros k; split; now vm_compute|].
    split; [lia|]. split; now vm_compute. }
  destruct (compute_deltavar_interval_is_order_statistics one_field true 100
              (Q2Qc (5 # 100)) constant_draws Hready
              (Nat.le_refl 1) eq_refl)
    as [(self' & g' & Hrun & Hcells) _].
  destruct (Hcells 0%nat _ _ eq_refl eq_refl) as (e & He & _ & Hboot).
  destruct (Hboot eq_refl) as (vals & _ & _ & _ & _ & Hvl & _ & _ & Hev & _).
  exists self', g', e, vals.
  split; [exact Hrun|]. split; [exact He|]. split; [exact Hvl|exact Hev].
Defined.

(** ** Kernels *)

Lemma xdiv_fin (a b : R) :
  b <> 0%R -> fdiv (Fin a) (Fin b) = Fin (a / b)%R.
Proof.
  intros Hb. cbn. destruct (Rcompare_spec b 0); [contradiction| |]; reflexivity.
Qed.

Lemma xis_zero_fin (b : R) : b <> 0%R -> is_zero (Fin b) = false.
Proof.
  intros Hb. cbn. destruct (Rcompare_spec b 0); [contradiction| |]; reflexivity.
Qed.

Lemma fold_fadd_fin (l : list R) (a : R) :
  fold_left fadd (map Fin l) (Fin a) = Fin (fold_left Rplus l a).
Proof. revert a. induction l as [|x l IH]; intros a; [reflexivity|apply IH]. Qed.

Lemma np_sum_fin (m : list (list R)) :
  np_sum (ravel (amap Fin m)) = Fin (rsum (concat m)).
Proof.
  unfold np_sum, ravel, amap, rsum. rewrite <- concat_map. apply fold_fadd_fin.
Qed.

Lemma fold_Rplus_shift (l : list R) (a : R) :
  fold_left Rplus l a = (a + fold_left Rplus l 0)%R.
Proof.
  revert a. induction l as [|x l IH]; intros a; cbn; [lra|].
  rewrite (IH (a + x)%R), (IH (0 + x)%R). lra.
Qed.

Lemma rsum_cons (x : R) (l : list R) : rsum (x :: l) = (x + rsum l)%R.
Proof. unfold rsum. cbn. rewrite fold_Rplus_shift. lra. Qed.

Lemma rsum_scale (l : list R) (s : R) :
  rsum (map (fun v => v / s)%R l) = (rsum l / s)%R.
Proof.
  induction l as [|x l IH]; cbn [map].
  - unfold rsum. cbn. lra.
  - rewrite !rsum_cons, IH. lra.
Qed.

Lemma rsum_nonneg (l : list R) :
  Forall (fun v => 0 <= v)%R l -> (0 <= rsum l)%R.
Proof.
  induction 1 as [|x l Hx _ IH]; [unfold rsum; cbn; lra|].
  rewrite rsum_cons. lra.
Qed.

Lemma rsum_pos (l : list R) :
  Forall (fun v => 0 <= v)%R l -> Exists (fun v => 0 < v)%R l ->
  (0 < rsum l)%R.
Proof.
  intros Hall Hex. induction Hall as [|x l Hx Hl IH]; [inversion Hex|].
  rewrite rsum_cons. pose proof (rsum_nonneg l Hl).
  inversion Hex as [? ? Hpos | ? ? Hrest]; subst; [lra|].
  specialize (IH Hrest). lra.
Qed.

(** Dividing a kernel with finite cells by its non-zero sum gives finite
    cells that sum to one. *)
Lemma normalise_fin (m : list (list R)) :
  rsum (concat m) <> 0%R ->
  normalise (amap Fin m)
  = amap Fin (amap (fun v => v / rsum (concat m))%R m)
  /\ np_sum (ravel (normalise (amap Fin m))) = Fin 1%R.
Proof.
  intros Hs.
  assert (Hn : normalise (amap Fin m)
               = amap Fin (amap (fun v => v / rsum (concat m))%R m)).
  { unfold normalise. rewrite np_sum_fin. unfold amap.
    rewrite !map_map. apply map_ext. intros r. rewrite !map_map.
    apply map_ext. intros v. now apply xdiv_fin. }
  split; [exact Hn|]. rewrite Hn, np_sum_fin. f_equal.
  unfold amap. rewrite <- concat_map, rsum_scale. now field.
Qed.

(** The grid of [np.arange(-size / 2, size / 2 + 1)] starts at
    [floor(-size / 2)], which is negative for a positive size. *)
Lemma axis_grid_first (size : Z) :
  (0 <= size)%Z -> In (- size / 2)%Z (axis_grid size).
Proof.
  intros Hs. unfold axis_grid.
  assert (Hlo : (- size / 2 <= 0)%Z) by (apply Z.div_le_upper_bound; lia).
  assert (Hhi : (0 <= size / 2)%Z) by (apply Z.div_pos; lia).
  destruct (Z.to_nat (size / 2 + 1 - - size / 2)) as [|n] eqn:Hn; [lia|].
  cbn [seq map]. left. lia.
Qed.

Lemma axis_grid_first_negative (size : Z) :
  (1 <= size)%Z -> (- size / 2 < 0)%Z.
Proof. intros Hs. apply Z.div_lt_upper_bound; lia. Qed.

Lemma on_grid_Forall (P : R -> Prop) (f : Z -> Z -> R) (x_size y_size : Z) :
  (forall x y, P (f x y)) -> Forall P (concat (on_grid f x_size y_size)).
Proof.
  intros Hf. apply Forall_concat. unfold on_grid.
  apply Forall_forall. intros row Hrow. apply in_map_iff in Hrow.
  destruct Hrow as [y [<- _]]. apply Forall_forall. intros v Hv.
  apply in_map_iff in Hv. destruct Hv as [x [<- _]]. apply Hf.
Qed.

Lemma on_grid_Exists (P : R -> Prop) (f : Z -> Z -> R) (x_size y_size : Z)
    (x y : Z) :
  In x (axis_grid x_size) -> In y (axis_grid y_size) -> P (f x y) ->
  Exists P (concat (on_grid f x_size y_size)).
Proof.
  intros Hx Hy HP. apply Exists_exists. exists (f x y). split; [|exact HP].
  apply in_concat. exists (map (fun x => f x y) (axis_grid x_size)). split.
  - unfold on_grid. apply in_map_iff. now exists y.
  - apply in_map_iff. now exists x.
Qed.

Lemma gaussian_on_grid (width : R) (x_size y_size : Z) :
  width <> 0%R ->
  gaussian (radius2 x_size y_size) (Fin width)
  = amap Fin
      (on_grid (fun x y => exp (- (IZR x * IZR x + IZR y * IZR y)
                                / (width * width)))%R x_size y_size).
Proof.
  intros Hw. unfold gaussian, radius2, on_grid, amap.
  rewrite !map_map. apply map_ext. intros y. rewrite !map_map.
  apply map_ext. intros x.
  assert (Hw2 : (width * width)%R <> 0%R) by nra.
  unfold fsq, xz. cbn [fmul fadd fneg kmul kadd kopp R_carrier].
  now rewrite xdiv_fin.
Qed.

Lemma half_lag (lag : R) : fdiv (Fin lag) (xz 2) = Fin (lag / 2)%R.
Proof. unfold xz. apply xdiv_fin. lra. Qed.

(** The core kernel before normalisation. *)
Lemma core_cells (lag : R) (x_size y_size : Z) :
  lag <> 0%R ->
  amap (fmul (fmul (fdiv (xz 4) (Fin PI)) (Fin lag)))
       (gaussian (radius2 x_size y_size) (fdiv (Fin lag) (xz 2)))
  = amap Fin (on_grid (core_cell lag) x_size y_size).
Proof.
  intros Hlag. rewrite half_lag, gaussian_on_grid by lra.
  unfold xz. rewrite (xdiv_fin 4 PI PI_neq0).
  unfold amap, on_grid. rewrite !map_map. apply map_ext. intros y.
  rewrite !map_map. apply map_ext. intros x. reflexivity.
Qed.

Lemma core_cell_pos (lag : R) (x y : Z) :
  (0 < lag)%R -> (0 < core_cell lag x y)%R.
Proof.
  intros Hlag. unfold core_cell. pose proof PI_RGT_0 as Hpi.
  apply Rmult_lt_0_compat; [|apply exp_pos].
  apply Rmult_lt_0_compat; [|exact Hlag].
  apply Rdiv_lt_0_compat; lra.
Qed.

Lemma core_kernel_normalised (k : numkind) (lag : R) (x_size y_size : Z) :
  (0 < lag)%R -> (0 <= x_size)%Z -> (0 <= y_size)%Z ->
  np_sum (ravel (core_kernel (mkScalar k (Fin lag)) x_size y_size))
  = Fin 1%R.
Proof.
  intros Hlag Hx Hy. unfold core_kernel. cbn [num].
  rewrite core_cells by lra. apply normalise_fin.
  apply Rgt_not_eq, Rlt_gt, rsum_pos.
  - apply on_grid_Forall. intros x y. apply Rlt_le. now apply core_cell_pos.
  - apply (on_grid_Exists _ _ _ _ (- x_size / 2)%Z (- y_size / 2)%Z);
      [now apply axis_grid_first | now apply axis_grid_first |].
    now apply core_cell_pos.
Qed.

Lemma map2_same {A B C D : Type} (f : B -> C -> D) (g : A -> B) (h : A -> C)
    (l : list A) :
  map2 f (map g l) (map h l) = map (fun x => f (g x) (h x)) l.
Proof.
  unfold map2. induction l as [|x l IH]; [reflexivity|].
  cbn. now rewrite IH.
Qed.

Lemma amap2_fsub_on_grid (f g : Z -> Z -> R) (x_size y_size : Z) :
  amap2 fsub (amap Fin (on_grid f x_size y_size))
             (amap Fin (on_grid g x_size y_size))
  = amap Fin (on_grid (fun x y => f x y - g x y)%R x_size y_size).
Proof.
  unfold amap2, amap, on_grid. rewrite !map_map, map2_same.
  apply map_ext. intros y. rewrite !map_map, map2_same. reflexivity.
Qed.

(** Without a zero divisor in the prefactor the annulus kernel is returned,
    whatever the diameter ratio: it is the normalised table of
    [annulus_cell]. *)
Lemma annulus_kernel_cells (k1 k2 : numkind) (lag dr : R)
    (x_size y_size : Z) :
  lag <> 0%R -> dr <> 0%R -> (dr * dr)%R <> 1%R ->
  annulus_kernel (mkScalar k1 (Fin lag)) (mkScalar k2 (Fin dr))
    x_size y_size
  = Ok (normalise (amap Fin (on_grid (annulus_cell lag dr) x_size y_size))).
Proof.
  intros Hlag Hdr Hdr1. unfold annulus_kernel. cbn [num kind].
  assert (Hpi := PI_neq0).
  assert (Hden : (PI * lag * (dr * dr - 1))%R <> 0%R).
  { apply Rmult_integral_contrapositive_currified; [|lra].
    now apply Rmult_integral_contrapositive_currified. }
  assert (Hfac : forall k,
             scalar_div (mkScalar PyNumber (xz 4))
               (mkScalar k (fmul (fmul (Fin PI) (Fin lag))
                                 (fsub (fsq (Fin dr)) (xz 1))))
             = Ok (mkScalar k (Fin (4 / (PI * lag * (dr * dr - 1)))%R))).
  { intros k. unfold scalar_div, xz, fsq. cbn [kind num kind_join].
    change (fmul (fmul (Fin PI) (Fin lag)) (fsub (fmul (Fin dr) (Fin dr)) (Fin 1%R)))
      with (@Fin R (PI * lag * (dr * dr - 1))%R).
    rewrite (xis_zero_fin _ Hden), (xdiv_fin 4 _ Hden).
    now destruct k. }
  rewrite Hfac. cbn [rbind num].
  rewrite half_lag.
  change (fmul (Fin dr) (Fin lag)) with (@Fin R (dr * lag)%R).
  rewrite (half_lag (dr * lag)).
  rewrite !gaussian_on_grid by nra.
  rewrite amap2_fsub_on_grid.
  do 2 f_equal. unfold amap, on_grid. rewrite !map_map. apply map_ext.
  intros y. rewrite !map_map. apply map_ext. intros x. reflexivity.
Qed.

Lemma exp_neg_ratio_le (r2 a b : R) :
  (0 < a)%R -> (a < b)%R -> (0 <= r2)%R ->
  (exp (- r2 / a) <= exp (- r2 / b))%R
  /\ ((0 < r2)%R -> (exp (- r2 / a) < exp (- r2 / b))%R).
Proof.
  intros Ha Hab Hr.
  assert (Hinv : (/ b < / a)%R) by (apply Rinv_lt_contravar; nra).
  assert (Hia : (0 < / a)%R) by (apply Rinv_0_lt_compat; lra).
  assert (Hib : (0 < / b)%R) by (apply Rinv_0_lt_compat; lra).
  assert (Hstrict : (0 < r2)%R -> (exp (- r2 / a) < exp (- r2 / b))%R).
  { intros Hpos. apply exp_increasing. unfold Rdiv. nra. }
  split; [|exact Hstrict].
  destruct (Req_dec r2 0) as [->|Hne].
  - unfold Rdiv. rewrite Ropp_0, !Rmult_0_l. lra.
  - apply Rlt_le, Hstrict. lra.
Qed.

Lemma radius2_nonneg (x y : Z) : (0 <= IZR x * IZR x + IZR y * IZR y)%R.
Proof. nra. Qed.

Lemma radius2_pos (x y : Z) :
  x <> 0%Z -> (0 < IZR x * IZR x + IZR y * IZR y)%R.
Proof.
  intros Hx. assert (IZR x <> 0%R) by (now apply not_0_IZR). nra.
Qed.

(** For a positive lag and a positive diameter ratio other than one, no
    cell of the annulus kernel is negative before normalisation, and the
    cells off the column [x = 0] are positive. *)
Lemma annulus_cell_sign (lag dr : R) (x y : Z) :
  (0 < lag)%R -> (0 < dr)%R -> dr <> 1%R ->
  (0 <= annulus_cell lag dr x y)%R
  /\ (x <> 0%Z -> (0 < annulus_cell lag dr x y)%R).
Proof.
  intros Hlag Hdr Hne. unfold annulus_cell.
  set (r2 := (IZR x * IZR x + IZR y * IZR y)%R).
  assert (Hr2 : (0 <= r2)%R) by apply radius2_nonneg.
  set (a := (lag / 2 * (lag / 2))%R).
  set (b := (dr * lag / 2 * (dr * lag / 2))%R).
  assert (Hdl : (0 < dr * lag)%R) by (apply Rmult_lt_0_compat; lra).
  assert (Ha : (0 < a)%R) by (unfold a; apply Rmult_lt_0_compat; lra).
  assert (Hb : (0 < b)%R) by (unfold b; apply Rmult_lt_0_compat; lra).
  assert (Hba : (b = dr * dr * a)%R) by (unfold a, b; field).
  pose proof PI_RGT_0 as Hpi.
  destruct (Rlt_dec 1 dr) as [Hbig|Hsmall].
  - (* the outer Gaussian is the wider one *)
    assert (Hsq : (1 < dr * dr)%R) by nra.
    assert (Hab : (a < b)%R).
    { rewrite Hba. assert (Hd : (0 < dr * dr - 1)%R) by lra.
      pose proof (Rmult_lt_0_compat _ _ Hd Ha). lra. }
    destruct (exp_neg_ratio_le r2 a b Ha Hab Hr2) as [Hle Hlt].
    assert (Hf : (0 < 4 / (PI * lag * (dr * dr - 1)))%R).
    { apply Rdiv_lt_0_compat; [lra|].
      apply Rmult_lt_0_compat; [nra|nra]. }
    split; [nra|]. intros Hx.
    specialize (Hlt (radius2_pos x y Hx)). nra.
  - (* the outer Gaussian is the narrower one *)
    assert (Hdr1 : (dr < 1)%R) by lra.
    assert (Hsq : (dr * dr < 1)%R) by nra.
    assert (Hab : (b < a)%R).
    { rewrite Hba. assert (Hd : (0 < 1 - dr * dr)%R) by lra.
      pose proof (Rmult_lt_0_compat _ _ Hd Ha). lra. }
    destruct (exp_neg_ratio_le r2 b a Hb Hab Hr2) as [Hle Hlt].
    assert (Hf : (4 / (PI * lag * (dr * dr - 1)) < 0)%R).
    { assert (Hd : (0 < PI * lag * (1 - dr * dr))%R)
        by (apply Rmult_lt_0_compat; nra).
      assert (Hq : (0 < 4 / (PI * lag * (1 - dr * dr)))%R)
        by (apply Rdiv_lt_0_compat; lra).
      replace (4 / (PI * lag * (dr * dr - 1)))%R
        with (- (4 / (PI * lag * (1 - dr * dr))))%R; [lra|].
      field. split; [nra|]. split; lra. }
    split; [nra|]. intros Hx.
    specialize (Hlt (radius2_pos x y Hx)). nra.
Qed.

(** The annulus kernel sums to one for every positive lag and positive
    diameter ratio other than one, on a grid of at least two columns. *)
Lemma annulus_kernel_normalised (k1 k2 : numkind) (lag dr : R)
    (x_size y_size : Z) :
  (0 < lag)%R -> (0 < dr)%R -> dr <> 1%R ->
  (1 <= x_size)%Z -> (0 <= y_size)%Z ->
  exists kern,
    annulus_kernel (mkScalar k1 (Fin lag)) (mkScalar k2 (Fin dr))
      x_size y_size = Ok kern
    /\ np_sum (ravel kern) = Fin 1%R.
Proof.
  intros Hlag Hdr Hne Hx Hy.
  assert (Hsq : (dr * dr)%R <> 1%R) by nra.
  rewrite annulus_kernel_cells by lra.
  eexists. split; [reflexivity|]. apply normalise_fin.
  apply Rgt_not_eq, Rlt_gt, rsum_pos.
  - apply on_grid_Forall. intros x y. now apply annulus_cell_sign.
  - apply (on_grid_Exists _ _ _ _ (- x_size / 2)%Z (- y_size / 2)%Z);
      [apply axis_grid_first; lia | now apply axis_grid_first |].
    apply annulus_cell_sign; try assumption.
    pose proof (axis_grid_first_negative x_size Hx). lia.
Qed.

Lemma one_sums_to_one : sums_to_one (Fin 1%R).
Proof.
  exists 1%R. split; [reflexivity|].
  replace (1 - 1)%R with 0%R by lra. rewrite Rabs_R0.
  apply Rlt_le, Rinv_0_lt_compat, pow_lt. lra.
Qed.

(** C3.  For every lag > 0 and image dimensions of at least 3 (and a
    diameter ratio > 1 for the annulus), the arrays returned by
    [core_kernel] and [annulus_kernel] each sum to one: both are divided
    by their own sum, which is not zero. *)
Theorem kernels_sum_to_one (k1 k2 : numkind) (lag diam_ratio : R)
    (x_size y_size : Z) :
  (0 < lag)%R -> (1 < diam_ratio)%R -> (3 <= x_size)%Z -> (3 <= y_size)%Z ->
  sums_to_one
    (np_sum (ravel (core_kernel (mkScalar k1 (Fin lag)) x_size y_size)))
  /\ exists annulus,
       annulus_kernel (mkScalar k1 (Fin lag)) (mkScalar k2 (Fin diam_ratio))
         x_size y_size = Ok annulus
       /\ sums_to_one (np_sum (ravel annulus)).
Proof.
  intros Hlag Hdr Hx Hy. split.
  - rewrite core_kernel_normalised by (assumption || lia).
    apply one_sums_to_one.
  - destruct (annulus_kernel_normalised k1 k2 lag diam_ratio x_size y_size)
      as [annulus [Hok Hsum]]; try lra; try lia.
    exists annulus. split; [exact Hok|]. rewrite Hsum.
    apply one_sums_to_one.
Qed.

Lemma kernels_sum_to_one_witness :
  sums_to_one
    (np_sum (ravel (core_kernel (mkScalar NumPyScalar (Fin 4%R)) 3 3)))
  /\ exists annulus,
       annulus_kernel (mkScalar NumPyScalar (Fin 4%R))
         (mkScalar PyNumber (Fin (3 / 2)%R)) 3 3 = Ok annulus
       /\ sums_to_one (np_sum (ravel annulus)).
Proof.
  apply kernels_sum_to_one; [lra | lra | lia | lia].
Defined.

(** C4, as stated, fails.  Called with Python numbers, lag 2 and diameter
    ratio 1/2 on a 3 x 3 image, [annulus_kernel] raises nothing: it returns
    a numeric array that sums to one. *)
Lemma annulus_kernel_accepts_ratio_below_one :
  (exists annulus,
     annulus_kernel (mkScalar PyNumber (Fin 2%R))
       (mkScalar PyNumber (Fin (1 / 2)%R)) 3 3 = Ok annulus
     /\ np_sum (ravel annulus) = Fin 1%R)
  /\ forall e,
       annulus_kernel (mkScalar PyNumber (Fin 2%R))
         (mkScalar PyNumber (Fin (1 / 2)%R)) 3 3 <> Raise e.
Proof.
  destruct (annulus_kernel_normalised PyNumber PyNumber 2 (1 / 2) 3 3)
    as [annulus [Hok Hsum]]; try lra; try lia.
  split; [now exists annulus|]. intros e He. rewrite Hok in He. discriminate He.
Qed.

(** C4, as the code has it.  [annulus_kernel] does not check the diameter
    ratio.  For a positive lag and a ratio strictly between 0 and 1 it
    returns, without raising, an array normalised to unit sum.  For a
    ratio equal to 1 and both arguments Python numbers it raises
    ZeroDivisionError, from the division in the prefactor. *)
Theorem annulus_kernel_does_not_check_ratio (k1 k2 : numkind)
    (lag diam_ratio : R) (x_size y_size : Z) :
  (0 < lag)%R -> (0 < diam_ratio)%R -> (diam_ratio < 1)%R ->
  (1 <= x_size)%Z -> (0 <= y_size)%Z ->
  (exists annulus,
     annulus_kernel (mkScalar k1 (Fin lag)) (mkScalar k2 (Fin diam_ratio))
       x_size y_size = Ok annulus
     /\ np_sum (ravel annulus) = Fin 1%R)
  /\ annulus_kernel (mkScalar PyNumber (Fin lag))
       (mkScalar PyNumber (Fin 1%R)) x_size y_size
     = Raise ZeroDivisionError.
Proof.
  intros Hlag Hdr Hdr1 Hx Hy. split.
  - apply annulus_kernel_normalised; try assumption. lra.
  - unfold annulus_kernel, scalar_div. cbn [num kind kind_join].
    change (fmul (fmul (Fin PI) (Fin lag)) (fsub (fsq (Fin 1%R)) (xz 1)))
      with (@Fin R (PI * lag * (1 * 1 - 1))%R).
    replace (PI * lag * (1 * 1 - 1))%R with 0%R by ring.
    cbn. destruct (Rcompare_spec 0 0); [reflexivity|lra|lra].
Qed.

Lemma annulus_kernel_does_not_check_ratio_witness :
  (exists annulus,
     annulus_kernel (mkScalar PyNumber (Fin 4%R))
       (mkScalar PyNumber (Fin (3 / 4)%R)) 5 5 = Ok annulus
     /\ np_sum (ravel annulus) = Fin 1%R)
  /\ annulus_kernel (mkScalar PyNumber (Fin 4%R))
       (mkScalar PyNumber (Fin 1%R)) 5 5
     = Raise ZeroDivisionError.
Proof.
  apply annulus_kernel_does_not_check_ratio; [lra | lra | lra | lia | lia].
Defined.

(** ** Running the estimator *)

Ltac simpl_fields :=
  cbn [img header weights diam_ratio nanflag ang_size lags_kind lags
       convolved_arrays convolved_weights delta_var delta_var_error
       set_convolved set_delta_var set_lags] in *.

Lemma np_setitem_inv {A : Type} (xs xs' : list A) (i : nat) (v : A) :
  np_setitem xs i v = Ok xs' ->
  (i < length xs)%nat /\ length xs' = length xs.
Proof.
  intros Hset.
  destruct (Nat.lt_ge_cases i (length xs)) as [Hi|Hi].
  - destruct (np_setitem_ok xs i v Hi) as (ys & Hys & Hlen & _).
    rewrite Hys in Hset. inversion Hset; subst. now split.
  - rewrite np_setitem_out_of_range in Hset by exact Hi. discriminate Hset.
Qed.

Lemma compute_deltavar_step_inv (self self' : DeltaVariance) (i : nat)
    (ca cw : array) (bootstrap : bool) (nsamples : nat) (alpha : float)
    (g g' : rng) :
  compute_deltavar_step self i ca cw bootstrap nsamples alpha g
  = Ok (self', g') ->
  (i < length (delta_var self))%nat
  /\ exists dv dve,
       self' = set_delta_var self dv dve
       /\ length dv = length (delta_var self)
       /\ length dve = length (delta_var_error self).
Proof.
  unfold compute_deltavar_step. intros Hstep.
  destruct (if bootstrap then _ else _) as [[e g1]|e]; cbn [rbind] in Hstep;
    [|discriminate].
  destruct (np_setitem (delta_var self) i _) as [dv|?] eqn:Hdv;
    cbn [rbind] in Hstep; [|discriminate].
  destruct (np_setitem (delta_var_error self) i _) as [dve|?] eqn:Hdve;
    cbn [rbind] in Hstep; [|discriminate].
  destruct (np_setitem_inv _ _ _ _ Hdv) as [Hi Hl].
  destruct (np_setitem_inv _ _ _ _ Hdve) as [_ Hl'].
  split; [exact Hi|]. inversion Hstep; subst.
  exists dv, dve. now repeat split.
Qed.

Lemma compute_deltavar_loop_inv (bootstrap : bool) (nsamples : nat)
    (alpha : float) (pairs : list (array * array)) :
  forall (self self' : DeltaVariance) (i : nat) (g g' : rng),
  compute_deltavar_loop self i pairs bootstrap nsamples alpha g
  = Ok (self', g') ->
  (pairs = [] \/ i + length pairs <= length (delta_var self))%nat
  /\ exists dv dve,
       self' = set_delta_var self dv dve
       /\ length dv = length (delta_var self)
       /\ length dve = length (delta_var_error self).
Proof.
  induction pairs as [|[ca cw] pairs IH]; intros self self' i g g' Hloop.
  - cbn in Hloop. inversion Hloop; subst. split; [now left|].
    exists (delta_var self'), (delta_var_error self').
    split; [now destruct self'|]. now split.
  - cbn [compute_deltavar_loop] in Hloop.
    destruct (compute_deltavar_step self i ca cw bootstrap nsamples alpha g)
      as [[s1 g1]|e] eqn:Hstep; cbn [rbind] in Hloop; [|discriminate].
    destruct (compute_deltavar_step_inv _ _ _ _ _ _ _ _ _ _ Hstep)
      as (Hi & dv1 & dve1 & -> & Hl1 & Hl1').
    destruct (IH _ _ _ _ _ Hloop) as (Hbound & dv & dve & -> & Hl & Hl').
    cbn [delta_var delta_var_error set_delta_var] in *.
    split.
    + right. cbn [length]. destruct Hbound as [->|Hb]; cbn [length]; lia.
    + exists dv, dve. split; [reflexivity|]. split; lia.
Qed.

(** More convolved fields than result slots: [compute_deltavar] raises. *)
Lemma compute_deltavar_overflow (self : DeltaVariance) (bootstrap : bool)
    (nsamples : nat) (alpha : float) (g : rng) :
  (length (delta_var self) < length (convolved_arrays self))%nat ->
  length (convolved_weights self) = length (convolved_arrays self) ->
  exists e, compute_deltavar self bootstrap nsamples alpha g = Raise e.
Proof.
  intros Hmore Hsame. unfold compute_deltavar.
  destruct (compute_deltavar_loop self 0 _ bootstrap nsamples alpha g)
    as [[s' g']|e] eqn:Hloop; [|now exists e].
  destruct (compute_deltavar_loop_inv _ _ _ _ _ _ _ _ _ Hloop)
    as [[Hnil|Hb] _].
  - apply (f_equal (@length _)) in Hnil. rewrite length_combine in Hnil.
    cbn in Hnil. lia.
  - rewrite length_combine in Hb. lia.
Qed.

(** With the bootstrap off, the exception is the IndexError of the first
    write past the end of [delta_var]. *)
Lemma compute_deltavar_loop_index_error (nsamples : nat) (alpha : float)
    (pairs : list (array * array)) :
  forall (self : DeltaVariance) (i : nat) (g : rng),
  (i <= length (delta_var self))%nat ->
  (length (delta_var self) < i + length pairs)%nat ->
  length (delta_var_error self) = length (delta_var self) ->
  compute_deltavar_loop self i pairs false nsamples alpha g
  = Raise IndexError.
Proof.
  induction pairs as [|[ca cw] pairs IH]; intros self i g Hi Hover Hlen.
  - cbn in Hover. lia.
  - cbn [compute_deltavar_loop]. unfold compute_deltavar_step. cbn [rbind].
    destruct (Nat.eq_dec i (length (delta_var self))) as [->|Hne].
    + now rewrite np_setitem_out_of_range by lia.
    + destruct (np_setitem_ok (delta_var self) i (_delvar ca cw))
        as (dv & Hdv & Hdvl & _); [lia|].
      destruct (np_setitem_ok (delta_var_error self) i (fq 0 1, fq 0 1))
        as (dve & Hdve & Hdvel & _); [lia|].
      rewrite Hdv. cbn [rbind]. rewrite Hdve. cbn [rbind].
      apply IH; cbn [delta_var delta_var_error set_delta_var length] in *; lia.
Qed.

Section Run.
Variable convolve_fft : array -> kernel -> bool -> array.

Lemma do_convolutions_shape (self s1 : DeltaVariance) :
  do_convolutions convolve_fft self = Ok s1 ->
  exists outs : list (array * array),
    length outs = length (lags self)
    /\ s1 = set_convolved self
              (convolved_arrays self ++ map fst outs)
              (convolved_weights self ++ map snd outs).
Proof.
  intros Hrun. unfold do_convolutions in Hrun.
  destruct (do_convolutions_loop_appends _ _ _ _ Hrun) as [outs [Hall Heq]].
  exists outs. split; [|exact Heq].
  symmetry. exact (Forall2_length Hall).
Qed.

(** The three stages of a successful [run] with [ang_units=True]. *)
Lemma run_stages (self self' : DeltaVariance) (bootstrap : bool)
    (g g' : rng) :
  run convolve_fft self bootstrap true g = Ok (self', g') ->
  exists a s1 s2,
    do_convolutions convolve_fft self = Ok s1
    /\ compute_deltavar s1 bootstrap 100 (fq 5 100) g = Ok (s2, g')
    /\ ang_size s2 = Some a
    /\ self' = set_lags s2 (map (fun lag => fmul lag (value a)) (lags s2)).
Proof.
  unfold run. intros Hrun.
  destruct (do_convolutions convolve_fft self) as [s1|e] eqn:Hs1;
    cbn [rbind] in Hrun; [|discriminate].
  destruct (compute_deltavar s1 bootstrap 100 (fq 5 100) g) as [[s2 g2]|e]
    eqn:Hs2; cbn [rbind] in Hrun; [|discriminate].
  destruct (ang_size s2) as [a|] eqn:Ha; cbn [rbind] in Hrun; [|discriminate].
  inversion Hrun; subst. exists a, s1, s2.
  split; [reflexivity|]. split; [exact Hs2|]. split; [exact Ha|reflexivity].
Qed.

(** An estimator that already holds convolved fields cannot be run: the
    fields of the new lags are appended to the old ones and there are then
    more fields than result slots. *)
Lemma rerun_raises (s : DeltaVariance) (bootstrap : bool) (g : rng) :
  length (convolved_weights s) = length (convolved_arrays s) ->
  (length (delta_var s)
   < length (convolved_arrays s) + length (lags s))%nat ->
  exists e, run convolve_fft s bootstrap true g = Raise e.
Proof.
  intros Hsame Hmore. unfold run.
  destruct (do_convolutions convolve_fft s) as [s1|e] eqn:Hs1; cbn [rbind];
    [|now exists e].
  destruct (do_convolutions_shape _ _ Hs1) as (outs & Houts & ->).
  destruct (compute_deltavar_overflow
              (set_convolved s (convolved_arrays s ++ map fst outs)
                 (convolved_weights s ++ map snd outs))
              bootstrap 100 (fq 5 100) g) as [e He].
  - cbn. rewrite length_app, length_map. lia.
  - cbn. rewrite !length_app, !length_map. lia.
  - rewrite He. now exists e.
Qed.

Lemma rerun_index_error (s s1 : DeltaVariance) (g : rng) :
  length (convolved_weights s) = length (convolved_arrays s) ->
  (length (delta_var s)
   < length (convolved_arrays s) + length (lags s))%nat ->
  length (delta_var_error s) = length (delta_var s) ->
  do_convolutions convolve_fft s = Ok s1 ->
  run convolve_fft s false true g = Raise IndexError.
Proof.
  intros Hsame Hmore Hlen Hs1. unfold run. rewrite Hs1. cbn [rbind].
  destruct (do_convolutions_shape _ _ Hs1) as (outs & Houts & ->).
  unfold compute_deltavar.
  rewrite compute_deltavar_loop_index_error; [reflexivity|..].
  - lia.
  - cbn. rewrite length_combine, !length_app, !length_map. lia.
  - exact Hlen.
Qed.

(** C10, as the code has it.  A successful [run] with [ang_units=True] on
    a freshly constructed estimator computes the curve from the stored
    pixel-unit lags and then overwrites the stored lags with every lag
    multiplied by the angular scale.  A second [run] on the same object
    (with a non-empty lag set) does not scale them again: it raises, for
    [do_convolutions] has appended a second batch of fields and
    [compute_deltavar] writes past the end of [delta_var] (IndexError when
    the bootstrap is off). *)
Theorem run_scales_lags_then_cannot_rerun
    (self self' : DeltaVariance) (bootstrap : bool) (g g' : rng) :
  fresh self -> (1 <= length (lags self))%nat ->
  run convolve_fft self bootstrap true g = Ok (self', g') ->
  (exists a s1 s2,
     ang_size self = Some a
     /\ do_convolutions convolve_fft self = Ok s1
     /\ lags s1 = lags self
     /\ compute_deltavar s1 bootstrap 100 (fq 5 100) g = Ok (s2, g')
     /\ delta_var self' = delta_var s2
     /\ lags self' = map (fun lag => fmul lag (value a)) (lags self))
  /\ (forall bootstrap2 g2,
        exists e, run convolve_fft self' bootstrap2 true g2 = Raise e)
  /\ (forall g2 s,
        do_convolutions convolve_fft self' = Ok s ->
        run convolve_fft self' false true g2 = Raise IndexError).
Proof.
  intros (Hca & Hcw & Hdv & Hdve) Hnonempty Hrun.
  destruct (run_stages _ _ _ _ _ Hrun) as (a & s1 & s2 & Hs1 & Hs2 & Ha & ->).
  destruct (do_convolutions_shape _ _ Hs1) as (outs & Houts & ->).
  unfold compute_deltavar in Hs2.
  destruct (compute_deltavar_loop_inv _ _ _ _ _ _ _ _ _ Hs2)
    as (_ & dv & dve & -> & Hl & Hl').
  cbn [ang_size lags delta_var delta_var_error convolved_arrays
       convolved_weights set_convolved set_delta_var set_lags] in *.
  rewrite Hca, Hcw in *. cbn [app] in *.
  split; [|split].
  - exists a. eexists. eexists. split; [exact Ha|]. split; [exact Hs1|].
    split; [reflexivity|]. split; [exact Hs2|]. split; reflexivity.
  - intros bootstrap2 g2. apply rerun_raises; simpl_fields.
    + now rewrite !length_map.
    + rewrite !length_map. lia.
  - intros g2 s Hagain. apply (rerun_index_error _ s); simpl_fields.
    + now rewrite !length_map.
    + rewrite !length_map. lia.
    + lia.
    + exact Hagain.
Qed.

End Run.

Lemma run_scales_lags_witness :
  exists self' g',
    run convolve_identity uncovered_pixel false true constant_draws
    = Ok (self', g')
    /\ lags self' = [fmul (fq 1 1) (fq 1 100)]
    /\ run convolve_identity self' false true g' = Raise IndexError.
Proof.
  assert (Hfresh : fresh uncovered_pixel) by (now repeat split).
  destruct (run_scales_lags_then_cannot_rerun convolve_identity
              uncovered_pixel _ false constant_draws _
              Hfresh (Nat.le_refl 1) eq_refl)
    as ((a & s1 & s2 & Ha & _ & _ & _ & _ & Hlags) & _ & Hrerun).
  eexists. eexists. split; [reflexivity|]. split.
  - rewrite Hlags. inversion Ha; subst a. reflexivity.
  - eapply Hrerun. reflexivity.
Defined.

(** C10, as stated, fails.  After a first successful [run] of the
    one-pixel estimator its lag 1 is stored as 1/100; a second [run] does
    not scale it again but raises IndexError. *)
Lemma second_run_raises :
  exists self' g',
    run convolve_identity uncovered_pixel false true constant_draws
    = Ok (self', g')
    /\ map (fun x => match x with Fin q => this q | _ => 0%Q end) (lags self')
       = [(1 # 100)%Q]
    /\ run convolve_identity self' false true g' = Raise IndexError
    /\ forall self'' g'',
         run convolve_identity self' false true g' <> Ok (self'', g'').
Proof.
  eexists. eexists. split; [reflexivity|]. split; [reflexivity|].
  match goal with
  | |- ?second = Raise IndexError /\ _ =>
      assert (Hraise : second = Raise IndexError) by reflexivity
  end.
  split; [exact Hraise|]. intros s h E. rewrite Hraise in E. discriminate E.
Qed.

(* ================================================================== *)
(** * Part III.  Further properties of the module                      *)
(* ================================================================== *)

(** ** The kernel grid *)

Lemma axis_grid_length (size : Z) :
  (0 <= size)%Z -> length (axis_grid size) = Z.to_nat (size + 1).
Proof.
  intros Hs. unfold axis_grid. rewrite length_map, length_seq. f_equal.
  pose proof (Z.div_mod size 2 ltac:(lia)) as H1.
  pose proof (Z.div_mod (- size) 2 ltac:(lia)) as H2.
  pose proof (Z.mod_pos_bound size 2 ltac:(lia)).
  pose proof (Z.mod_pos_bound (- size) 2 ltac:(lia)).
  lia.
Qed.

Lemma axis_grid_origin (size : Z) : (0 <= size)%Z -> In 0%Z (axis_grid size).
Proof.
  intros Hs. unfold axis_grid. apply in_map_iff.
  assert (Hlo : (- size / 2 <= 0)%Z) by (apply Z.div_le_upper_bound; lia).
  assert (Hhi : (0 <= size / 2)%Z) by (apply Z.div_pos; lia).
  exists (Z.to_nat (- (- size / 2))). split; [lia|]. apply in_seq. lia.
Qed.

Lemma on_grid_shape (f : Z -> Z -> R) (x_size y_size : Z) :
  (0 <= x_size)%Z -> (0 <= y_size)%Z ->
  has_shape (Z.to_nat (y_size + 1)) (Z.to_nat (x_size + 1))
            (on_grid f x_size y_size).
Proof.
  intros Hx Hy. unfold has_shape, on_grid. split.
  - now rewrite length_map, axis_grid_length.
  - apply Forall_forall. intros r Hr. apply in_map_iff in Hr.
    destruct Hr as [y [<- _]]. now rewrite length_map, axis_grid_length.
Qed.

Lemma amap_shape {A B : Type} (f : A -> B) (h w : nat) (a : list (list A)) :
  has_shape h w a -> has_shape h w (amap f a).
Proof.
  intros [Hh Hw]. unfold has_shape, amap. split; [now rewrite length_map|].
  apply Forall_forall. intros r Hr. apply in_map_iff in Hr.
  destruct Hr as [r0 [<- Hr0]]. rewrite length_map.
  rewrite Forall_forall in Hw. now apply Hw.
Qed.

Lemma amap2_shape {A B C : Type} (f : A -> B -> C) (h w : nat)
    (a : list (list A)) (b : list (list B)) :
  has_shape h w a -> has_shape h w b -> has_shape h w (amap2 f a b).
Proof.
  intros [Hh Hw] [Hh' Hw']. unfold has_shape, amap2, map2. split.
  - rewrite length_map, length_combine. lia.
  - apply Forall_forall. intros r Hr. apply in_map_iff in Hr.
    destruct Hr as [[r1 r2] [<- Hin]]. cbn [fst snd].
    rewrite length_map, length_combine.
    rewrite Forall_forall in Hw, Hw'.
    rewrite (Hw r1 (in_combine_l _ _ _ _ Hin)).
    rewrite (Hw' r2 (in_combine_r _ _ _ _ Hin)). lia.
Qed.

Lemma radius2_shape (x_size y_size : Z) :
  (0 <= x_size)%Z -> (0 <= y_size)%Z ->
  has_shape (Z.to_nat (y_size + 1)) (Z.to_nat (x_size + 1))
            (radius2 x_size y_size).
Proof.
  intros Hx Hy. unfold has_shape, radius2. split.
  - now rewrite length_map, axis_grid_length.
  - apply Forall_forall. intros r Hr. apply in_map_iff in Hr.
    destruct Hr as [y [<- _]]. now rewrite length_map, axis_grid_length.
Qed.

(** X1.  For non-negative grid sizes, odd or even, both kernels have
    [y_size + 1] rows of [x_size + 1] cells, whatever the lag and the
    diameter ratio. *)
Theorem kernels_have_grid_shape (lag diam_ratio : scalar R)
    (x_size y_size : Z) :
  (0 <= x_size)%Z -> (0 <= y_size)%Z ->
  has_shape (Z.to_nat (y_size + 1)) (Z.to_nat (x_size + 1))
            (core_kernel lag x_size y_size)
  /\ forall annulus,
       annulus_kernel lag diam_ratio x_size y_size = Ok annulus ->
       has_shape (Z.to_nat (y_size + 1)) (Z.to_nat (x_size + 1)) annulus.
Proof.
  intros Hx Hy. pose proof (radius2_shape x_size y_size Hx Hy) as Hr2.
  split.
  - unfold core_kernel, normalise, gaussian. now repeat apply amap_shape.
  - intros annulus Hok. unfold annulus_kernel in Hok.
    destruct (scalar_div _ _) as [factor|e]; cbn [rbind] in Hok;
      [|discriminate].
    inversion Hok; subst. unfold normalise, gaussian.
    repeat apply amap_shape. apply amap2_shape; now apply amap_shape.
Qed.

Lemma kernels_have_grid_shape_witness :
  has_shape 5 4
    (core_kernel (mkScalar PyNumber (Fin 2%R)) 3 4).
Proof.
  destruct (kernels_have_grid_shape (mkScalar PyNumber (Fin 2%R))
              (mkScalar PyNumber (Fin 2%R)) 3 4) as [Hcore _];
    [lia | lia | exact Hcore].
Defined.

(** ** The core kernel *)

Lemma rsum_scale_l (p : R) (l : list R) :
  rsum (map (Rmult p) l) = (p * rsum l)%R.
Proof.
  induction l as [|x l IH]; cbn [map].
  - unfold rsum. cbn. lra.
  - rewrite !rsum_cons, IH. lra.
Qed.

Lemma on_grid_scale (p : R) (f : Z -> Z -> R) (x_size y_size : Z) :
  on_grid (fun x y => p * f x y)%R x_size y_size
  = amap (Rmult p) (on_grid f x_size y_size).
Proof.
  unfold on_grid, amap. rewrite map_map. apply map_ext. intros y.
  now rewrite map_map.
Qed.

Lemma gaussian_sum_pos (width : R) (x_size y_size : Z) :
  (0 <= x_size)%Z -> (0 <= y_size)%Z ->
  (0 < rsum (concat
       (on_grid (fun x y => exp (- (IZR x * IZR x + IZR y * IZR y)
                                 / (width * width))) x_size y_size)))%R.
Proof.
  intros Hx Hy. apply rsum_pos.
  - apply on_grid_Forall. intros x y. apply Rlt_le, exp_pos.
  - apply (on_grid_Exists _ _ _ _ (- x_size / 2)%Z (- y_size / 2)%Z);
      [now apply axis_grid_first | now apply axis_grid_first | apply exp_pos].
Qed.

(** X2.  The prefactor [4 / pi * lag] of the core kernel cancels in the
    normalisation: for every non-zero lag the kernel is the Gaussian
    [exp(-(x^2 + y^2) / (lag/2)^2)] divided by its own sum, it sums to one,
    and a lag and its negative give the same kernel. *)
Theorem core_kernel_is_normalised_gaussian (k : numkind) (lag : R)
    (x_size y_size : Z) :
  lag <> 0%R -> (0 <= x_size)%Z -> (0 <= y_size)%Z ->
  core_kernel (mkScalar k (Fin lag)) x_size y_size
  = normalise (gaussian (radius2 x_size y_size) (fdiv (Fin lag) (xz 2)))
  /\ np_sum (ravel (core_kernel (mkScalar k (Fin lag)) x_size y_size))
     = Fin 1%R
  /\ core_kernel (mkScalar k (Fin (- lag)%R)) x_size y_size
     = core_kernel (mkScalar k (Fin lag)) x_size y_size.
Proof.
  intros Hlag Hx Hy.
  set (g := fun w (x y : Z) =>
              exp (- (IZR x * IZR x + IZR y * IZR y) / (w * w))%R).
  assert (Hform : forall l, l <> 0%R ->
            core_kernel (mkScalar k (Fin l)) x_size y_size
            = amap Fin
                (amap (fun v => v / rsum (concat (on_grid (g (l / 2)%R)
                                                    x_size y_size)))%R
                      (on_grid (g (l / 2)%R) x_size y_size))
            /\ normalise (gaussian (radius2 x_size y_size)
                            (fdiv (Fin l) (xz 2)))
               = amap Fin
                   (amap (fun v => v / rsum (concat (on_grid (g (l / 2)%R)
                                                       x_size y_size)))%R
                         (on_grid (g (l / 2)%R) x_size y_size))).
  { intros l Hl.
    pose proof (gaussian_sum_pos (l / 2) x_size y_size Hx Hy) as Hpos.
    fold (g (l / 2)%R) in Hpos.
    assert (Hp : (4 / PI * l)%R <> 0%R).
    { pose proof PI_RGT_0.
      apply Rmult_integral_contrapositive_currified; [|exact Hl].
      apply Rgt_not_eq, Rlt_gt, Rdiv_lt_0_compat; lra. }
    split.
    - unfold core_kernel. cbn [num]. rewrite core_cells by exact Hl.
      replace (on_grid (core_cell l) x_size y_size)
        with (amap (Rmult (4 / PI * l)) (on_grid (g (l / 2)%R) x_size y_size))
        by (rewrite <- on_grid_scale; reflexivity).
      set (G := on_grid (g (l / 2)%R) x_size y_size) in *.
      assert (Hsum : rsum (concat (amap (Rmult (4 / PI * l)) G))
                     = (4 / PI * l * rsum (concat G))%R).
      { unfold amap. rewrite <- concat_map. apply rsum_scale_l. }
      destruct (normalise_fin (amap (Rmult (4 / PI * l)) G)) as [Hn _].
      { rewrite Hsum. apply Rmult_integral_contrapositive_currified; lra. }
      rewrite Hn, Hsum. f_equal. unfold amap. rewrite map_map.
      apply map_ext. intros r. rewrite map_map. apply map_ext. intros v.
      field. repeat split; try lra; try exact Hl; apply PI_neq0.
    - rewrite half_lag, gaussian_on_grid by lra. fold (g (l / 2)%R).
      apply normalise_fin. lra. }
  destruct (Hform lag Hlag) as [Hc Hg].
  split; [now rewrite Hc, Hg|]. split.
  - rewrite Hc, <- Hg. rewrite half_lag, gaussian_on_grid by lra.
    apply normalise_fin. apply Rgt_not_eq, Rlt_gt.
    now apply gaussian_sum_pos.
  - destruct (Hform (- lag)%R ltac:(lra)) as [Hc' _]. rewrite Hc, Hc'.
    assert (Hgg : forall x y, g (- lag / 2)%R x y = g (lag / 2)%R x y).
    { intros x y. unfold g. f_equal. f_equal. field. }
    assert (HG : on_grid (g (- lag / 2)%R) x_size y_size
                 = on_grid (g (lag / 2)%R) x_size y_size).
    { unfold on_grid. apply map_ext. intros y. apply map_ext. intros x.
      apply Hgg. }
    now rewrite HG.
Qed.

Lemma core_kernel_is_normalised_gaussian_witness :
  core_kernel (mkScalar PyNumber (Fin (- (4))%R)) 3 3
  = core_kernel (mkScalar PyNumber (Fin 4%R)) 3 3.
Proof.
  destruct (core_kernel_is_normalised_gaussian PyNumber 4 3 3)
    as (_ & _ & Hneg); [lra | lia | lia | exact Hneg].
Defined.

Lemma fold_fadd_nan {K : Type} `{Carrier K} (l : list (ext K)) :
  fold_left fadd l NaN = NaN.
Proof. induction l as [|x l IH]; [reflexivity|]. cbn. now destruct x. Qed.

Lemma np_sum_with_nan {K : Type} `{Carrier K} (l : list (ext K)) :
  In NaN l -> np_sum l = NaN.
Proof.
  unfold np_sum. generalize (@Fin K kzero). induction l as [|x l IH];
    intros acc Hin; [destruct Hin|].
  cbn [fold_left]. destruct Hin as [->|Hin].
  - replace (fadd acc NaN) with (@NaN K) by (now destruct acc).
    apply fold_fadd_nan.
  - now apply IH.
Qed.

(** X3.  A lag of zero is not rejected by the kernels.  [core_kernel]
    returns, without raising, an array of the usual shape whose every cell
    is NaN (the centre cell is 0/0 and the normalising sum inherits it);
    [annulus_kernel] called with Python numbers raises ZeroDivisionError
    from the prefactor. *)
Theorem kernels_at_lag_zero (k : numkind) (diam_ratio : R)
    (x_size y_size : Z) :
  (0 <= x_size)%Z -> (0 <= y_size)%Z ->
  all_cells (fun v => v = NaN)
            (core_kernel (mkScalar k (Fin 0%R)) x_size y_size)
  /\ annulus_kernel (mkScalar PyNumber (Fin 0%R))
       (mkScalar PyNumber (Fin diam_ratio)) x_size y_size
     = Raise ZeroDivisionError.
Proof.
  intros Hx Hy. split.
  - unfold core_kernel, normalise. cbn [num].
    set (K := amap _ (gaussian _ _)).
    assert (Hnan : In NaN (ravel K)).
    { unfold ravel. apply in_concat.
      exists (map (fun x =>
                fmul (fmul (fdiv (xz 4) (Fin PI)) (Fin 0%R))
                  (xexp (fdiv (fneg (fadd (fsq (xz x)) (fsq (xz 0))))
                              (fsq (fdiv (Fin 0%R) (xz 2))))))
              (axis_grid x_size)).
      split.
      - unfold K, gaussian, radius2, amap. rewrite !map_map.
        apply in_map_iff. exists 0%Z. split; [|now apply axis_grid_origin].
        now rewrite !map_map.
      - apply in_map_iff. exists 0%Z. split; [|now apply axis_grid_origin].
        rewrite half_lag. unfold fsq, xz.
        cbn [fmul fadd fneg kmul kadd kopp R_carrier fdiv ksgn].
        replace (0 / 2 * (0 / 2))%R with 0%R by field.
        replace (- (0 * 0 + 0 * 0))%R with 0%R by ring.
        destruct (Rcompare_spec 0 0); [|lra|lra].
        cbn. apply fmul_nan_r. }
    rewrite (np_sum_with_nan _ Hnan).
    unfold all_cells, amap. apply Forall_forall. intros r Hr.
    apply in_map_iff in Hr. destruct Hr as [r0 [<- _]].
    apply Forall_forall. intros v Hv. apply in_map_iff in Hv.
    destruct Hv as [v0 [<- _]]. apply fdiv_nan_r.
  - unfold annulus_kernel, scalar_div. cbn [num kind kind_join].
    change (fmul (fmul (Fin PI) (Fin 0%R))
                 (fsub (fsq (Fin diam_ratio)) (xz 1)))
      with (@Fin R (PI * 0 * (diam_ratio * diam_ratio - 1))%R).
    replace (PI * 0 * (diam_ratio * diam_ratio - 1))%R with 0%R by ring.
    cbn. destruct (Rcompare_spec 0 0); [reflexivity|lra|lra].
Qed.

Lemma kernels_at_lag_zero_witness :
  all_cells (fun v => v = NaN)
            (core_kernel (mkScalar NumPyScalar (Fin 0%R)) 3 3).
Proof.
  destruct (kernels_at_lag_zero NumPyScalar (3 / 2) 3 3) as [Hcore _];
    [lia | lia | exact Hcore].
Defined.

(** ** The padding callback *)

Lemma assign_head_length {A : Type} (v : list A) (k : nat) (x : A) :
  length (assign_head v k x) = length v.
Proof.
  unfold assign_head. rewrite length_app, repeat_length, length_skipn. lia.
Qed.

Lemma assign_tail_length {A : Type} (v : list A) (k : nat) (x : A) :
  length (assign_tail v k x) = length v.
Proof.
  unfold assign_tail. rewrite length_app, repeat_length, length_firstn.
  destruct k; lia.
Qed.

Lemma assign_head_nth {A : Type} (v : list A) (k j : nat) (x d : A) :
  (j < length v)%nat ->
  nth j (assign_head v k x) d = if (j <? k)%nat then x else nth j v d.
Proof.
  intros Hj. unfold assign_head.
  destruct (j <? k)%nat eqn:Hjk.
  - apply Nat.ltb_lt in Hjk. rewrite app_nth1 by (rewrite repeat_length; lia).
    apply nth_repeat_lt. lia.
  - apply Nat.ltb_ge in Hjk. rewrite app_nth2 by (rewrite repeat_length; lia).
    rewrite repeat_length, nth_skipn. f_equal. lia.
Qed.

Lemma assign_tail_nth {A : Type} (v : list A) (k j : nat) (x d : A) :
  (j < length v)%nat ->
  nth j (assign_tail v k x) d
  = if match k with
       | O => true
       | S _ => (length v - k <=? j)%nat
       end
    then x else nth j v d.
Proof.
  intros Hj. unfold assign_tail.
  set (start := match k with O => O | S _ => (length v - k)%nat end).
  assert (Hstart : (start <= length v)%nat) by (unfold start; destruct k; lia).
  assert (Hcond : match k with
                  | O => true
                  | S _ => (length v - k <=? j)%nat
                  end = (start <=? j)%nat)
    by (unfold start; now destruct k).
  rewrite Hcond. destruct (start <=? j)%nat eqn:Hsj.
  - apply Nat.leb_le in Hsj.
    rewrite app_nth2 by (rewrite length_firstn; lia).
    apply nth_repeat_lt. rewrite length_firstn. lia.
  - apply Nat.leb_gt in Hsj.
    rewrite app_nth1 by (rewrite length_firstn; lia).
    rewrite nth_firstn.
    now replace (j <? start)%nat with true by (symmetry; apply Nat.ltb_lt; lia).
Qed.

Lemma padwithzeros_length (v : list float) (w : nat * nat) (iaxis : nat) :
  length (padwithzeros v w iaxis) = length v.
Proof.
  unfold padwithzeros. now rewrite assign_tail_length, assign_head_length.
Qed.

Lemma padwithzeros_nth (v : list float) (p0 p1 iaxis j : nat) (d : float) :
  (j < length v)%nat ->
  nth j (padwithzeros v (p0, p1) iaxis) d
  = if written_by_pad (length v) p0 p1 j then Fin 0%Qc else nth j v d.
Proof.
  intros Hj. unfold padwithzeros, written_by_pad. cbn [fst snd].
  rewrite assign_tail_nth by (now rewrite assign_head_length).
  rewrite assign_head_length, assign_head_nth by exact Hj.
  destruct (j <? p0)%nat; cbn [orb]; [|reflexivity].
  now destruct (match p1 with O => true | S _ => _ end).
Qed.

(** X4.  [padwithzeros] never changes the length of the vector; it writes
    zero to the cells before [pad_width[0]] and, when [pad_width[1] >= 1],
    to the last [pad_width[1]] cells; every other cell keeps its value;
    and applying it a second time changes nothing more. *)
Theorem padwithzeros_cells (vector : list float) (p0 p1 iaxis : nat) :
  length (padwithzeros vector (p0, p1) iaxis) = length vector
  /\ (forall j d, (j < length vector)%nat ->
        nth j (padwithzeros vector (p0, p1) iaxis) d
        = if written_by_pad (length vector) p0 p1 j
          then Fin 0%Qc else nth j vector d)
  /\ padwithzeros (padwithzeros vector (p0, p1) iaxis) (p0, p1) iaxis
     = padwithzeros vector (p0, p1) iaxis.
Proof.
  split; [apply padwithzeros_length|]. split.
  - intros j d Hj. now apply padwithzeros_nth.
  - apply (nth_ext _ _ NaN NaN); [now rewrite !padwithzeros_length|].
    intros j Hj. rewrite !padwithzeros_length in Hj.
    rewrite padwithzeros_nth by (now rewrite padwithzeros_length).
    rewrite padwithzeros_length, padwithzeros_nth by exact Hj.
    now destruct (written_by_pad (length vector) p0 p1 j).
Qed.

(** ** Padding by zero cells, in general *)

Lemma zeros_shape (h w : nat) (a : array) :
  shape a = (h, w) ->
  shape (map (fun r => repeat (Fin 0%Qc) 0 ++ r ++ repeat (Fin 0%Qc) 0) a)
  = (h, w).
Proof.
  unfold shape. intros Hs. inversion Hs. rewrite length_map.
  destruct a as [|r a]; [reflexivity|]. cbn [map hd repeat app length].
  now rewrite app_nil_r.
Qed.

(** Both passes of the callback at width zero, on an array of [h] rows
    and [w] columns. *)
Lemma np_pad_width_zero (a : array) (h w : nat) :
  shape a = (h, w) -> np_pad a 0 padwithzeros = Ok (zeros h w).
Proof.
  intros Hshape.
  unfold np_pad. cbn [Z.ltb Z.compare Z.to_nat repeat app].
  rewrite Hshape.
  rewrite app_nil_r. f_equal.
  pose proof (zeros_shape h w a Hshape) as Hs. cbn [repeat app] in Hs.
  set (A' := map (fun r => r ++ []) a) in *.
  assert (Hax0 : apply_along_axis0
                   (fun v => padwithzeros v (0%nat, 0%nat) 0%nat) A'
                 = zeros h w).
  { unfold apply_along_axis0. rewrite Hs.
    assert (Hcols : map (fun j => padwithzeros (column NaN j A')
                                    (0%nat, 0%nat) 0%nat) (seq 0 w)
                    = repeat (repeat (Fin 0%Qc) h) w).
    { rewrite <- (length_seq w 0) at 2. rewrite <- map_const.
      apply map_ext. intros j. rewrite padwithzeros_width_zero.
      unfold column. rewrite length_map. unfold shape in Hs.
      now inversion Hs. }
    rewrite Hcols. unfold zeros.
    rewrite <- (length_seq h 0) at 2. rewrite <- map_const.
    apply map_ext_in. intros i Hi. apply in_seq in Hi.
    rewrite map_repeat. f_equal. apply nth_repeat_lt. lia. }
  rewrite Hax0. unfold apply_along_axis1, zeros. rewrite map_repeat.
  now rewrite padwithzeros_width_zero, repeat_length.
Qed.

(** X5.  Padding by a width of zero erases every array, whatever its
    shape and content: the result has the shape of the input and is zero
    everywhere. *)
Theorem pad_width_zero_erases_every_array (a : array) :
  np_pad a 0 padwithzeros = Ok (zeros (fst (shape a)) (snd (shape a)))
  /\ shape (zeros (fst (shape a)) (snd (shape a))) = shape a.
Proof.
  split.
  - apply np_pad_width_zero. now destruct (shape a).
  - unfold shape, zeros. rewrite repeat_length.
    destruct a as [|r a]; [reflexivity|]. cbn [length repeat hd fst snd].
    now rewrite repeat_length.
Qed.

Lemma map2_repeat {A B C : Type} (f : A -> B -> C) (a : A) (b : B) (n : nat) :
  map2 f (repeat a n) (repeat b n) = repeat (f a b) n.
Proof.
  unfold map2. induction n as [|n IH]; [reflexivity|].
  cbn. now rewrite IH.
Qed.

Lemma py_int_below_one (q : Qc) :
  (0 <= q)%Qc -> (q < 1)%Qc -> py_int (Fin q) = Ok 0%Z.
Proof.
  intros Hlo Hhi. unfold py_int. f_equal.
  destruct q as [[n d] Hc]. unfold Qcle, Qclt, Qle, Qlt in *. cbn in *.
  apply Z.quot_small. lia.
Qed.

Section SubPixelLag.
Variable convolve_fft : array -> kernel -> bool -> array.

(** X6.  A lag below one pixel discards the data in [do_convolutions]: the
    pad width [int(lag)] is zero, so the padded image and the padded
    weights are both zero everywhere and the four convolutions are taken
    of zero arrays. *)
Theorem sub_pixel_lag_convolves_zeros (self : DeltaVariance) (lag : Qc)
    (annulus : kernel) :
  (0 <= lag)%Qc -> (lag < 1)%Qc ->
  shape (weights self) = shape (img self) ->
  annulus_kernel (mkScalar (lags_kind self) (to_real (Fin lag)))
    (scalar_to_real (diam_ratio self))
    (Z.of_nat (fst (shape (img self)))) (Z.of_nat (snd (shape (img self))))
  = Ok annulus ->
  let blank := zeros (fst (shape (img self))) (snd (shape (img self))) in
  let core := core_kernel (mkScalar (lags_kind self) (to_real (Fin lag)))
                (Z.of_nat (fst (shape (img self))))
                (Z.of_nat (snd (shape (img self)))) in
  convolved_fields convolve_fft self (Fin lag)
  = Ok (convolve_fft blank core (nanflag self),
        convolve_fft blank annulus (nanflag self),
        convolve_fft blank core (nanflag self),
        convolve_fft blank annulus (nanflag self)).
Proof.
  intros Hlo Hhi Hshape Hann blank core. subst blank core.
  unfold convolved_fields.
  destruct (shape (img self)) as [h w] eqn:Himg. cbn [fst snd] in *.
  rewrite Hann. cbn [rbind].
  rewrite (py_int_below_one lag Hlo Hhi). cbn [rbind].
  rewrite (np_pad_width_zero (weights self) h w) by (now rewrite Hshape).
  rewrite (np_pad_width_zero (img self) h w Himg). cbn [rbind].
  unfold zeros, amap2. rewrite map2_repeat, map2_repeat.
  replace (fmul (Fin 0%Qc) (Fin 0%Qc)) with (@Fin Qc 0%Qc)
    by (cbn; now rewrite Qcmult_0_l).
  now destruct (nanflag self).
Qed.

End SubPixelLag.

Lemma sub_pixel_lag_witness :
  exists core annulus,
    convolved_fields convolve_identity half_pixel_lag (fq 1 2)
    = Ok (convolve_identity (zeros 2 2) core false,
          convolve_identity (zeros 2 2) annulus false,
          convolve_identity (zeros 2 2) core false,
          convolve_identity (zeros 2 2) annulus false).
Proof.
  eexists. eexists.
  refine (sub_pixel_lag_convolves_zeros convolve_identity half_pixel_lag
            (Q2Qc (1 # 2)) _ _ _ _ _).
  - now vm_compute.
  - now vm_compute.
  - reflexivity.
  - reflexivity.
Defined.

(** ** Lags that are rejected *)

Lemma py_int_negative (q : Qc) :
  (q <= - (1))%Qc -> exists z, py_int (Fin q) = Ok z /\ (z <= -1)%Z.
Proof.
  intros Hq. unfold py_int. eexists. split; [reflexivity|].
  destruct q as [[n d] Hc]. unfold Qcle, Qle in Hq. cbn in *.
  assert (Hn : (n <= - Z.pos d)%Z) by lia.
  replace n with (- (- n))%Z by lia.
  rewrite Z.quot_opp_l by lia.
  assert (1 <= (- n) ÷ Z.pos d)%Z; [|lia].
  rewrite Z.quot_div_nonneg by lia.
  apply Z.div_le_lower_bound; lia.
Qed.

Lemma is_zero_fmul_inf_l (x y : ext R) :
  x = PInf \/ x = NInf \/ x = NaN -> is_zero (fmul x y) = false.
Proof.
  intros [-> | [-> | ->]]; destruct y as [a| | |]; cbn; try reflexivity;
    destruct (Rcompare a 0); reflexivity.
Qed.

Lemma annulus_kernel_nonfinite_lag (k : numkind) (lag : ext R)
    (diam_ratio : scalar R) (x_size y_size : Z) :
  lag = NaN \/ lag = PInf \/ lag = NInf ->
  exists annulus,
    annulus_kernel (mkScalar k lag) diam_ratio x_size y_size = Ok annulus.
Proof.
  intros Hlag. unfold annulus_kernel, scalar_div. cbn [num kind].
  assert (Hz : is_zero (fmul (fmul (Fin PI) lag)
                              (fsub (fsq (num diam_ratio)) (xz 1))) = false).
  { apply is_zero_fmul_inf_l.
    assert (Hpi : Rcompare PI 0 = Gt).
    { pose proof PI_RGT_0. destruct (Rcompare_spec PI 0); [lra|lra|reflexivity]. }
    destruct Hlag as [-> | [-> | ->]]; cbn; rewrite ?Hpi; cbn; auto. }
  rewrite Hz.
  destruct (kind_join PyNumber (kind_join k (kind diam_ratio)));
    cbn [rbind]; eexists; reflexivity.
Qed.

Section BadLags.
Variable convolve_fft : array -> kernel -> bool -> array.

Lemma convolved_fields_bad_lag (self : DeltaVariance) (lag : float) :
  bad_lag lag -> exists e, convolved_fields convolve_fft self lag = Raise e.
Proof.
  intros Hbad. unfold convolved_fields.
  destruct (shape (img self)) as [h w].
  destruct (annulus_kernel _ _ _ _) as [annulus|e]; cbn [rbind];
    [|now exists e].
  destruct Hbad as [-> | [-> | [-> | [q [-> Hq]]]]];
    try (cbn [py_int rbind]; eexists; reflexivity).
  destruct (py_int_negative q Hq) as (z & Hz & Hneg).
  rewrite Hz. cbn [rbind]. unfold np_pad.
  replace (z <? 0)%Z with true by (symmetry; apply Z.ltb_lt; lia).
  cbn [rbind]. eexists. reflexivity.
Qed.

Lemma do_convolutions_loop_fails (todo : list float) :
  forall self lag,
  In lag todo ->
  (exists e, convolve_lag convolve_fft self lag = Raise e) ->
  exists e, do_convolutions_loop convolve_fft self todo = Raise e.
Proof.
  induction todo as [|l todo IH]; intros self lag Hin Hfail; [destruct Hin|].
  cbn [do_convolutions_loop].
  destruct (convolve_lag convolve_fft self l) as [[ca cw]|e] eqn:Hl;
    cbn [rbind]; [|now exists e].
  destruct Hin as [->|Hin].
  - destruct Hfail as [e He]. rewrite He in Hl. discriminate Hl.
  - apply (IH _ lag Hin). exact Hfail.
Qed.

(** X7.  [do_convolutions] turns each lag into a pad width with [int(lag)]
    and hands it to [np.pad].  A NaN lag raises ValueError and an infinite
    lag OverflowError; a lag of -1 or less raises ValueError (negative pad
    width) when the lags are NumPy scalars; and one such lag anywhere in
    the lag set makes the whole call raise: no partial result is
    returned. *)
Theorem do_convolutions_rejects_bad_lags (self : DeltaVariance) :
  convolved_fields convolve_fft self NaN = Raise ValueError
  /\ convolved_fields convolve_fft self PInf = Raise OverflowError
  /\ convolved_fields convolve_fft self NInf = Raise OverflowError
  /\ (forall q, lags_kind self = NumPyScalar -> (q <= - (1))%Qc ->
        convolved_fields convolve_fft self (Fin q) = Raise ValueError)
  /\ (forall lag, In lag (lags self) -> bad_lag lag ->
        exists e, do_convolutions convolve_fft self = Raise e).
Proof.
  assert (Hnonfinite : forall lag : float,
            lag = NaN \/ lag = PInf \/ lag = NInf ->
            convolved_fields convolve_fft self lag
            = (p <- py_int lag ;; Raise IndexError : result
                 (list (list float) * list (list float)
                  * list (list float) * list (list float)))%py).
  { intros lag Hlag. unfold convolved_fields.
    destruct (shape (img self)) as [h w].
    destruct (annulus_kernel_nonfinite_lag (lags_kind self) (to_real lag)
                (scalar_to_real (diam_ratio self)) (Z.of_nat h) (Z.of_nat w))
      as [annulus Hann].
    { destruct Hlag as [-> | [-> | ->]]; cbn; auto. }
    rewrite Hann. cbn [rbind].
    destruct Hlag as [-> | [-> | ->]]; reflexivity. }
  split; [now rewrite Hnonfinite by auto|].
  split; [now rewrite Hnonfinite by auto|].
  split; [now rewrite Hnonfinite by auto|]. split.
  - intros q Hkind Hq. unfold convolved_fields.
    destruct (shape (img self)) as [h w]. rewrite Hkind.
    unfold annulus_kernel, scalar_div. cbn [kind kind_join rbind].
    destruct (py_int_negative q Hq) as (z & Hz & Hneg).
    rewrite Hz. cbn [rbind]. unfold np_pad.
    now replace (z <? 0)%Z with true by (symmetry; apply Z.ltb_lt; lia).
  - intros lag Hin Hbad. unfold do_convolutions.
    apply (do_convolutions_loop_fails _ self lag Hin).
    destruct (convolved_fields_bad_lag self lag Hbad) as [e He].
    exists e. unfold convolve_lag. now rewrite He.
Qed.

End BadLags.

Lemma do_convolutions_rejects_bad_lags_witness :
  exists e, do_convolutions convolve_identity negative_lag = Raise e.
Proof.
  destruct (do_convolutions_rejects_bad_lags convolve_identity negative_lag)
    as (_ & _ & _ & _ & Hany).
  apply (Hany (fq (-2) 1)).
  - right. now left.
  - right. right. right. exists (Q2Qc (-2 # 1)). split; [reflexivity|].
    now vm_compute.
Defined.

(** ** What [do_convolutions] and [compute_deltavar] change *)

Section Frames.
Variable convolve_fft : array -> kernel -> bool -> array.

(** X8.  [do_convolutions] returns exactly when the body of its loop
    returns for every lag.  It then appends one difference field and one
    weight field per lag, in the order of the lags, to the two lists it
    found, so that the lists stay of equal length, and it changes no other
    attribute. *)
Theorem do_convolutions_appends_per_lag (self : DeltaVariance) :
  (Forall (fun lag => exists out, convolve_lag convolve_fft self lag = Ok out)
          (lags self) ->
   exists s, do_convolutions convolve_fft self = Ok s)
  /\ forall s,
       do_convolutions convolve_fft self = Ok s ->
       exists outs : list (array * array),
         s = set_convolved self
               (convolved_arrays self ++ map fst outs)
               (convolved_weights self ++ map snd outs)
         /\ length outs = length (lags self)
         /\ forall k lag,
              nth_error (lags self) k = Some lag ->
              exists out,
                nth_error outs k = Some out
                /\ convolve_lag convolve_fft self lag = Ok out.
Proof.
  split.
  - intros Hall. now apply do_convolutions_loop_total.
  - intros s Hs. unfold do_convolutions in Hs.
    destruct (do_convolutions_loop_appends _ _ _ _ Hs) as [outs [Hall Heq]].
    exists outs. split; [exact Heq|]. split.
    + symmetry. exact (Forall2_length Hall).
    + intros k lag Hk.
      destruct (Forall2_nth_error_l _ _ _ k _ Hall Hk) as [out [Ho Hc]].
      now exists out.
Qed.

End Frames.

Lemma do_convolutions_appends_per_lag_witness :
  exists s, do_convolutions convolve_identity uncovered_pixel = Ok s.
Proof.
  apply (do_convolutions_appends_per_lag convolve_identity uncovered_pixel).
  repeat constructor. eexists. reflexivity.
Defined.

Lemma np_take_length {A : Type} (X : list A) (idx : list Z) :
  forall r, np_take X idx = Ok r -> length r = length idx.
Proof.
  induction idx as [|i idx IH]; intros r Hr; cbn [np_take] in Hr.
  - now inversion Hr.
  - destruct (np_getitem X i); cbn [rbind] in Hr; [|discriminate].
    destruct (np_take X idx) as [r'|]; cbn [rbind] in Hr; [|discriminate].
    inversion Hr; subst. cbn [length]. f_equal. now apply IH.
Qed.

Lemma bootstrap_resample_advances {A : Type} (X resample : list A)
    (n : option nat) (g g' : rng) :
  bootstrap_resample X n g = Ok (resample, g') ->
  let count := match n with None => length X | Some n => n end in
  g' = advanced count g /\ length resample = count.
Proof.
  intros Hres count. unfold bootstrap_resample, random_rand in Hres.
  destruct (np_take X _) as [r|e] eqn:Htake; cbn [rbind] in Hres;
    [|discriminate].
  inversion Hres; subst. split; [reflexivity|].
  rewrite (np_take_length _ _ _ Htake). now rewrite !length_map, length_seq.
Qed.

Lemma bootstrap_loop_advances (ca cw : array) (nsamples : nat) :
  forall g vals g',
  bootstrap_loop ca cw nsamples g = Ok (vals, g') ->
  g' = advanced (nsamples * length ca) g /\ length vals = nsamples.
Proof.
  induction nsamples as [|n IH]; intros g vals g' Hloop;
    cbn [bootstrap_loop] in Hloop.
  - inversion Hloop; subst. split; [|reflexivity].
    unfold advanced. cbn. rewrite Nat.add_0_r. now destruct g'.
  - destruct (bootstrap_resample ca None g) as [[r g1]|e] eqn:Hres;
      cbn [rbind] in Hloop; [|discriminate].
    destruct (bootstrap_loop ca cw n g1) as [[rest g2]|e] eqn:Hrest;
      cbn [rbind] in Hloop; [|discriminate].
    inversion Hloop; subst.
    destruct (bootstrap_resample_advances _ _ _ _ _ Hres) as [-> _].
    destruct (IH _ _ _ Hrest) as [-> Hlen].
    split; [|cbn [length]; now rewrite Hlen].
    unfold advanced. cbn [tape cursor]. f_equal. lia.
Qed.

Lemma compute_deltavar_step_advances (self self' : DeltaVariance) (i : nat)
    (ca cw : array) (bootstrap : bool) (nsamples : nat) (alpha : float)
    (g g' : rng) :
  compute_deltavar_step self i ca cw bootstrap nsamples alpha g
  = Ok (self', g') ->
  g' = advanced (if bootstrap then nsamples * length ca else 0) g
  /\ nth_error (delta_var self') i = Some (_delvar ca cw)
  /\ (bootstrap = false ->
      nth_error (delta_var_error self') i = Some (fq 0 1, fq 0 1))
  /\ forall j, j <> i ->
       nth_error (delta_var self') j = nth_error (delta_var self) j
       /\ nth_error (delta_var_error self') j
          = nth_error (delta_var_error self) j.
Proof.
  unfold compute_deltavar_step. intros Hstep.
  assert (Hg0 : advanced 0 g = g)
    by (unfold advanced; rewrite Nat.add_0_r; now destruct g).
  destruct (if bootstrap then _ else _) as [[e g1]|e] eqn:Herr;
    cbn [rbind] in Hstep; [|discriminate].
  destruct (np_setitem (delta_var self) i _) as [dv|?] eqn:Hdv;
    cbn [rbind] in Hstep; [|discriminate].
  destruct (np_setitem (delta_var_error self) i _) as [dve|?] eqn:Hdve;
    cbn [rbind] in Hstep; [|discriminate].
  destruct (np_setitem_inv _ _ _ _ Hdv) as [Hi _].
  destruct (np_setitem_inv _ _ _ _ Hdve) as [Hi' _].
  destruct (np_setitem_ok (delta_var self) i (_delvar ca cw) Hi)
    as (dv0 & Hdv0 & _ & Hdvi & Hdvj).
  destruct (np_setitem_ok (delta_var_error self) i e Hi')
    as (dve0 & Hdve0 & _ & Hdvei & Hdvej).
  rewrite Hdv in Hdv0. rewrite Hdve in Hdve0.
  inversion Hdv0; inversion Hdve0; subst dv0 dve0.
  inversion Hstep; subst. cbn [delta_var delta_var_error set_delta_var].
  split; [|split; [exact Hdvi|split]].
  - destruct bootstrap.
    + unfold bootstrap_error in Herr.
      destruct (bootstrap_loop ca cw nsamples g) as [[vals g2]|?] eqn:Hloop;
        cbn [rbind] in Herr; [|discriminate].
      destruct (bootstrap_loop_advances _ _ _ _ _ _ Hloop) as [-> _].
      destruct (py_int _); cbn [rbind] in Herr; [|discriminate].
      destruct (np_getitem _ _); cbn [rbind] in Herr; [|discriminate].
      destruct (py_int _); cbn [rbind] in Herr; [|discriminate].
      destruct (np_getitem _ _); cbn [rbind] in Herr; [|discriminate].
      now inversion Herr.
    + inversion Herr; subst. now rewrite Hg0.
  - intros ->. inversion Herr; subst. exact Hdvei.
  - intros j Hj. split; [now apply Hdvj | now apply Hdvej].
Qed.

Lemma advanced_advanced (n m : nat) (g : rng) :
  advanced m (advanced n g) = advanced (n + m) g.
Proof. unfold advanced. cbn [tape cursor]. f_equal. lia. Qed.

Lemma compute_deltavar_loop_advances (bootstrap : bool) (nsamples : nat)
    (alpha : float) (pairs : list (array * array)) :
  forall (self self' : DeltaVariance) (i : nat) (g g' : rng),
  compute_deltavar_loop self i pairs bootstrap nsamples alpha g
  = Ok (self', g') ->
  g' = advanced (if bootstrap then nsamples * rows_total pairs else 0) g
  /\ (forall k ca cw, nth_error pairs k = Some (ca, cw) ->
        nth_error (delta_var self') (i + k) = Some (_delvar ca cw)
        /\ (bootstrap = false ->
            nth_error (delta_var_error self') (i + k)
            = Some (fq 0 1, fq 0 1)))
  /\ forall j, (j < i \/ i + length pairs <= j)%nat ->
       nth_error (delta_var self') j = nth_error (delta_var self) j
       /\ nth_error (delta_var_error self') j
          = nth_error (delta_var_error self) j.
Proof.
  induction pairs as [|[ca cw] pairs IH]; intros self self' i g g' Hloop;
    cbn [compute_deltavar_loop] in Hloop.
  - inversion Hloop; subst. split; [|split].
    + unfold advanced. destruct bootstrap; cbn;
        rewrite ?Nat.mul_0_r, Nat.add_0_r; now destruct g'.
    + intros [|k] ? ? Hk; discriminate Hk.
    + now split.
  - destruct (compute_deltavar_step self i ca cw bootstrap nsamples alpha g)
      as [[s1 g1]|e] eqn:Hstep; cbn [rbind] in Hloop; [|discriminate].
    destruct (compute_deltavar_step_advances _ _ _ _ _ _ _ _ _ _ Hstep)
      as (-> & Hvi & Hei & Hother).
    destruct (IH _ _ _ _ _ Hloop) as (-> & Hat & Hframe).
    split; [|split].
    + rewrite advanced_advanced. f_equal.
      change (rows_total ((ca, cw) :: pairs))
        with (length ca + rows_total pairs)%nat.
      destruct bootstrap; lia.
    + intros [|k] ca' cw' Hk; cbn [nth_error] in Hk.
      * inversion Hk; subst ca' cw'. rewrite Nat.add_0_r.
        destruct (Hframe i ltac:(lia)) as [Hd He]. rewrite Hd, He.
        split; [exact Hvi|exact Hei].
      * replace (i + S k)%nat with (S i + k)%nat by lia. now apply Hat.
    + intros j Hj. cbn [length] in Hj.
      destruct (Hframe j ltac:(lia)) as [Hd He].
      destruct (Hother j ltac:(lia)) as [Hd' He']. split; congruence.
Qed.

(** The generator after [compute_deltavar]: the same tape, and the same
    position when the bootstrap is off. *)
Lemma compute_deltavar_generator (self self' : DeltaVariance)
    (bootstrap : bool) (nsamples : nat) (alpha : float) (g g' : rng) :
  compute_deltavar self bootstrap nsamples alpha g = Ok (self', g') ->
  tape g' = tape g /\ (bootstrap = false -> g' = g).
Proof.
  unfold compute_deltavar. intros Hrun.
  destruct (compute_deltavar_loop_advances _ _ _ _ _ _ _ _ _ Hrun)
    as (-> & _ & _).
  split; [reflexivity|].
  intros ->. unfold advanced. rewrite Nat.add_0_r. now destruct g.
Qed.

(** The slots written by [compute_deltavar] and the slots it leaves. *)
Lemma compute_deltavar_slots (self self' : DeltaVariance)
    (bootstrap : bool) (nsamples : nat) (alpha : float) (g g' : rng) :
  compute_deltavar self bootstrap nsamples alpha g = Ok (self', g') ->
  (forall k ca cw,
     nth_error (convolved_arrays self) k = Some ca ->
     nth_error (convolved_weights self) k = Some cw ->
     nth_error (delta_var self') k = Some (_delvar ca cw))
  /\ (forall j,
        (Nat.min (length (convolved_arrays self))
                 (length (convolved_weights self)) <= j)%nat ->
        nth_error (delta_var self') j = nth_error (delta_var self) j
        /\ nth_error (delta_var_error self') j
           = nth_error (delta_var_error self) j).
Proof.
  unfold compute_deltavar. intros Hrun.
  destruct (compute_deltavar_loop_advances _ _ _ _ _ _ _ _ _ Hrun)
    as (_ & Hat & Hout).
  split.
  - intros k ca cw Hca Hcw.
    exact (proj1 (Hat k ca cw (nth_error_combine _ _ _ _ _ Hca Hcw))).
  - intros j Hj. apply Hout. right. rewrite length_combine. cbn. exact Hj.
Qed.

(** X9.  [compute_deltavar] asks the generator for one number per row of
    every convolved array in every bootstrap iteration, that is
    [nsamples] times the number of rows of the arrays that are paired with
    a weight, and for nothing else; with the bootstrap off the generator
    is not touched. *)
Theorem compute_deltavar_draws_one_number_per_row
    (self self' : DeltaVariance) (bootstrap : bool) (nsamples : nat)
    (alpha : float) (g g' : rng) :
  compute_deltavar self bootstrap nsamples alpha g = Ok (self', g') ->
  tape g' = tape g
  /\ cursor g'
     = (cursor g
        + (if bootstrap
           then nsamples
                * rows_total (combine (convolved_arrays self)
                                      (convolved_weights self))
           else 0))%nat
  /\ (bootstrap = false -> g' = g).
Proof.
  unfold compute_deltavar. intros Hrun.
  destruct (compute_deltavar_loop_advances _ _ _ _ _ _ _ _ _ Hrun)
    as (-> & _ & _).
  split; [reflexivity|]. split; [reflexivity|].
  intros ->. unfold advanced. rewrite Nat.add_0_r. now destruct g.
Qed.

Lemma compute_deltavar_draws_witness :
  exists self' g',
    compute_deltavar one_field true 3 (fq 1 1) constant_draws
    = Ok (self', g')
    /\ cursor g' = 6%nat.
Proof.
  destruct (compute_deltavar one_field true 3 (fq 1 1) constant_draws)
    as [[self' g']|e] eqn:Hrun.
  - exists self', g'. split; [reflexivity|].
    now destruct (compute_deltavar_draws_one_number_per_row one_field _ true 3
                    (fq 1 1) constant_draws _ Hrun) as (_ & -> & _).
  - vm_compute in Hrun. discriminate Hrun.
Defined.

(** X10.  Whatever the bootstrap settings, a call of [compute_deltavar]
    that returns has written the value of [_delvar] of the [k]-th pair of
    convolved array and weight into slot [k] of [delta_var], has left the
    slots after the last pair as they were in both result arrays, and has
    changed no other attribute.  The arrays are paired by [zip]: a
    convolved array without a weight is not looked at. *)
Theorem compute_deltavar_fills_one_slot_per_pair
    (self self' : DeltaVariance) (bootstrap : bool) (nsamples : nat)
    (alpha : float) (g g' : rng) :
  compute_deltavar self bootstrap nsamples alpha g = Ok (self', g') ->
  (exists dv dve,
     self' = set_delta_var self dv dve
     /\ length dv = length (delta_var self)
     /\ length dve = length (delta_var_error self))
  /\ (forall k ca cw,
        nth_error (convolved_arrays self) k = Some ca ->
        nth_error (convolved_weights self) k = Some cw ->
        nth_error (delta_var self') k = Some (_delvar ca cw))
  /\ (forall j,
        (Nat.min (length (convolved_arrays self))
                 (length (convolved_weights self)) <= j)%nat ->
        nth_error (delta_var self') j = nth_error (delta_var self) j
        /\ nth_error (delta_var_error self') j
           = nth_error (delta_var_error self) j).
Proof.
  intros Hrun.
  destruct (compute_deltavar_slots _ _ _ _ _ _ _ Hrun) as [Hat Hout].
  unfold compute_deltavar in Hrun.
  destruct (compute_deltavar_loop_inv _ _ _ _ _ _ _ _ _ Hrun) as [_ Hframe].
  split; [exact Hframe|]. split; [exact Hat|exact Hout].
Qed.

Lemma compute_deltavar_fills_one_slot_witness :
  exists self' g',
    compute_deltavar one_field false 100 (fq 5 100) constant_draws
    = Ok (self', g')
    /\ nth_error (delta_var self') 0
       = Some (_delvar two_by_two [[fq 1 1; fq 1 1]; [fq 1 1; fq 1 1]]).
Proof.
  eexists. eexists. split; [reflexivity|].
  destruct (compute_deltavar_fills_one_slot_per_pair one_field _ false 100
              (fq 5 100) constant_draws _ eq_refl) as (_ & Hat & _).
  exact (Hat 0%nat _ _ eq_refl eq_refl).
Defined.

(** X11.  The delta-variance curve does not depend on the bootstrap: two
    calls of [compute_deltavar] on the same estimator that both return,
    with any settings and any generators, store the same [delta_var]. *)
Theorem delta_var_does_not_depend_on_bootstrap
    (self s1 s2 : DeltaVariance) (b1 b2 : bool) (n1 n2 : nat)
    (alpha1 alpha2 : float) (g1 g2 g1' g2' : rng) :
  compute_deltavar self b1 n1 alpha1 g1 = Ok (s1, g1') ->
  compute_deltavar self b2 n2 alpha2 g2 = Ok (s2, g2') ->
  delta_var s1 = delta_var s2.
Proof.
  intros H1 H2.
  destruct (compute_deltavar_slots _ _ _ _ _ _ _ H1) as [Hat1 Hout1].
  destruct (compute_deltavar_slots _ _ _ _ _ _ _ H2) as [Hat2 Hout2].
  apply nth_error_ext. intros k.
  destruct (Nat.lt_ge_cases k
              (Nat.min (length (convolved_arrays self))
                       (length (convolved_weights self)))) as [Hk|Hk].
  - destruct (nth_error (convolved_arrays self) k) as [ca|] eqn:Hca;
      [|apply nth_error_None in Hca; lia].
    destruct (nth_error (convolved_weights self) k) as [cw|] eqn:Hcw;
      [|apply nth_error_None in Hcw; lia].
    now rewrite (Hat1 k ca cw Hca Hcw), (Hat2 k ca cw Hca Hcw).
  - destruct (Hout1 k Hk) as [-> _]. now destruct (Hout2 k Hk) as [-> _].
Qed.

Lemma delta_var_does_not_depend_on_bootstrap_witness :
  exists s1 s2 g1 g2,
    compute_deltavar one_field true 3 (fq 1 1) constant_draws = Ok (s1, g1)
    /\ compute_deltavar one_field false 100 (fq 5 100) constant_draws
       = Ok (s2, g2)
    /\ delta_var s1 = delta_var s2.
Proof.
  destruct (compute_deltavar one_field true 3 (fq 1 1) constant_draws)
    as [[s1 g1]|e] eqn:Hrun.
  - exists s1. eexists. exists g1. eexists.
    split; [reflexivity|]. split; [reflexivity|].
    exact (delta_var_does_not_depend_on_bootstrap one_field _ _ true false 3
             100 (fq 1 1) (fq 5 100) constant_draws constant_draws _ _
             Hrun eq_refl).
  - vm_compute in Hrun. discriminate Hrun.
Defined.

(** ** What [run] needs and what it leaves *)

Section RunFrames.
Variable convolve_fft : array -> kernel -> bool -> array.

(** The stages of a [run] that returns, for either value of [ang_units]. *)
Lemma run_inv (self self' : DeltaVariance) (bootstrap ang_units : bool)
    (g g' : rng) :
  run convolve_fft self bootstrap ang_units g = Ok (self', g') ->
  exists s1 s2,
    do_convolutions convolve_fft self = Ok s1
    /\ compute_deltavar s1 bootstrap 100 (fq 5 100) g = Ok (s2, g')
    /\ if ang_units
       then exists a,
              ang_size s2 = Some a
              /\ self' = set_lags s2
                           (map (fun lag => fmul lag (value a)) (lags s2))
       else self' = s2.
Proof.
  unfold run. intros Hrun.
  destruct (do_convolutions convolve_fft self) as [s1|e] eqn:Hs1;
    cbn [rbind] in Hrun; [|discriminate].
  destruct (compute_deltavar s1 bootstrap 100 (fq 5 100) g) as [[s2 g2]|e]
    eqn:Hs2; cbn [rbind] in Hrun; [|discriminate].
  exists s1, s2. split; [reflexivity|]. destruct ang_units.
  - destruct (ang_size s2) as [a|] eqn:Ha; cbn [rbind] in Hrun;
      [|discriminate].
    inversion Hrun; subst. split; [exact Hs2|]. now exists a.
  - cbn [rbind] in Hrun. inversion Hrun; subst. now split.
Qed.

(** X12.  A [run] that returns found room in [delta_var] for the fields it
    was given and one more field per lag; it has drawn no number when the
    bootstrap is off; it has then either multiplied every lag by the
    angular scale ([ang_units=True]) or left the lags as they were; and it
    has not touched the image, the header, the weights, the ratio, the NaN
    flag or the angular scale. *)
Theorem run_needs_a_free_slot_per_lag
    (self self' : DeltaVariance) (bootstrap ang_units : bool) (g g' : rng) :
  run convolve_fft self bootstrap ang_units g = Ok (self', g') ->
  (Nat.min (length (convolved_arrays self)) (length (convolved_weights self))
   + length (lags self) <= length (delta_var self))%nat
  /\ (if ang_units
      then exists a,
             ang_size self = Some a
             /\ lags self' = map (fun lag => fmul lag (value a)) (lags self)
      else lags self' = lags self)
  /\ tape g' = tape g
  /\ (bootstrap = false -> g' = g)
  /\ length (convolved_arrays self')
     = (length (convolved_arrays self) + length (lags self))%nat
  /\ img self' = img self /\ header self' = header self
  /\ weights self' = weights self /\ diam_ratio self' = diam_ratio self
  /\ nanflag self' = nanflag self /\ ang_size self' = ang_size self
  /\ lags_kind self' = lags_kind self.
Proof.
  intros Hrun.
  destruct (run_inv _ _ _ _ _ _ Hrun) as (s1 & s2 & Hs1 & Hs2 & Hlast).
  destruct (do_convolutions_shape _ _ _ Hs1) as (outs & Houts & ->).
  destruct (compute_deltavar_generator _ _ _ _ _ _ _ Hs2) as [Htape Hsame].
  unfold compute_deltavar in Hs2.
  destruct (compute_deltavar_loop_inv _ _ _ _ _ _ _ _ _ Hs2)
    as (Hroom & dv & dve & -> & Hl & Hl').
  simpl_fields.
  assert (Hslots :
    (Nat.min (length (convolved_arrays self))
             (length (convolved_weights self))
     + length (lags self) <= length (delta_var self))%nat).
  { destruct Hroom as [Hnil|Hb].
    - apply (f_equal (@length _)) in Hnil.
      rewrite length_combine, !length_app, !length_map in Hnil.
      cbn [length] in Hnil. lia.
    - rewrite length_combine, !length_app, !length_map in Hb. lia. }
  assert (Hca : length (convolved_arrays self ++ map fst outs)
                = (length (convolved_arrays self) + length (lags self))%nat)
    by (rewrite length_app, length_map; lia).
  destruct ang_units.
  - destruct Hlast as (a & Ha & ->). simpl_fields.
    split; [exact Hslots|]. split; [now exists a|].
    split; [exact Htape|]. split; [exact Hsame|]. split; [exact Hca|].
    now repeat split.
  - subst self'. simpl_fields.
    split; [exact Hslots|]. split; [reflexivity|].
    split; [exact Htape|]. split; [exact Hsame|]. split; [exact Hca|].
    now repeat split.
Qed.

(** Without an angular scale the last step of [run] fails. *)
Lemma run_attribute_error (self s1 s2 : DeltaVariance) (bootstrap : bool)
    (g g' : rng) :
  ang_size self = None ->
  do_convolutions convolve_fft self = Ok s1 ->
  compute_deltavar s1 bootstrap 100 (fq 5 100) g = Ok (s2, g') ->
  run convolve_fft self bootstrap true g = Raise AttributeError.
Proof.
  intros Hnone Hs1 Hs2. unfold run. rewrite Hs1. cbn [rbind].
  rewrite Hs2. cbn [rbind].
  destruct (do_convolutions_shape _ _ _ Hs1) as (outs & _ & ->).
  unfold compute_deltavar in Hs2.
  destruct (compute_deltavar_loop_inv _ _ _ _ _ _ _ _ _ Hs2)
    as (_ & dv & dve & -> & _).
  simpl_fields. now rewrite Hnone.
Qed.

Lemma run_without_scale_raises (self : DeltaVariance) (bootstrap : bool)
    (g : rng) :
  ang_size self = None ->
  exists e, run convolve_fft self bootstrap true g = Raise e.
Proof.
  intros Hnone.
  destruct (do_convolutions convolve_fft self) as [s1|e] eqn:Hs1.
  - destruct (compute_deltavar s1 bootstrap 100 (fq 5 100) g)
      as [[s2 g']|e] eqn:Hs2.
    + exists AttributeError.
      now apply (run_attribute_error self s1 s2 bootstrap g g').
    + exists e. unfold run. rewrite Hs1. cbn [rbind]. now rewrite Hs2.
  - exists e. unfold run. now rewrite Hs1.
Qed.

(** X13.  An estimator without an angular scale, as [__init__] leaves it
    when the caller gives the lags, cannot be run with [ang_units=True]:
    [run] raises whatever the other arguments, and when the convolutions
    and the delta-variance go through, it raises AttributeError at the
    scaling of the lags, after both result arrays have been computed. *)
Theorem run_without_ang_size_raises (self : DeltaVariance)
    (bootstrap : bool) (g : rng) :
  ang_size self = None ->
  (exists e, run convolve_fft self bootstrap true g = Raise e)
  /\ (forall s1 s2 g',
        do_convolutions convolve_fft self = Ok s1 ->
        compute_deltavar s1 bootstrap 100 (fq 5 100) g = Ok (s2, g') ->
        run convolve_fft self bootstrap true g = Raise AttributeError
        /\ length (delta_var s2) = length (delta_var self)).
Proof.
  intros Hnone. split; [now apply run_without_scale_raises|].
  intros s1 s2 g' Hs1 Hs2.
  split; [now apply (run_attribute_error self s1 s2 bootstrap g g')|].
  destruct (do_convolutions_shape _ _ _ Hs1) as (outs & _ & ->).
  unfold compute_deltavar in Hs2.
  destruct (compute_deltavar_loop_inv _ _ _ _ _ _ _ _ _ Hs2)
    as (_ & dv & dve & -> & Hl & _).
  simpl_fields. exact Hl.
Qed.

End RunFrames.

Lemma run_needs_a_free_slot_per_lag_witness :
  exists self' g',
    run convolve_identity uncovered_pixel false false constant_draws
    = Ok (self', g')
    /\ lags self' = lags uncovered_pixel
    /\ g' = constant_draws.
Proof.
  eexists. eexists. split; [reflexivity|].
  destruct (run_needs_a_free_slot_per_lag convolve_identity uncovered_pixel
              _ false false constant_draws _ eq_refl)
    as (_ & Hlags & _ & Hsame & _).
  split; [exact Hlags | exact (Hsame eq_refl)].
Defined.

Lemma run_without_ang_size_raises_witness :
  run convolve_identity user_lags false true constant_draws
  = Raise AttributeError.
Proof.
  destruct (run_without_ang_size_raises convolve_identity user_lags false
              constant_draws eq_refl) as [_ Hattr].
  exact (proj1 (Hattr _ _ _ eq_refl eq_refl)).
Defined.

(** ** What the constructor builds *)

Lemma header_getitem_raises_KeyError (h : header_t) (key : string) (e : exn) :
  header_getitem h key = Raise e -> e = KeyError.
Proof.
  induction h as [|[k v] h IH]; cbn [header_getitem]; intros Hraise.
  - now inversion Hraise.
  - destruct (String.eqb k key); [discriminate|now apply IH].
Qed.

Lemma float_ltb_false_le (a b : Qc) :
  float_ltb (Fin a) (Fin b) = false -> (b <= a)%Qc.
Proof.
  cbn [float_ltb]. destruct (a ?= b)%Qc eqn:Hcmp; try discriminate; intros _.
  - apply Qceq_alt in Hcmp. subst. apply Qcle_refl.
  - apply Qclt_le_weak. now apply Qcgt_alt.
Qed.

Section ConstructionFrames.
Variable np_log10 : float -> float.
Variable np_logspace : float -> float -> nat -> list float.
Variable uninit : float.

(** The constructor on a header that has the card. *)
Lemma init_with_card (img : array) (header : header_t) (weights : array)
    (diam_ratio : scalar Qc) (cdelt2 : float) :
  header_getitem header "CDELT2" = Ok cdelt2 ->
  let half := fdiv (of_nat (Nat.min (fst (shape img)) (snd (shape img))))
                   (fq 2 1) in
  let m := fdiv (fq 1 10) (fmul cdelt2 (fq 60 1)) in
  let lags :=
    np_logspace
      (np_log10 (if float_ltb m (fq 3 1) || float_ltb half m
                 then fq 3 1 else m))
      (np_log10 half) 25 in
  __init__ np_log10 np_logspace uninit img header weights diam_ratio None
  = Ok (mkDeltaVariance img header weights diam_ratio
          (existsb is_nan (ravel img)) (Some (mkQuantity cdelt2 deg))
          NumPyScalar lags [] []
          (repeat uninit (length lags))
          (repeat (uninit, uninit) (length lags))).
Proof. intros Hcard. unfold __init__. rewrite Hcard. reflexivity. Qed.

(** Whatever the lags, the estimator that the constructor returns has
    nothing convolved and one result slot per lag. *)
Lemma init_returns_fresh (img : array) (header : header_t) (weights : array)
    (diam_ratio : scalar Qc) (given : option (numkind * list float))
    (self : DeltaVariance) :
  __init__ np_log10 np_logspace uninit img header weights diam_ratio given
  = Ok self ->
  fresh self.
Proof.
  intros Hinit. destruct given as [[k l]|].
  - cbn in Hinit. inversion Hinit; subst self. unfold fresh. cbn.
    now rewrite !repeat_length.
  - destruct (header_getitem header "CDELT2") as [cdelt2|e] eqn:Hcard.
    + rewrite (init_with_card img header weights diam_ratio cdelt2 Hcard)
        in Hinit.
      injection Hinit as <-. unfold fresh.
      cbn [convolved_arrays convolved_weights delta_var delta_var_error lags].
      now rewrite !repeat_length.
    + pose proof (header_getitem_raises_KeyError _ _ _ Hcard) as He.
      subst e.
      rewrite (init_missing_card_propagates _ _ _ _ _ _ _ Hcard) in Hinit.
      discriminate Hinit.
Qed.

(** The default lags are 25 points of [np.logspace]. *)
Lemma init_default_lags (img : array) (header : header_t) (weights : array)
    (diam_ratio : scalar Qc) (self : DeltaVariance) :
  __init__ np_log10 np_logspace uninit img header weights diam_ratio None
  = Ok self ->
  exists start stop, lags self = np_logspace start stop 25.
Proof.
  intros Hinit.
  destruct (header_getitem header "CDELT2") as [cdelt2|e] eqn:Hcard.
  - rewrite (init_with_card img header weights diam_ratio cdelt2 Hcard)
      in Hinit.
    injection Hinit as <-. cbn [lags]. now eexists; eexists.
  - pose proof (header_getitem_raises_KeyError _ _ _ Hcard) as He. subst e.
    rewrite (init_missing_card_propagates _ _ _ _ _ _ _ Hcard) in Hinit.
    discriminate Hinit.
Qed.

(** X14.  With no lags given, a constructor that returns has read CDELT2
    from the header and stored it in degrees: the pixel scale of the
    handler is never stored.  The lags are the 25 points of [np.logspace]
    between the logarithms of a start and of half the smaller side of the
    image.  The start is NaN for a NaN scale; otherwise it is 3, or it is
    [0.1 / (60 * CDELT2)] when that lies between 3 and half the smaller
    side.  Nothing is convolved yet and the result arrays have one slot
    per lag. *)
Theorem init_default_lags_start (img : array) (header : header_t)
    (weights : array) (diam_ratio : scalar Qc) (self : DeltaVariance) :
  __init__ np_log10 np_logspace uninit img header weights diam_ratio None
  = Ok self ->
  let side := Nat.min (fst (shape img)) (snd (shape img)) in
  exists cdelt2 start,
    header_getitem header "CDELT2" = Ok cdelt2
    /\ ang_size self = Some (mkQuantity cdelt2 deg)
    /\ lags_kind self = NumPyScalar
    /\ lags self
       = np_logspace (np_log10 start)
           (np_log10 (fdiv (of_nat side) (fq 2 1))) 25
    /\ (cdelt2 = NaN -> start = NaN)
    /\ (cdelt2 <> NaN ->
        start = fq 3 1
        \/ exists q,
             start = Fin q
             /\ start = fdiv (fq 1 10) (fmul cdelt2 (fq 60 1))
             /\ (Q2Qc 3 <= q)%Qc /\ (q <= qn side / Q2Qc 2)%Qc)
    /\ fresh self
    /\ nanflag self = existsb is_nan (ravel img).
Proof.
  intros Hinit side.
  destruct (header_getitem header "CDELT2") as [cdelt2|e] eqn:Hcard.
  - rewrite (init_with_card img header weights diam_ratio cdelt2 Hcard)
      in Hinit.
    fold side in Hinit.
    set (half := fdiv (of_nat side) (fq 2 1)) in *.
    assert (Hhalf : half = Fin (qn side / Q2Qc 2)%Qc) by reflexivity.
    set (m := fdiv (fq 1 10) (fmul cdelt2 (fq 60 1))) in *.
    set (start := if float_ltb m (fq 3 1) || float_ltb half m
                  then fq 3 1 else m) in *.
    injection Hinit as <-.
    exists cdelt2, start. split; [reflexivity|].
    cbn [ang_size lags_kind lags nanflag].
    split; [reflexivity|]. split; [reflexivity|]. split; [reflexivity|].
    split; [|split; [|split]].
    + intros Hnan. subst start m. rewrite Hnan. reflexivity.
    + intros Hnan. subst start.
      destruct (float_ltb m (fq 3 1) || float_ltb half m) eqn:Hclamp;
        [now left|].
      apply orb_false_iff in Hclamp. destruct Hclamp as [Hlo Hhi].
      destruct m as [q| | |] eqn:Hm.
      * right. exists q. split; [reflexivity|].
        split; [symmetry; exact Hm|].
        split; [now apply float_ltb_false_le|].
        rewrite Hhalf in Hhi. now apply float_ltb_false_le.
      * rewrite Hhalf in Hhi. discriminate Hhi.
      * discriminate Hlo.
      * exfalso. apply Hnan. unfold m, fq in Hm.
        destruct cdelt2 as [c| | |]; cbn in Hm; try discriminate;
          try reflexivity.
        match type of Hm with
        | match ?cmp with _ => _ end = _ => destruct cmp
        end; discriminate Hm.
    + unfold fresh.
      cbn [convolved_arrays convolved_weights delta_var delta_var_error lags].
      now rewrite !repeat_length.
    + reflexivity.
  - pose proof (header_getitem_raises_KeyError _ _ _ Hcard) as He. subst e.
    rewrite (init_missing_card_propagates _ _ _ _ _ _ _ Hcard) in Hinit.
    discriminate Hinit.
Qed.

End ConstructionFrames.

Lemma init_default_lags_start_witness :
  exists self,
    __init__ (fun x => x) (fun start stop num => repeat start num) NaN
      two_by_two [("CDELT2"%string, fq 1 100)] two_by_two
      (mkScalar PyNumber (fq 3 2)) None
    = Ok self
    /\ ang_size self = Some (mkQuantity (fq 1 100) deg).
Proof.
  eexists. split; [reflexivity|].
  destruct (init_default_lags_start (fun x => x)
              (fun start stop num => repeat start num) NaN
              two_by_two [("CDELT2"%string, fq 1 100)] two_by_two
              (mkScalar PyNumber (fq 3 2)) _ eq_refl)
    as (c & s & Hc & Ha & _).
  inversion Hc; subst c. exact Ha.
Defined.

(** ** Constructing the comparator *)

Lemma Forall_nth_error {A : Type} (P : A -> Prop) (l : list A) :
  (forall k x, nth_error l k = Some x -> P x) -> Forall P l.
Proof.
  induction l as [|a l IH]; intros Hall; constructor.
  - exact (Hall 0%nat a eq_refl).
  - apply IH. intros k x Hk. exact (Hall (S k) x Hk).
Qed.

Section ComparatorConstruction.
Variable convolve_fft : array -> kernel -> bool -> array.
Variable np_log10 : float -> float.
Variable np_logspace : float -> float -> nat -> list float.
Variable uninit : float.

(** A first [run] without bootstrap leaves every confidence interval at
    (0, 0). *)
Lemma first_run_without_bootstrap (self self' : DeltaVariance)
    (ang_units : bool) (g g' : rng) :
  fresh self ->
  run convolve_fft self false ang_units g = Ok (self', g') ->
  Forall (fun e => e = (fq 0 1, fq 0 1)) (delta_var_error self') /\ g' = g.
Proof.
  intros (Hca & Hcw & Hdv & Hdve) Hrun.
  destruct (run_inv _ _ _ _ _ _ _ Hrun) as (s1 & s2 & Hs1 & Hs2 & Hlast).
  destruct (compute_deltavar_generator _ _ _ _ _ _ _ Hs2) as [_ Hsame].
  split; [|now apply Hsame].
  destruct (do_convolutions_shape _ _ _ Hs1) as (outs & Houts & ->).
  unfold compute_deltavar in Hs2.
  destruct (compute_deltavar_loop_inv _ _ _ _ _ _ _ _ _ Hs2)
    as (_ & dv & dve & Heq & _ & Hl').
  destruct (compute_deltavar_loop_advances _ _ _ _ _ _ _ _ _ Hs2)
    as (_ & Hat & _).
  assert (Herr : delta_var_error self' = dve).
  { destruct ang_units.
    - destruct Hlast as (a & _ & ->). now rewrite Heq.
    - subst self'. now rewrite Heq. }
  rewrite Herr. rewrite Heq in Hat. simpl_fields.
  rewrite Hca, Hcw in Hat. cbn [app] in Hat.
  apply Forall_nth_error. intros k e Hk.
  assert (Hlt : (k < length dve)%nat)
    by (apply nth_error_Some; congruence).
  assert (Hpair : exists p, nth_error (combine (map fst outs) (map snd outs)) k
                            = Some p).
  { destruct (nth_error (combine (map fst outs) (map snd outs)) k) as [p|]
      eqn:Hp; [now exists p|].
    apply nth_error_None in Hp.
    rewrite length_combine, !length_map in Hp. lia. }
  destruct Hpair as [[ca cw] Hp].
  destruct (Hat k ca cw Hp) as [_ Hzero].
  cbn [Nat.add] in Hzero. rewrite (Hzero eq_refl) in Hk. now inversion Hk.
Qed.

(** X15.  A comparator cannot be constructed from lags given by the
    caller, with or without a fiducial model: the estimator built from
    such lags has no angular scale and its [run], called with the default
    [ang_units=True], raises. *)
Theorem comparator_with_lags_raises (dataset1 dataset2 : array * header_t)
    (weights1 weights2 : array) (diam_ratio : scalar Qc)
    (k : numkind) (lags : list float)
    (fiducial_model : option DeltaVariance) (g : rng) :
  exists e,
    Distance__init__ convolve_fft np_log10 np_logspace uninit
      dataset1 weights1 dataset2 weights2 diam_ratio (Some (k, lags))
      fiducial_model g
    = Raise e.
Proof.
  unfold Distance__init__.
  destruct fiducial_model as [model|]; cbn [rbind __init__].
  - match goal with
    | |- context [run convolve_fft ?d false true g] =>
        destruct (run_without_scale_raises convolve_fft d false g eq_refl)
          as [e He]
    end.
    exists e. now rewrite He.
  - match goal with
    | |- context [run convolve_fft ?d false true g] =>
        destruct (run_without_scale_raises convolve_fft d false g eq_refl)
          as [e He]
    end.
    exists e. now rewrite He.
Qed.

(** A comparator is constructed from the default lags only. *)
Lemma comparator_lags_are_default
    (dataset1 dataset2 : array * header_t) (weights1 weights2 : array)
    (diam_ratio : scalar Qc) (given : option (numkind * list float))
    (fiducial_model : option DeltaVariance) (g g' : rng)
    (self : DeltaVariance_Distance) :
  Distance__init__ convolve_fft np_log10 np_logspace uninit
    dataset1 weights1 dataset2 weights2 diam_ratio given fiducial_model g
  = Ok (self, g') ->
  given = None.
Proof.
  intros Hinit. destruct given as [[k l]|]; [|reflexivity]. exfalso.
  unfold Distance__init__ in Hinit.
  destruct fiducial_model as [model|]; cbn [rbind __init__] in Hinit;
    match type of Hinit with
    | context [run convolve_fft ?d false true g] =>
        destruct (run_without_scale_raises convolve_fft d false g eq_refl)
          as [e He]
    end;
    rewrite He in Hinit; discriminate Hinit.
Qed.

(** X16.  A comparator that is constructed has run its own estimators
    without bootstrap: the generator is not touched, every confidence
    interval of the second curve is (0, 0), and so is every interval of
    the first curve unless a fiducial model was given, which is stored as
    it is, without being run.  No distance is stored yet. *)
Theorem comparator_runs_without_bootstrap
    (dataset1 dataset2 : array * header_t) (weights1 weights2 : array)
    (diam_ratio : scalar Qc) (lags : option (numkind * list float))
    (fiducial_model : option DeltaVariance) (g g' : rng)
    (self : DeltaVariance_Distance) :
  Distance__init__ convolve_fft np_log10 np_logspace uninit
    dataset1 weights1 dataset2 weights2 diam_ratio lags fiducial_model g
  = Ok (self, g') ->
  g' = g
  /\ distance self = None
  /\ Forall (fun e => e = (fq 0 1, fq 0 1)) (delta_var_error (delvar2 self))
  /\ match fiducial_model with
     | Some model => delvar1 self = model
     | None =>
         Forall (fun e => e = (fq 0 1, fq 0 1))
                (delta_var_error (delvar1 self))
     end
  /\ lags = None.
Proof.
  intros Hinit.
  assert (Hfresh : forall img header weights d,
    __init__ np_log10 np_logspace uninit img header weights diam_ratio lags
    = Ok d -> fresh d).
  { intros img header weights d Hd.
    exact (init_returns_fresh _ _ _ _ _ _ _ _ _ Hd). }
  pose proof (comparator_lags_are_default _ _ _ _ _ _ _ _ _ _ Hinit)
    as Hnone.
  unfold Distance__init__ in Hinit.
  destruct fiducial_model as [model|].
  - cbn [rbind] in Hinit.
    destruct (__init__ np_log10 np_logspace uninit (fst dataset2)
                (snd dataset2) weights2 diam_ratio lags) as [d2|e] eqn:Hd2;
      cbn [rbind] in Hinit; [|discriminate].
    destruct (run convolve_fft d2 false true g) as [[r2 g2]|e] eqn:Hr2;
      cbn [rbind] in Hinit; [|discriminate].
    inversion Hinit; subst. cbn [delvar1 delvar2 distance].
    destruct (first_run_without_bootstrap _ _ _ _ _ (Hfresh _ _ _ _ Hd2) Hr2)
      as [Hzero ->].
    now repeat split.
  - destruct (__init__ np_log10 np_logspace uninit (fst dataset1)
                (snd dataset1) weights1 diam_ratio lags) as [d1|e] eqn:Hd1;
      cbn [rbind] in Hinit; [|discriminate].
    destruct (run convolve_fft d1 false true g) as [[r1 g1]|e] eqn:Hr1;
      cbn [rbind] in Hinit; [|discriminate].
    destruct (__init__ np_log10 np_logspace uninit (fst dataset2)
                (snd dataset2) weights2 diam_ratio lags) as [d2|e] eqn:Hd2;
      cbn [rbind] in Hinit; [|discriminate].
    destruct (run convolve_fft d2 false true g1) as [[r2 g2]|e] eqn:Hr2;
      cbn [rbind] in Hinit; [|discriminate].
    inversion Hinit; subst. cbn [delvar1 delvar2 distance].
    destruct (first_run_without_bootstrap _ _ _ _ _ (Hfresh _ _ _ _ Hd1) Hr1)
      as [Hzero1 ->].
    destruct (first_run_without_bootstrap _ _ _ _ _ (Hfresh _ _ _ _ Hd2) Hr2)
      as [Hzero2 ->].
    now repeat split.
Qed.

End ComparatorConstruction.

Lemma comparator_runs_without_bootstrap_witness :
  exists self g',
    Distance__init__ convolve_identity (fun x => x)
      (fun start stop num => repeat start num) NaN
      (two_by_two, [("CDELT2"%string, fq 1 100)]) two_by_two
      (two_by_two, [("CDELT2"%string, fq 1 100)]) two_by_two
      (mkScalar PyNumber (fq 3 2)) None None constant_draws
    = Ok (self, g')
    /\ g' = constant_draws.
Proof.
  match goal with
  | |- exists self g', ?call = _ /\ _ =>
      destruct call as [[self g']|e] eqn:Hcall
  end.
  - exists self, g'. split; [reflexivity|].
    exact (proj1 (comparator_runs_without_bootstrap convolve_identity
                    (fun x => x) (fun start stop num => repeat start num) NaN
                    _ _ _ _ _ _ _ _ _ _ Hcall)).
  - vm_compute in Hcall. discriminate Hcall.
Defined.

(** ** The distance between two curves *)

Lemma fsub_swap (a b : float) : fsub a b = fneg (fsub b a).
Proof.
  destruct a as [p| | |], b as [q| | |]; try reflexivity.
  cbn. f_equal. ring.
Qed.

Lemma fsq_fneg (a : float) : fsq (fneg a) = fsq a.
Proof.
  destruct a as [p| | |]; try reflexivity. cbn. f_equal. ring.
Qed.

Lemma map2_fsub_swap (a b : list float) :
  map2 fsub b a = map fneg (map2 fsub a b).
Proof.
  unfold map2. revert b.
  induction a as [|x a IH]; intros [|y b]; cbn [combine map fst snd];
    try reflexivity.
  f_equal; [apply fsub_swap | apply IH].
Qed.

Lemma broadcast1_fsub_swap (a b : list float) :
  broadcast1 fsub b a = result_map (map fneg) (broadcast1 fsub a b).
Proof.
  unfold broadcast1. rewrite (Nat.eqb_sym (length b) (length a)).
  destruct (length a =? length b)%nat eqn:Hsame.
  - cbn. now rewrite map2_fsub_swap.
  - apply Nat.eqb_neq in Hsame.
    destruct (length a =? 1)%nat eqn:Ha, (length b =? 1)%nat eqn:Hb.
    + apply Nat.eqb_eq in Ha, Hb. lia.
    + cbn. f_equal. rewrite map_map. apply map_ext. intros y.
      apply fsub_swap.
    + cbn. f_equal. rewrite map_map. apply map_ext. intros x.
      apply fsub_swap.
    + reflexivity.
Qed.

Lemma broadcast1_outcome (f : float -> float -> float) (a b : list float) :
  (exists d, broadcast1 f a b = Ok d
             /\ (length a = length b \/ length a = 1 \/ length b = 1)%nat)
  \/ (broadcast1 f a b = Raise ValueError
      /\ length a <> length b /\ length a <> 1%nat /\ length b <> 1%nat).
Proof.
  unfold broadcast1.
  destruct (length a =? length b)%nat eqn:Hsame.
  - left. eexists. split; [reflexivity|]. left. now apply Nat.eqb_eq.
  - destruct (length a =? 1)%nat eqn:Ha.
    + left. eexists. split; [reflexivity|]. right. left.
      now apply Nat.eqb_eq.
    + destruct (length b =? 1)%nat eqn:Hb.
      * left. eexists. split; [reflexivity|]. right. right.
        now apply Nat.eqb_eq.
      * right. apply Nat.eqb_neq in Hsame, Ha, Hb. now repeat split.
Qed.

Section Distance.
Variable np_log10 : float -> float.
Variable np_sqrt : float -> float.

(** The two outcomes of [distance_metric]. *)
Lemma distance_metric_outcome (self : DeltaVariance_Distance) :
  let n1 := length (delta_var (delvar1 self)) in
  let n2 := length (delta_var (delvar2 self)) in
  (exists d,
     distance_metric np_log10 np_sqrt self
     = Ok (mkDistance (delvar1 self) (delvar2 self) (Some d))
     /\ (n1 = n2 \/ n1 = 1 \/ n2 = 1)%nat)
  \/ (distance_metric np_log10 np_sqrt self = Raise ValueError
      /\ n1 <> n2 /\ n1 <> 1%nat /\ n2 <> 1%nat).
Proof.
  intros n1 n2. subst n1 n2. unfold distance_metric.
  destruct (broadcast1_outcome fsub
              (map np_log10 (delta_var (delvar1 self)))
              (map np_log10 (delta_var (delvar2 self))))
    as [(d & Hd & Hshape)|(Hraise & H1 & H2 & H3)];
    rewrite !length_map in *.
  - left. eexists. rewrite Hd. cbn [rbind]. split; [reflexivity|exact Hshape].
  - right. rewrite Hraise. now repeat split.
Qed.

(** X17.  The distance is symmetric: comparing the second curve with the
    first gives the same outcome, the same number or the same exception,
    as comparing the first with the second. *)
Theorem distance_metric_is_symmetric (d1 d2 : DeltaVariance)
    (before before' : option float) :
  result_map distance
    (distance_metric np_log10 np_sqrt (mkDistance d2 d1 before'))
  = result_map distance
      (distance_metric np_log10 np_sqrt (mkDistance d1 d2 before)).
Proof.
  unfold distance_metric. cbn [delvar1 delvar2].
  rewrite broadcast1_fsub_swap.
  destruct (broadcast1 fsub (map np_log10 (delta_var d1))
              (map np_log10 (delta_var d2))) as [d|e]; [|reflexivity].
  cbn. unfold linalg_norm. rewrite map_map.
  do 4 f_equal. apply map_ext. intros x. apply fsq_fneg.
Qed.

(** X18.  [distance_metric] raises nothing but the ValueError of two
    curves whose lengths differ and are both different from one; a curve
    of a single point is compared with every point of the other.  When it
    returns, the two estimators are stored as they were and the distance
    is a number. *)
Theorem distance_metric_raises_on_shape_only (self : DeltaVariance_Distance) :
  let n1 := length (delta_var (delvar1 self)) in
  let n2 := length (delta_var (delvar2 self)) in
  (n1 = n2 \/ n1 = 1%nat \/ n2 = 1%nat ->
   exists d,
     distance_metric np_log10 np_sqrt self
     = Ok (mkDistance (delvar1 self) (delvar2 self) (Some d)))
  /\ (n1 <> n2 -> n1 <> 1%nat -> n2 <> 1%nat ->
      distance_metric np_log10 np_sqrt self = Raise ValueError)
  /\ (n2 = 1%nat -> n1 <> 1%nat ->
      result_map distance (distance_metric np_log10 np_sqrt self)
      = Ok (Some (linalg_norm np_sqrt
                    (map (fun x => fsub (np_log10 x)
                                     (np_log10 (hd NaN (delta_var
                                                          (delvar2 self)))))
                         (delta_var (delvar1 self)))))).
Proof.
  intros n1 n2. subst n1 n2. unfold distance_metric.
  destruct (broadcast1_outcome fsub
              (map np_log10 (delta_var (delvar1 self)))
              (map np_log10 (delta_var (delvar2 self))))
    as [(d & Hd & Hshape)|(Hraise & H1 & H2 & H3)];
    rewrite !length_map in *.
  - split; [|split].
    + intros _. rewrite Hd. cbn [rbind]. now eexists.
    + intros Hne Hn1 Hn2. lia.
    + intros Hn2 Hn1. clear Hd Hshape d. unfold broadcast1.
      rewrite !length_map.
      destruct (length (delta_var (delvar1 self))
                =? length (delta_var (delvar2 self)))%nat eqn:Hsame;
        [apply Nat.eqb_eq in Hsame; lia|].
      destruct (length (delta_var (delvar1 self)) =? 1)%nat eqn:Hone;
        [apply Nat.eqb_eq in Hone; lia|].
      rewrite Hn2. cbn. do 3 f_equal. rewrite map_map.
      apply map_ext. intros x. f_equal.
      now destruct (delta_var (delvar2 self)).
  - split; [|split].
    + intros Hshape. lia.
    + intros _ _ _. now rewrite Hraise.
    + intros Hn2 _. lia.
Qed.

End Distance.

Lemma distance_metric_raises_on_shape_only_witness :
  exists d,
    distance_metric (fun x => x) (fun x => x)
      (mkDistance one_field uncovered_pixel None)
    = Ok (mkDistance one_field uncovered_pixel (Some d)).
Proof.
  apply (distance_metric_raises_on_shape_only (fun x => x) (fun x => x)
           (mkDistance one_field uncovered_pixel None)).
  left. reflexivity.
Defined.

(** ** From construction to distance *)

Section EndToEnd.
Variable convolve_fft : array -> kernel -> bool -> array.
Variable np_log10 : float -> float.
Variable np_logspace : float -> float -> nat -> list float.
Variable uninit : float.
Variable np_sqrt : float -> float.

(** [np.logspace(start, stop, num)] has [num] points. *)
Hypothesis np_logspace_length :
  forall start stop num, length (np_logspace start stop num) = num.

Lemma run_keeps_slots (self self' : DeltaVariance)
    (bootstrap ang_units : bool) (g g' : rng) :
  run convolve_fft self bootstrap ang_units g = Ok (self', g') ->
  length (delta_var self') = length (delta_var self).
Proof.
  intros Hrun.
  destruct (run_inv _ _ _ _ _ _ _ Hrun) as (s1 & s2 & Hs1 & Hs2 & Hlast).
  destruct (do_convolutions_shape _ _ _ Hs1) as (outs & _ & ->).
  unfold compute_deltavar in Hs2.
  destruct (compute_deltavar_loop_inv _ _ _ _ _ _ _ _ _ Hs2)
    as (_ & dv & dve & -> & Hl & _).
  destruct ang_units.
  - destruct Hlast as (a & _ & ->). simpl_fields. exact Hl.
  - subst self'. simpl_fields. exact Hl.
Qed.

Lemma default_estimator_has_25_slots (img : array) (header : header_t)
    (weights : array) (diam_ratio : scalar Qc) (d d' : DeltaVariance)
    (g g' : rng) :
  __init__ np_log10 np_logspace uninit img header weights diam_ratio None
  = Ok d ->
  run convolve_fft d false true g = Ok (d', g') ->
  length (delta_var d') = 25%nat.
Proof.
  intros Hd Hrun. rewrite (run_keeps_slots _ _ _ _ _ _ Hrun).
  destruct (init_returns_fresh _ _ _ _ _ _ _ _ _ Hd) as (_ & _ & Hdv & _).
  destruct (init_default_lags _ _ _ _ _ _ _ _ Hd) as (start & stop & Hlags).
  rewrite Hdv, Hlags. apply np_logspace_length.
Qed.

(** X19.  A comparator that is constructed holds a second curve of 25
    points, and a first curve of 25 points unless a fiducial model was
    given.  [distance_metric] then returns a distance, except for a
    fiducial model whose curve has neither 25 points nor one: that raises
    ValueError, and nothing else is checked about the model. *)
Theorem constructed_comparator_has_a_distance
    (dataset1 dataset2 : array * header_t) (weights1 weights2 : array)
    (diam_ratio : scalar Qc) (lags : option (numkind * list float))
    (fiducial_model : option DeltaVariance) (g g' : rng)
    (self : DeltaVariance_Distance) :
  Distance__init__ convolve_fft np_log10 np_logspace uninit
    dataset1 weights1 dataset2 weights2 diam_ratio lags fiducial_model g
  = Ok (self, g') ->
  let n1 := length (delta_var (delvar1 self)) in
  length (delta_var (delvar2 self)) = 25%nat
  /\ (fiducial_model = None -> n1 = 25%nat)
  /\ (n1 = 25%nat \/ n1 = 1%nat ->
      exists d,
        distance_metric np_log10 np_sqrt self
        = Ok (mkDistance (delvar1 self) (delvar2 self) (Some d)))
  /\ (n1 <> 25%nat -> n1 <> 1%nat ->
      distance_metric np_log10 np_sqrt self = Raise ValueError).
Proof.
  intros Hinit n1. subst n1.
  rewrite (comparator_lags_are_default _ _ _ _ _ _ _ _ _ _ _ _ _ _ Hinit)
    in Hinit.
  assert (Hcurves :
    length (delta_var (delvar2 self)) = 25%nat
    /\ (fiducial_model = None
        -> length (delta_var (delvar1 self)) = 25%nat)).
  { unfold Distance__init__ in Hinit.
    destruct fiducial_model as [model|].
    - cbn [rbind] in Hinit.
      destruct (__init__ np_log10 np_logspace uninit (fst dataset2)
                  (snd dataset2) weights2 diam_ratio None) as [d2|e] eqn:Hd2;
        cbn [rbind] in Hinit; [|discriminate].
      destruct (run convolve_fft d2 false true g) as [[r2 g2]|e] eqn:Hr2;
        cbn [rbind] in Hinit; [|discriminate].
      inversion Hinit; subst. cbn [delvar1 delvar2].
      split; [|discriminate].
      exact (default_estimator_has_25_slots _ _ _ _ _ _ _ _ Hd2 Hr2).
    - destruct (__init__ np_log10 np_logspace uninit (fst dataset1)
                  (snd dataset1) weights1 diam_ratio None) as [d1|e] eqn:Hd1;
        cbn [rbind] in Hinit; [|discriminate].
      destruct (run convolve_fft d1 false true g) as [[r1 g1]|e] eqn:Hr1;
        cbn [rbind] in Hinit; [|discriminate].
      destruct (__init__ np_log10 np_logspace uninit (fst dataset2)
                  (snd dataset2) weights2 diam_ratio None) as [d2|e] eqn:Hd2;
        cbn [rbind] in Hinit; [|discriminate].
      destruct (run convolve_fft d2 false true g1) as [[r2 g2]|e] eqn:Hr2;
        cbn [rbind] in Hinit; [|discriminate].
      inversion Hinit; subst. cbn [delvar1 delvar2]. split.
      + exact (default_estimator_has_25_slots _ _ _ _ _ _ _ _ Hd2 Hr2).
      + intros _.
        exact (default_estimator_has_25_slots _ _ _ _ _ _ _ _ Hd1 Hr1). }
  destruct Hcurves as [Hn2 Hn1].
  split; [exact Hn2|]. split; [exact Hn1|].
  destruct (distance_metric_outcome np_log10 np_sqrt self)
    as [(d & Hd & Hshape)|(Hraise & H1 & H2 & H3)]; rewrite Hn2 in *.
  - split; [intros _; now exists d|]. intros H25 H1. lia.
  - split; [|intros _ _; exact Hraise]. intros [H25|Hone]; lia.
Qed.

End EndToEnd.

Lemma constructed_comparator_has_a_distance_witness :
  exists self g' d,
    Distance__init__ convolve_identity (fun x => x)
      (fun start stop num => repeat start num) NaN
      (two_by_two, [("CDELT2"%string, fq 1 100)]) two_by_two
      (two_by_two, [("CDELT2"%string, fq 1 100)]) two_by_two
      (mkScalar PyNumber (fq 3 2)) None None constant_draws
    = Ok (self, g')
    /\ distance_metric (fun x => x) (fun x => x) self
       = Ok (mkDistance (delvar1 self) (delvar2 self) (Some d)).
Proof.
  match goal with
  | |- exists self g' d, ?call = _ /\ _ =>
      destruct call as [[self g']|e] eqn:Hcall
  end.
  - destruct (constructed_comparator_has_a_distance convolve_identity
                (fun x => x) (fun start stop num => repeat start num) NaN
                (fun x => x) (fun start stop num => repeat_length start num)
                _ _ _ _ _ _ _ _ _ _ Hcall) as (_ & Hn1 & Hok & _).
    destruct (Hok (or_introl (Hn1 eq_refl))) as [d Hd].
    exists self, g', d. split; [reflexivity|exact Hd].
  - vm_compute in Hcall. discriminate Hcall.
Defined.

(** ** Lags of a pixel or more *)

Lemma py_int_at_least_one (q : Qc) :
  (1 <= q)%Qc -> exists p, py_int (Fin q) = Ok (Z.of_nat p) /\ (1 <= p)%nat.
Proof.
  intros Hq. unfold py_int.
  destruct q as [[n d] Hc]. unfold Qcle, Qle in Hq. cbn in *.
  assert (Hquot : (1 <= n ÷ Z.pos d)%Z).
  { rewrite Z.quot_div_nonneg by lia. apply Z.div_le_lower_bound; lia. }
  exists (Z.to_nat (n ÷ Z.pos d)). split; [f_equal; lia | lia].
Qed.

Lemma map2_app {A B C : Type} (f : A -> B -> C) (a1 a2 : list A)
    (b1 b2 : list B) :
  length a1 = length b1 ->
  map2 f (a1 ++ a2) (b1 ++ b2) = map2 f a1 b1 ++ map2 f a2 b2.
Proof.
  unfold map2. revert b1.
  induction a1 as [|x a1 IH]; intros [|y b1] Hlen; try discriminate Hlen.
  - reflexivity.
  - cbn [app combine map]. f_equal. apply IH. now inversion Hlen.
Qed.

Lemma fmul_zero_zero : fmul (Fin 0%Qc) (Fin 0%Qc) = @Fin Qc 0%Qc.
Proof. cbn. now rewrite Qcmult_0_l. Qed.

Lemma map2_fmul_border (p : nat) (r r' : list float) :
  length r = length r' ->
  map2 fmul (repeat (Fin 0%Qc) p ++ r ++ repeat (Fin 0%Qc) p)
            (repeat (Fin 0%Qc) p ++ r' ++ repeat (Fin 0%Qc) p)
  = repeat (Fin 0%Qc) p ++ map2 fmul r r' ++ repeat (Fin 0%Qc) p.
Proof.
  intros Hlen.
  rewrite map2_app by (now rewrite !repeat_length).
  rewrite map2_app by exact Hlen.
  now rewrite map2_repeat, fmul_zero_zero.
Qed.

Lemma map2_map_rows (p : nat) (w : nat) (a b : array) :
  rectangular w a -> rectangular w b ->
  map2 (map2 fmul)
    (map (fun r => repeat (Fin 0%Qc) p ++ r ++ repeat (Fin 0%Qc) p) a)
    (map (fun r => repeat (Fin 0%Qc) p ++ r ++ repeat (Fin 0%Qc) p) b)
  = map (fun r => repeat (Fin 0%Qc) p ++ r ++ repeat (Fin 0%Qc) p)
        (map2 (map2 fmul) a b).
Proof.
  unfold map2 at 1 3. intros Ha. revert b.
  induction Ha as [|r a Hr Ha IH]; intros b Hb; [reflexivity|].
  destruct Hb as [|r' b Hr' Hb]; [reflexivity|].
  cbn [map combine fst snd]. f_equal.
  - apply map2_fmul_border. congruence.
  - now apply IH.
Qed.

(** The product of two padded arrays of one shape is the padded product. *)
Lemma zero_border_product (p : nat) (a b : array) :
  shape b = shape a ->
  rectangular (snd (shape a)) a -> rectangular (snd (shape b)) b ->
  amap2 fmul (zero_border p a) (zero_border p b)
  = zero_border p (amap2 fmul a b).
Proof.
  intros Hshape Ha Hb. rewrite Hshape in Hb.
  assert (Hw : snd (shape (amap2 fmul a b)) = snd (shape a)).
  { unfold shape in *. cbn [snd] in *. inversion Hshape as [[Hl Hh]].
    destruct a as [|r a], b as [|r' b]; try reflexivity; try discriminate.
    cbn [amap2 map2 combine map hd fst snd] in *.
    unfold map2. rewrite length_map, length_combine. lia. }
  unfold amap2, zero_border. rewrite Hshape. fold (amap2 fmul a b).
  rewrite Hw. set (w := snd (shape a)) in *.
  rewrite map2_app by (now rewrite !repeat_length).
  rewrite map2_app
    by (rewrite !length_map; unfold shape in Hshape; now inversion Hshape).
  rewrite !map2_repeat. rewrite (map2_map_rows p w a b Ha Hb).
  now rewrite fmul_zero_zero.
Qed.

Section FullPixelLag.
Variable convolve_fft : array -> kernel -> bool -> array.

(** The first half of the body of the loop, with the shape of the image
    written out. *)
Lemma convolved_fields_eq (self : DeltaVariance) (lag : float) :
  let h := Z.of_nat (fst (shape (img self))) in
  let w := Z.of_nat (snd (shape (img self))) in
  let lag_ := mkScalar (lags_kind self) (to_real lag) in
  convolved_fields convolve_fft self lag
  = (annulus <- annulus_kernel lag_ (scalar_to_real (diam_ratio self)) h w ;;
     p <- py_int lag ;;
     pad_weights <- np_pad (weights self) p padwithzeros ;;
     padded <- np_pad (img self) p padwithzeros ;;
     Ok (convolve_fft (amap2 fmul padded pad_weights) (core_kernel lag_ h w)
           (nanflag self),
         convolve_fft (amap2 fmul padded pad_weights) annulus (nanflag self),
         convolve_fft pad_weights (core_kernel lag_ h w) (nanflag self),
         convolve_fft pad_weights annulus (nanflag self)))%py.
Proof.
  unfold convolved_fields. destruct (shape (img self)) as [h w].
  cbn [fst snd]. now destruct (nanflag self).
Qed.

(** X20.  For a lag of one pixel or more on an image and weights of one
    rectangular shape, [do_convolutions] convolves the weights and the
    weighted image, each enlarged by a border of [int(lag)] zeros on every
    edge.  The kernels do not follow the padding: for an image of [h] rows
    and [w] columns both kernels have [w + 1] rows and [h + 1] columns,
    whatever the lag. *)
Theorem full_pixel_lag_convolves_bordered_arrays (self : DeltaVariance)
    (lag : Qc) (annulus : kernel) :
  (1 <= lag)%Qc ->
  shape (weights self) = shape (img self) ->
  rectangular (snd (shape (img self))) (img self) ->
  rectangular (snd (shape (weights self))) (weights self) ->
  annulus_kernel (mkScalar (lags_kind self) (to_real (Fin lag)))
    (scalar_to_real (diam_ratio self))
    (Z.of_nat (fst (shape (img self)))) (Z.of_nat (snd (shape (img self))))
  = Ok annulus ->
  let h := fst (shape (img self)) in
  let w := snd (shape (img self)) in
  let core := core_kernel (mkScalar (lags_kind self) (to_real (Fin lag)))
                (Z.of_nat h) (Z.of_nat w) in
  exists p,
    py_int (Fin lag) = Ok (Z.of_nat p) /\ (1 <= p)%nat
    /\ (let pad_weights := zero_border p (weights self) in
        let pad_img :=
          zero_border p (amap2 fmul (img self) (weights self)) in
        convolved_fields convolve_fft self (Fin lag)
        = Ok (convolve_fft pad_img core (nanflag self),
              convolve_fft pad_img annulus (nanflag self),
              convolve_fft pad_weights core (nanflag self),
              convolve_fft pad_weights annulus (nanflag self))
        /\ shape pad_weights = ((p + h + p)%nat, (p + w + p)%nat)
        /\ shape pad_img = ((p + h + p)%nat, (p + w + p)%nat))
    /\ has_shape (w + 1) (h + 1) core
    /\ has_shape (w + 1) (h + 1) annulus.
Proof.
  intros Hlag Hshape Hrect Hrectw Hann h w core.
  destruct (py_int_at_least_one lag Hlag) as (p & Hp & Hp1).
  exists p. split; [exact Hp|]. split; [exact Hp1|].
  assert (Hkernel : forall k : kernel,
    has_shape (Z.to_nat (Z.of_nat w + 1)) (Z.to_nat (Z.of_nat h + 1)) k ->
    has_shape (w + 1) (h + 1) k).
  { intros k Hk.
    replace (w + 1)%nat with (Z.to_nat (Z.of_nat w + 1)) by lia.
    now replace (h + 1)%nat with (Z.to_nat (Z.of_nat h + 1)) by lia. }
  pose proof (radius2_shape (Z.of_nat h) (Z.of_nat w)
                ltac:(lia) ltac:(lia)) as Hr2.
  split; [|split].
  - cbv zeta.
    destruct (pad_round_trip_positive_width p (img self) Hp1 Hrect)
      as [Hpi _].
    destruct (pad_round_trip_positive_width p (weights self) Hp1 Hrectw)
      as [Hpw _].
    split; [|split].
    + rewrite convolved_fields_eq. cbv zeta.
      rewrite Hann. cbn [rbind]. rewrite Hp. cbn [rbind].
      rewrite Hpw, Hpi. cbn [rbind].
      now rewrite (zero_border_product p (img self) (weights self) Hshape
                     Hrect Hrectw).
    + rewrite zero_border_shape by exact Hp1. rewrite Hshape.
      unfold shape in Hshape. inversion Hshape as [[Hl Hh]].
      now rewrite Hl.
    + rewrite zero_border_shape by exact Hp1. f_equal.
      * unfold amap2, map2. rewrite length_map, length_combine.
        unfold shape in Hshape. inversion Hshape as [[Hl Hh]].
        rewrite Hl. unfold h, shape. cbn [fst]. lia.
      * f_equal. f_equal. unfold shape in *. cbn [snd fst] in *.
        inversion Hshape as [[Hl Hh]]. unfold w. cbn [snd].
        destruct (img self) as [|r a], (weights self) as [|r' b];
          try reflexivity; try discriminate.
        cbn [amap2 map2 combine map hd fst snd] in *.
        unfold map2. rewrite length_map, length_combine. lia.
  - apply Hkernel. unfold core, core_kernel, normalise, gaussian.
    now repeat apply amap_shape.
  - apply Hkernel. unfold annulus_kernel in Hann.
    destruct (scalar_div _ _) as [factor|e]; cbn [rbind] in Hann;
      [|discriminate].
    inversion Hann; subst. unfold normalise, gaussian.
    repeat apply amap_shape. apply amap2_shape; now apply amap_shape.
Qed.

End FullPixelLag.

Lemma full_pixel_lag_witness :
  exists (annulus : kernel) (p : nat),
    py_int (fq 1 1) = Ok (Z.of_nat p) /\ (1 <= p)%nat
    /\ has_shape 3 3 annulus.
Proof.
  assert (Hlag : (1 <= Q2Qc 1)%Qc) by now vm_compute.
  assert (Hrect : rectangular 2 two_by_two) by (repeat constructor).
  assert (Hrectw : rectangular 2 [[fq 1 1; fq 1 1]; [fq 1 1; fq 1 1]])
    by (repeat constructor).
  eexists.
  destruct (full_pixel_lag_convolves_bordered_arrays convolve_identity
              negative_lag (Q2Qc 1) _ Hlag eq_refl Hrect Hrectw eq_refl)
    as (p & Hp & Hp1 & _ & _ & Hann).
  exists p. split; [exact Hp|]. split; [exact Hp1|exact Hann].
Defined.

(** ** The order of the two bounds *)

Lemma float_leb_fin (a b : Qc) :
  float_leb (Fin a) (Fin b) = true <-> (a <= b)%Qc.
Proof.
  cbn [float_leb]. unfold Qcle. rewrite Qle_alt. unfold Qccompare.
  destruct (this a ?= this b)%Q; split; congruence.
Qed.

Lemma float_le_refl (x : float) : float_le x x.
Proof.
  destruct x as [a| | |]; try reflexivity.
  apply float_leb_fin, Qcle_refl.
Qed.

Lemma float_le_trans (x y z : float) :
  float_le x y -> float_le y z -> float_le x z.
Proof.
  unfold float_le.
  destruct x as [a| | |], y as [b| | |], z as [c| | |]; cbn [float_leb];
    try reflexivity; try discriminate.
  intros Hab Hbc. apply float_leb_fin.
  apply Qcle_trans with b; now apply float_leb_fin.
Qed.

Lemma sorted_nth (l : list float) :
  Sorted float_le l ->
  forall i j, (i <= j)%nat -> (j < length l)%nat ->
  float_le (nth i l NaN) (nth j l NaN).
Proof.
  intros Hsorted.
  assert (Hstrong : StronglySorted float_le l).
  { apply Sorted_StronglySorted; [|exact Hsorted].
    intros x y z. apply float_le_trans. }
  clear Hsorted.
  induction Hstrong as [|x l Hl IH Hall]; intros i j Hij Hj;
    [cbn in Hj; lia|].
  destruct i as [|i], j as [|j]; cbn [nth length] in *; try lia.
  - apply float_le_refl.
  - rewrite Forall_forall in Hall. apply Hall, nth_In. lia.
  - apply IH; lia.
Qed.

Lemma half_alpha_order (alpha : Qc) :
  ((alpha <= 1)%Qc -> (alpha / Q2Qc 2 <= 1 - alpha / Q2Qc 2)%Qc)
  /\ ((1 <= alpha)%Qc -> (1 - alpha / Q2Qc 2 <= alpha / Q2Qc 2)%Qc).
Proof.
  assert (H2 : Q2Qc 2 <> 0%Qc) by discriminate.
  split; intros Ha; apply Qcle_minus_iff; apply Qcle_minus_iff in Ha.
  - replace (1 - alpha / Q2Qc 2 + - (alpha / Q2Qc 2))%Qc
      with (1 + - alpha)%Qc; [exact Ha|].
    replace alpha with (alpha / Q2Qc 2 + alpha / Q2Qc 2)%Qc at 1;
      [ring|].
    unfold Qcdiv. rewrite <- Qcmult_plus_distr_r.
    replace (/ Q2Qc 2 + / Q2Qc 2)%Qc with 1%Qc
      by (apply Qc_is_canon; reflexivity).
    apply Qcmult_1_r.
  - replace (alpha / Q2Qc 2 + - (1 - alpha / Q2Qc 2))%Qc
      with (alpha + - (1))%Qc; [exact Ha|].
    replace alpha with (alpha / Q2Qc 2 + alpha / Q2Qc 2)%Qc at 1;
      [ring|].
    unfold Qcdiv. rewrite <- Qcmult_plus_distr_r.
    replace (/ Q2Qc 2 + / Q2Qc 2)%Qc with 1%Qc
      by (apply Qc_is_canon; reflexivity).
    apply Qcmult_1_r.
Qed.

Lemma rank_order (nsamples : nat) (alpha : Qc) :
  ((alpha <= 1)%Qc -> (lower_rank nsamples alpha
                       <= upper_rank nsamples alpha)%Z)
  /\ ((1 <= alpha)%Qc -> (upper_rank nsamples alpha
                          <= lower_rank nsamples alpha)%Z).
Proof.
  assert (Hn : (0 <= qn nsamples)%Qc).
  { destruct nsamples; [now vm_compute|].
    apply Qclt_le_weak, qn_pos. lia. }
  destruct (half_alpha_order alpha) as [Hlow Hhigh].
  unfold lower_rank, upper_rank.
  rewrite (Qcmult_comm (qn nsamples) (alpha / Q2Qc 2)).
  rewrite (Qcmult_comm (qn nsamples) (1 - alpha / Q2Qc 2)).
  split; intros Ha; apply Qfloor_resp_le;
    apply Qcmult_le_compat_r; auto.
Qed.

Lemma np_getitem_nil {A : Type} (k : Z) :
  np_getitem (@nil A) k = Raise IndexError.
Proof.
  unfold np_getitem. cbn [length Z.of_nat].
  destruct (k <? 0)%Z eqn:Hneg.
  - apply Z.ltb_lt in Hneg.
    replace ((0 <=? k + 0)%Z && (k + 0 <? 0)%Z) with false; [reflexivity|].
    symmetry. apply andb_false_iff. left. apply Z.leb_gt. lia.
  - apply Z.ltb_ge in Hneg.
    replace ((0 <=? k)%Z && (k <? 0)%Z) with false; [reflexivity|].
    symmetry. apply andb_false_iff. right. apply Z.ltb_ge. lia.
Qed.

(** X21.  The bootstrap branch stores an interval only for at least one
    sample and [0 < alpha < 2].  The pair is stored as (entry at the lower
    rank, entry at the upper rank): it is in ascending order for
    [alpha <= 1], and in descending order, upper bound first, for
    [alpha >= 1]. *)
Theorem bootstrap_interval_order
    (convolved_array convolved_weight : array) (nsamples : nat) (alpha : Qc)
    (g g' : rng) (low high : float) :
  uniform_draws g ->
  bootstrap_error convolved_array convolved_weight nsamples (Fin alpha) g
  = Ok ((low, high), g') ->
  (0 < nsamples)%nat /\ (0 < alpha)%Qc /\ (alpha < Q2Qc 2)%Qc
  /\ ((alpha <= 1)%Qc -> float_le low high)
  /\ ((1 <= alpha)%Qc -> float_le high low).
Proof.
  intros Hg Herr.
  assert (Hn : (0 < nsamples)%nat).
  { destruct nsamples; [|lia]. exfalso.
    unfold bootstrap_error in Herr. cbn [bootstrap_loop rbind] in Herr.
    destruct (py_int _) as [k|]; cbn [rbind] in Herr; [|discriminate].
    change (np_sort []) with (@nil float) in Herr.
    rewrite np_getitem_nil in Herr. discriminate Herr. }
  assert (Hrange : (0 < alpha)%Qc /\ (alpha < Q2Qc 2)%Qc).
  { destruct (Qclt_le_dec 0 alpha) as [Hlo|Hlo];
      [destruct (Qclt_le_dec alpha (Q2Qc 2)) as [Hhi|Hhi]; [now split|]|].
    - rewrite bootstrap_error_outside_range in Herr;
        [discriminate | exact Hg | now right].
    - rewrite bootstrap_error_outside_range in Herr;
        [discriminate | exact Hg | now left]. }
  destruct Hrange as [Hlo Hhi].
  split; [exact Hn|]. split; [exact Hlo|]. split; [exact Hhi|].
  destruct (bootstrap_error_order_statistics convolved_array convolved_weight
              nsamples alpha g Hg Hn Hlo Hhi)
    as (vals & g1 & _ & Hlen & _ & Heq).
  rewrite Heq in Herr. inversion Herr; subst low high g'. clear Herr Heq.
  destruct (ranks_in_range nsamples alpha Hn Hlo Hhi) as [Hlr Hur].
  destruct (rank_order nsamples alpha) as [Hup Hdown].
  split; intros Ha; apply sorted_nth;
    try apply np_sort_sorted; rewrite ?np_sort_length; try lia.
  - specialize (Hup Ha). lia.
  - specialize (Hdown Ha). lia.
Qed.

Lemma bootstrap_interval_order_witness :
  exists low high g',
    bootstrap_error two_by_two [[fq 1 1; fq 1 1]; [fq 1 1; fq 1 1]] 3
      (fq 1 1) constant_draws
    = Ok ((low, high), g')
    /\ float_le low high.
Proof.
  assert (Hg : uniform_draws constant_draws)
    by (intros k; split; now vm_compute).
  destruct (bootstrap_error two_by_two [[fq 1 1; fq 1 1]; [fq 1 1; fq 1 1]]
              3 (fq 1 1) constant_draws) as [[[low high] g']|e] eqn:Herr.
  - exists low, high, g'. split; [reflexivity|].
    destruct (bootstrap_interval_order _ _ _ (Q2Qc 1) _ _ _ _ Hg Herr)
      as (_ & _ & _ & Hup & _).
    apply Hup. apply Qcle_refl.
  - vm_compute in Herr. discriminate Herr.
Defined.
